(** * libdomain: the session layer of [src/domain.c]

    A shallow embedding of [domain.c] over an explicit model of the C
    store.  Every [talloc]/[malloc] block is a chunk of the store, addressed
    by a location; a chunk records its talloc parent and a typed payload.
    Functions of the source become state-passing functions in the monad
    [M]; undefined behaviour of the C program (a null or dangling
    dereference, a read past the end of an array) is the outcome [Undef].

    Collaborators that live outside [domain.c] (the protocol layer of
    [connection.c] and [entry.c], libverto, libconfig, libldap) are recorded
    as events of a trace, with the arguments they were handed; what they
    answer is left open and taken as a variable of the section that needs it. *)

From Stdlib Require Import ZArith NArith Lia DecimalString DecimalZ.
From stdpp Require Import gmap strings list fin_maps.

Local Open Scope N_scope.

(** ** Pointers *)

Abbreviation loc := N.

(** A pointer to a struct or to an array: [None] is [NULL]. *)
Abbreviation ptr := (option loc).

(** A [char*]: [NULL], a string literal of the program (static storage,
    known by its text), or a string held in a chunk of the store. *)
Inductive charp :=
| CNull
| CLit (text : string)
| CAt (l : loc).

Definition charp_is_null (p : charp) : bool :=
  match p with CNull => true | _ => false end.

Definition ptr_is_null (p : ptr) : bool :=
  match p with None => true | Some _ => false end.

(** ** Enumerations and constants *)

Inductive OperationReturnCode := RETURN_CODE_SUCCESS | RETURN_CODE_FAILURE.

Inductive BindType := BIND_TYPE_INTERACTIVE | BIND_TYPE_SIMPLE.

(** Modelled from the spec: the state enumeration of
    [connection_state_machine.h], which [domain.c] only reads; the spec
    lists [INIT], [TLS_START], [BIND], [RUN] and [ERROR]. *)
Inductive csm_state :=
| LDAP_CONNECTION_STATE_INIT
| LDAP_CONNECTION_STATE_TLS_START
| LDAP_CONNECTION_STATE_BIND
| LDAP_CONNECTION_STATE_RUN
| LDAP_CONNECTION_STATE_ERROR.

(** Function pointers are known by a number; the tick handler of this file
    is the one callback the model can run. *)
Inductive verto_callback :=
| cb_connection_update
| cb_user (f : N).

Definition CONNECTION_UPDATE_INTERVAL : Z := 1000.

(** Constants of OpenLDAP's [ldap.h] and of [verto.h]. *)
Definition LDAP_VERSION3 : Z := 3.
Definition LDAP_MOD_ADD : Z := 0.
Definition LDAP_MOD_DELETE : Z := 1.
Definition LDAP_MOD_REPLACE : Z := 2.
Definition LDAP_OPT_DEBUG_LEVEL : Z := 20481.
Definition LDAP_SASL_SIMPLE : charp := CNull.
Definition LDAP_SASL_QUIET : Z := 2.
Definition VERTO_EV_FLAG_PERSIST : Z := 1.

(** ** Structs

    One module per struct, so that fields keep the names of the source.
    [zero] is the all-zero value that [talloc_zero] hands out; it also
    stands for the unspecified contents of a block from [talloc] or
    [malloc], which the source always assigns before reading. *)

Module ld_config.
Record ld_config_t := mk {
  host : charp;
  protocol_version : Z;
  base_dn : charp;
  username : charp;
  password : charp;
  simple_bind : bool;
  use_tls : bool;
  use_sasl : bool;
  use_anon : bool;
  timeout : Z;
  cacertfile : charp;
  certfile : charp;
  keyfile : charp }.
Definition zero : ld_config_t :=
  mk CNull 0 CNull CNull CNull false false false false 0 CNull CNull CNull.
Definition set_host v c :=
  mk v (protocol_version c) (base_dn c) (username c) (password c) (simple_bind c)
     (use_tls c) (use_sasl c) (use_anon c) (timeout c) (cacertfile c) (certfile c) (keyfile c).
Definition set_protocol_version v c :=
  mk (host c) v (base_dn c) (username c) (password c) (simple_bind c)
     (use_tls c) (use_sasl c) (use_anon c) (timeout c) (cacertfile c) (certfile c) (keyfile c).
Definition set_base_dn v c :=
  mk (host c) (protocol_version c) v (username c) (password c) (simple_bind c)
     (use_tls c) (use_sasl c) (use_anon c) (timeout c) (cacertfile c) (certfile c) (keyfile c).
Definition set_username v c :=
  mk (host c) (protocol_version c) (base_dn c) v (password c) (simple_bind c)
     (use_tls c) (use_sasl c) (use_anon c) (timeout c) (cacertfile c) (certfile c) (keyfile c).
Definition set_password v c :=
  mk (host c) (protocol_version c) (base_dn c) (username c) v (simple_bind c)
     (use_tls c) (use_sasl c) (use_anon c) (timeout c) (cacertfile c) (certfile c) (keyfile c).
Definition set_flags sb tls sasl anon c :=
  mk (host c) (protocol_version c) (base_dn c) (username c) (password c) sb
     tls sasl anon (timeout c) (cacertfile c) (certfile c) (keyfile c).
Definition set_timeout v c :=
  mk (host c) (protocol_version c) (base_dn c) (username c) (password c) (simple_bind c)
     (use_tls c) (use_sasl c) (use_anon c) v (cacertfile c) (certfile c) (keyfile c).
Definition set_cacertfile v c :=
  mk (host c) (protocol_version c) (base_dn c) (username c) (password c) (simple_bind c)
     (use_tls c) (use_sasl c) (use_anon c) (timeout c) v (certfile c) (keyfile c).
Definition set_certfile v c :=
  mk (host c) (protocol_version c) (base_dn c) (username c) (password c) (simple_bind c)
     (use_tls c) (use_sasl c) (use_anon c) (timeout c) (cacertfile c) v (keyfile c).
Definition set_keyfile v c :=
  mk (host c) (protocol_version c) (base_dn c) (username c) (password c) (simple_bind c)
     (use_tls c) (use_sasl c) (use_anon c) (timeout c) (cacertfile c) (certfile c) v.
End ld_config.
Abbreviation ld_config_t := ld_config.ld_config_t.

Module ld_handle.
Record LDHandle := mk {
  talloc_ctx : ptr;
  global_config : ptr;
  global_ctx : ptr;
  connection_ctx : ptr;
  config_ctx : ptr }.
Definition zero : LDHandle := mk None None None None None.
Definition set_talloc_ctx v h :=
  mk v (global_config h) (global_ctx h) (connection_ctx h) (config_ctx h).
Definition set_global_config v h :=
  mk (talloc_ctx h) v (global_ctx h) (connection_ctx h) (config_ctx h).
Definition set_global_ctx v h :=
  mk (talloc_ctx h) (global_config h) v (connection_ctx h) (config_ctx h).
Definition set_connection_ctx v h :=
  mk (talloc_ctx h) (global_config h) (global_ctx h) v (config_ctx h).
Definition set_config_ctx v h :=
  mk (talloc_ctx h) (global_config h) (global_ctx h) (connection_ctx h) v.
End ld_handle.
Abbreviation LDHandle := ld_handle.LDHandle.

Module global_ctx.
Record ldap_global_context_t := mk { talloc_ctx : ptr }.
Definition zero : ldap_global_context_t := mk None.
End global_ctx.
Abbreviation ldap_global_context_t := global_ctx.ldap_global_context_t.

Module state_machine.
Record state_machine_ctx_t := mk { state : csm_state }.
End state_machine.

Module connection_ctx.
(** The fields of [ldap_connection_ctx_t] that [domain.c] touches. *)
Record ldap_connection_ctx_t := mk {
  ldap : ptr;
  base : ptr;
  state_machine : ptr;
  ldap_params : ptr;
  on_error_operation : option N;
  handle : ptr }.
Definition zero : ldap_connection_ctx_t := mk None None None None None None.
Definition set_ldap v c :=
  mk v (base c) (state_machine c) (ldap_params c) (on_error_operation c) (handle c).
Definition set_base v c :=
  mk (ldap c) v (state_machine c) (ldap_params c) (on_error_operation c) (handle c).
Definition set_state_machine v c :=
  mk (ldap c) (base c) v (ldap_params c) (on_error_operation c) (handle c).
Definition set_ldap_params v c :=
  mk (ldap c) (base c) (state_machine c) v (on_error_operation c) (handle c).
Definition set_on_error_operation v c :=
  mk (ldap c) (base c) (state_machine c) (ldap_params c) v (handle c).
Definition set_handle v c :=
  mk (ldap c) (base c) (state_machine c) (ldap_params c) (on_error_operation c) v.
End connection_ctx.
Abbreviation ldap_connection_ctx_t := connection_ctx.ldap_connection_ctx_t.

Module config_ctx.
(** [bind_type] is [None] while the zeroed field has not been assigned. *)
Record ldap_connection_config_t := mk {
  server : charp;
  protocol_verion : Z;
  use_sasl : bool;
  use_start_tls : bool;
  chase_referrals : bool;
  bind_type : option BindType;
  sasl_options : ptr;
  tls_ca_cert_file : charp;
  tls_cert_file : charp;
  tls_key_file : charp }.
Definition zero : ldap_connection_config_t :=
  mk CNull 0 false false false None None CNull CNull CNull.
Definition set_server v c :=
  mk v (protocol_verion c) (use_sasl c) (use_start_tls c) (chase_referrals c)
     (bind_type c) (sasl_options c) (tls_ca_cert_file c) (tls_cert_file c) (tls_key_file c).
Definition set_protocol_verion v c :=
  mk (server c) v (use_sasl c) (use_start_tls c) (chase_referrals c)
     (bind_type c) (sasl_options c) (tls_ca_cert_file c) (tls_cert_file c) (tls_key_file c).
Definition set_use_sasl v c :=
  mk (server c) (protocol_verion c) v (use_start_tls c) (chase_referrals c)
     (bind_type c) (sasl_options c) (tls_ca_cert_file c) (tls_cert_file c) (tls_key_file c).
Definition set_use_start_tls v c :=
  mk (server c) (protocol_verion c) (use_sasl c) v (chase_referrals c)
     (bind_type c) (sasl_options c) (tls_ca_cert_file c) (tls_cert_file c) (tls_key_file c).
Definition set_chase_referrals v c :=
  mk (server c) (protocol_verion c) (use_sasl c) (use_start_tls c) v
     (bind_type c) (sasl_options c) (tls_ca_cert_file c) (tls_cert_file c) (tls_key_file c).
Definition set_bind_type v c :=
  mk (server c) (protocol_verion c) (use_sasl c) (use_start_tls c) (chase_referrals c)
     v (sasl_options c) (tls_ca_cert_file c) (tls_cert_file c) (tls_key_file c).
Definition set_sasl_options v c :=
  mk (server c) (protocol_verion c) (use_sasl c) (use_start_tls c) (chase_referrals c)
     (bind_type c) v (tls_ca_cert_file c) (tls_cert_file c) (tls_key_file c).
Definition set_tls_ca_cert_file v c :=
  mk (server c) (protocol_verion c) (use_sasl c) (use_start_tls c) (chase_referrals c)
     (bind_type c) (sasl_options c) v (tls_cert_file c) (tls_key_file c).
Definition set_tls_cert_file v c :=
  mk (server c) (protocol_verion c) (use_sasl c) (use_start_tls c) (chase_referrals c)
     (bind_type c) (sasl_options c) (tls_ca_cert_file c) v (tls_key_file c).
Definition set_tls_key_file v c :=
  mk (server c) (protocol_verion c) (use_sasl c) (use_start_tls c) (chase_referrals c)
     (bind_type c) (sasl_options c) (tls_ca_cert_file c) (tls_cert_file c) v.
End config_ctx.
Abbreviation ldap_connection_config_t := config_ctx.ldap_connection_config_t.

Module sasl_options.
Record ldap_sasl_options_t := mk {
  mechanism : charp;
  passwd : charp;
  sasl_nocanon : bool;
  sasl_secprops : charp;
  sasl_flags : Z }.
Definition zero : ldap_sasl_options_t := mk CNull CNull false CNull 0.
Definition set_mechanism v o :=
  mk v (passwd o) (sasl_nocanon o) (sasl_secprops o) (sasl_flags o).
Definition set_passwd v o :=
  mk (mechanism o) v (sasl_nocanon o) (sasl_secprops o) (sasl_flags o).
Definition set_sasl_nocanon v o :=
  mk (mechanism o) (passwd o) v (sasl_secprops o) (sasl_flags o).
Definition set_sasl_secprops v o :=
  mk (mechanism o) (passwd o) (sasl_nocanon o) v (sasl_flags o).
Definition set_sasl_flags v o :=
  mk (mechanism o) (passwd o) (sasl_nocanon o) (sasl_secprops o) v.
End sasl_options.
Abbreviation ldap_sasl_options_t := sasl_options.ldap_sasl_options_t.

Module sasl_params.
Record ldap_sasl_params_t := mk {
  dn : charp;
  passwd : ptr;
  clientctrls : ptr;
  serverctrls : ptr }.
Definition zero : ldap_sasl_params_t := mk CNull None None None.
Definition set_dn v p := mk v (passwd p) (clientctrls p) (serverctrls p).
Definition set_passwd v p := mk (dn p) v (clientctrls p) (serverctrls p).
Definition set_clientctrls v p := mk (dn p) (passwd p) v (serverctrls p).
Definition set_serverctrls v p := mk (dn p) (passwd p) (clientctrls p) v.
End sasl_params.
Abbreviation ldap_sasl_params_t := sasl_params.ldap_sasl_params_t.

Module berval.
Record berval := mk { bv_len : Z; bv_val : charp }.
Definition zero : berval := mk 0 CNull.
Definition set_bv_len v b := mk v (bv_val b).
Definition set_bv_val v b := mk (bv_len b) v.
End berval.

Module ldap_mod.
Record LDAPMod := mk { mod_op : Z; mod_type : charp; mod_values : ptr }.
Definition zero : LDAPMod := mk 0 CNull None.
Definition set_mod_op v m := mk v (mod_type m) (mod_values m).
Definition set_mod_type v m := mk (mod_op m) v (mod_values m).
Definition set_mod_values v m := mk (mod_op m) (mod_type m) v.
End ldap_mod.
Abbreviation LDAPMod := ldap_mod.LDAPMod.

Module ldap_attribute.
Record LDAPAttribute_t := mk { name : charp; values : ptr }.
End ldap_attribute.
Abbreviation LDAPAttribute_t := ldap_attribute.LDAPAttribute_t.

(** ** The store *)

Inductive payload :=
| PCtx                                   (* a context from [talloc_new] *)
| PStr (s : string)                      (* a [char] array holding a C string *)
| PStrs (cells : list charp)             (* an array of [char*] *)
| PPtrs (cells : list ptr)               (* an array of struct pointers *)
| PConfig (c : ld_config_t)
| PHandle (h : LDHandle)
| PGlobal (g : ldap_global_context_t)
| PConn (c : ldap_connection_ctx_t)
| PCfg (c : ldap_connection_config_t)
| PStateMachine (s : state_machine.state_machine_ctx_t)
| PSaslOptions (o : ldap_sasl_options_t)
| PSaslParams (p : ldap_sasl_params_t)
| PBerval (b : berval.berval)
| PMod (m : LDAPMod)
| PAttr (a : LDAPAttribute_t).

Record chunk := Chunk { parent : ptr; content : payload }.

(** What the protocol layer is shown of one [LDAPMod]: the opcode, the
    attribute type and the values up to the terminating [NULL]. *)
Record mod_view := ModView {
  view_op : Z;
  view_type : option string;
  view_values : list string }.

(** Calls that leave [domain.c], in the order they are made.  Strings and
    attribute lists are recorded by what the callee can read through the
    pointers at the time of the call ([None]: nothing readable there). *)
Inductive event :=
| ev_ldap_set_option (ld : ptr) (option : Z) (value : Z)
| ev_connection_configure (global connection config : ptr)
| ev_connection_close (connection : ptr)
| ev_csm_next_state (machine : ptr)
| ev_add (connection : ptr) (dn : option string) (attrs : option (list mod_view))
| ev_delete (connection : ptr) (dn : option string)
| ev_modify (connection : ptr) (dn : option string) (attrs : option (list mod_view))
| ev_rename (connection : ptr) (old_dn new_rdn new_parent : option string)
            (delete_old_rdn : bool)
| ev_verto_run (base : ptr)
| ev_verto_run_once (base : ptr).

(** The log sink.  [ld_error] and [ld_info] are recorded with their format
    string as the source writes it; the diagnostics of the [check_handle]
    and [check_string] macros, whose text is in [common.h], are recorded by
    the macro and the function name it was given. *)
Inductive diag :=
| ld_error (format : string)
| ld_info (format : string) (args : list string)
| check_handle_diag (function_name : string)
| check_string_diag (function_name : string).

(** A timer registered with libverto. *)
Record verto_ev := VertoEv {
  ev_base : loc;
  ev_flags : Z;
  ev_callback : verto_callback;
  ev_interval : Z;
  ev_private : ptr }.

Record world := World {
  mem : gmap loc chunk;        (* live chunks *)
  brk : loc;                   (* next fresh location *)
  log : list diag;             (* newest first *)
  trace : list event;          (* newest first *)
  timers : gmap N verto_ev;    (* registered events *)
  next_ev : N }.

Definition set_mem (m : gmap loc chunk) (w : world) : world :=
  World m (brk w) (log w) (trace w) (timers w) (next_ev w).

(** ** The monad *)

Inductive outcome (A : Type) :=
| Undef
| Done (a : A) (w : world).
Arguments Undef {A}.
Arguments Done {A} a w.

Definition M (A : Type) : Type := world → outcome A.

Definition ret {A} (a : A) : M A := λ w, Done a w.

Definition bind {A B} (m : M A) (k : A → M B) : M B :=
  λ w, match m w with
       | Undef => Undef
       | Done a w' => k a w'
       end.

Definition undef {A} : M A := λ _, Undef.

Notation "'do' x <- m ; k" := (bind m (λ x, k))
  (at level 10, x name, m at level 100, k at level 200).
Notation "'do_' m ; k" := (bind m (λ _, k))
  (at level 10, m at level 100, k at level 200).

Definition get_world : M world := λ w, Done w w.

Definition emit (e : event) : M unit :=
  λ w, Done tt (World (mem w) (brk w) (log w) (e :: trace w) (timers w) (next_ev w)).

Definition say (d : diag) : M unit :=
  λ w, Done tt (World (mem w) (brk w) (d :: log w) (trace w) (timers w) (next_ev w)).

(** ** Allocation

    A new chunk takes the location [brk].  A non-null talloc parent has to
    be a live chunk.  Allocation itself does not fail in the model. *)

Definition fresh_chunk (par : ptr) (v : payload) : M loc :=
  λ w, Done (brk w)
            (World (<[brk w := Chunk par v]> (mem w)) (brk w + 1)
                   (log w) (trace w) (timers w) (next_ev w)).

Definition talloc (ctx : ptr) (v : payload) : M loc :=
  match ctx with
  | None => fresh_chunk None v
  | Some p =>
      λ w, match mem w !! p with
           | Some _ => fresh_chunk ctx v w
           | None => Undef
           end
  end.

Definition talloc_new (ctx : ptr) : M loc := talloc ctx PCtx.

Definition malloc (v : payload) : M loc := fresh_chunk None v.

Definition load (l : loc) : M payload :=
  λ w, match mem w !! l with
       | Some c => Done (content c) w
       | None => Undef
       end.

Definition store (l : loc) (v : payload) : M unit :=
  λ w, match mem w !! l with
       | Some c => Done tt (set_mem (<[l := Chunk (parent c) v]> (mem w)) w)
       | None => Undef
       end.

(** [under m p n q]: [q] is [p] or hangs below [p] in the talloc tree,
    following at most [n] parent links. *)
Fixpoint under (m : gmap loc chunk) (p : loc) (n : nat) (q : loc) : bool :=
  (q =? p) ||
  match n with
  | O => false
  | S n' =>
      match m !! q with
      | Some (Chunk (Some r) _) => under m p n' r
      | _ => false
      end
  end.

(** [talloc_free] releases the chunk and everything below it. *)
Definition talloc_free (p : loc) : M Z :=
  λ w, match mem w !! p with
       | Some _ =>
           Done 0%Z
             (set_mem (filter (λ kv, under (mem w) p (size (mem w)) kv.1 = false) (mem w)) w)
       | None => Undef
       end.

(** libc's [free] releases the one block. *)
Definition free (p : loc) : M unit :=
  λ w, match mem w !! p with
       | Some _ => Done tt (set_mem (delete p (mem w)) w)
       | None => Undef
       end.

(** ** Strings *)

(** Reading the string a [char*] points to. *)
Definition load_str (p : charp) : M string :=
  match p with
  | CNull => undef
  | CLit s => ret s
  | CAt l => do v <- load l; match v with PStr s => ret s | _ => undef end
  end.

Definition strlen (p : charp) : M nat :=
  do s <- load_str p; ret (String.length s).

(** The [%s] conversion of [printf]: glibc prints a null argument as
    [(null)]. *)
Definition fmt_s (p : charp) : M string :=
  match p with
  | CNull => ret "(null)"%string
  | _ => load_str p
  end.

(** The [%d] conversion. *)
Definition fmt_d (z : Z) : string := NilZero.string_of_int (Z.to_int z).

(** [talloc_asprintf ctx fmt ...], given the formatted text. *)
Definition talloc_asprintf (ctx : ptr) (text : M string) : M charp :=
  do s <- text; do l <- talloc ctx (PStr s); ret (CAt l).

(** [talloc_strdup] and [talloc_strndup] answer [NULL] for a null source. *)
Definition talloc_strdup (ctx : ptr) (p : charp) : M charp :=
  match p with
  | CNull => ret CNull
  | _ => do s <- load_str p; do l <- talloc ctx (PStr s); ret (CAt l)
  end.

Definition talloc_strndup (ctx : ptr) (p : charp) (n : nat) : M charp :=
  match p with
  | CNull => ret CNull
  | _ => do s <- load_str p;
         do l <- talloc ctx (PStr (String.substring 0 n s));
         ret (CAt l)
  end.

(** ** Typed access to chunks

    Reading a chunk at the wrong type is undefined behaviour. *)

Definition deref (p : ptr) : M loc :=
  match p with Some l => ret l | None => undef end.

Definition load_config (l : loc) : M ld_config_t :=
  do v <- load l; match v with PConfig c => ret c | _ => undef end.
Definition load_handle (l : loc) : M LDHandle :=
  do v <- load l; match v with PHandle h => ret h | _ => undef end.
Definition load_global (l : loc) : M ldap_global_context_t :=
  do v <- load l; match v with PGlobal g => ret g | _ => undef end.
Definition load_conn (l : loc) : M ldap_connection_ctx_t :=
  do v <- load l; match v with PConn c => ret c | _ => undef end.
Definition load_cfg (l : loc) : M ldap_connection_config_t :=
  do v <- load l; match v with PCfg c => ret c | _ => undef end.
Definition load_state_machine (l : loc) : M state_machine.state_machine_ctx_t :=
  do v <- load l; match v with PStateMachine s => ret s | _ => undef end.
Definition load_sasl_options (l : loc) : M ldap_sasl_options_t :=
  do v <- load l; match v with PSaslOptions o => ret o | _ => undef end.
Definition load_sasl_params (l : loc) : M ldap_sasl_params_t :=
  do v <- load l; match v with PSaslParams p => ret p | _ => undef end.
Definition load_berval (l : loc) : M berval.berval :=
  do v <- load l; match v with PBerval b => ret b | _ => undef end.
Definition load_mod (l : loc) : M LDAPMod :=
  do v <- load l; match v with PMod m => ret m | _ => undef end.
Definition load_attr (l : loc) : M LDAPAttribute_t :=
  do v <- load l; match v with PAttr a => ret a | _ => undef end.
Definition load_strs (l : loc) : M (list charp) :=
  do v <- load l; match v with PStrs cells => ret cells | _ => undef end.
Definition load_ptrs (l : loc) : M (list ptr) :=
  do v <- load l; match v with PPtrs cells => ret cells | _ => undef end.

(** [p->field = v], one helper per struct. *)
Definition update_config (l : loc) (f : ld_config_t → ld_config_t) : M unit :=
  do c <- load_config l; store l (PConfig (f c)).
Definition update_handle (l : loc) (f : LDHandle → LDHandle) : M unit :=
  do h <- load_handle l; store l (PHandle (f h)).
Definition update_conn (l : loc) (f : ldap_connection_ctx_t → ldap_connection_ctx_t) : M unit :=
  do c <- load_conn l; store l (PConn (f c)).
Definition update_cfg (l : loc) (f : ldap_connection_config_t → ldap_connection_config_t) : M unit :=
  do c <- load_cfg l; store l (PCfg (f c)).
Definition update_sasl_options (l : loc) (f : ldap_sasl_options_t → ldap_sasl_options_t) : M unit :=
  do o <- load_sasl_options l; store l (PSaslOptions (f o)).
Definition update_sasl_params (l : loc) (f : ldap_sasl_params_t → ldap_sasl_params_t) : M unit :=
  do p <- load_sasl_params l; store l (PSaslParams (f p)).
Definition update_berval (l : loc) (f : berval.berval → berval.berval) : M unit :=
  do b <- load_berval l; store l (PBerval (f b)).
Definition update_mod (l : loc) (f : LDAPMod → LDAPMod) : M unit :=
  do m <- load_mod l; store l (PMod (f m)).

(** [a[i] = v]; writing outside the array is undefined. *)
Definition store_ptr_cell (a : loc) (i : nat) (v : ptr) : M unit :=
  do cells <- load_ptrs a;
  if decide (i < length cells)%nat then store a (PPtrs (<[i := v]> cells)) else undef.

Definition store_str_cell (a : loc) (i : nat) (v : charp) : M unit :=
  do cells <- load_strs a;
  if decide (i < length cells)%nat then store a (PStrs (<[i := v]> cells)) else undef.

(** [while (a[n] != NULL) n++]: the index of the first [NULL] cell, and
    undefined behaviour when the walk leaves the array. *)
Fixpoint null_index {A} (is_null : A → bool) (cells : list A) : option nat :=
  match cells with
  | [] => None
  | c :: rest => if is_null c then Some O else S <$> null_index is_null rest
  end.

Definition count_to_null {A} (is_null : A → bool) (cells : list A) : M nat :=
  match null_index is_null cells with
  | Some n => ret n
  | None => undef
  end.

(** ** Settings: [ld_load_config] and [ld_create_config] *)

(** What libconfig holds after parsing a file: a value per key.  The
    typed lookups succeed on a key of their type only. *)
Inductive setting :=
| SettingInt (z : Z)
| SettingBool (b : bool)
| SettingString (s : string).

Definition config_lookup_string (cfg : gmap string setting) (name : string) : option string :=
  match cfg !! name with Some (SettingString s) => Some s | _ => None end.

Definition config_lookup_int (cfg : gmap string setting) (name : string) : option Z :=
  match cfg !! name with Some (SettingInt z) => Some z | _ => None end.

Definition config_lookup_bool (cfg : gmap string setting) (name : string) : option bool :=
  match cfg !! name with Some (SettingBool b) => Some b | _ => None end.

Definition bool_text (b : bool) : string := if b then "true" else "false".

(** The [get_config_optional_*] macros: the variable keeps its initial
    value when the key is absent; both branches write to the log. *)
Definition get_config_optional_string (cfg : gmap string setting) (name : string)
    (out : charp) : M charp :=
  match config_lookup_string cfg name with
  | Some s => do_ say (ld_info "%s: %s\n\n" [name; s]); ret (CLit s)
  | None => do_ say (ld_info "No '%s' setting in configuration file.\n" [name]); ret out
  end.

Definition get_config_optional_int (cfg : gmap string setting) (name : string)
    (out : Z) : M Z :=
  match config_lookup_int cfg name with
  | Some z => do_ say (ld_info "%s: %d\n\n" [name; fmt_d z]); ret z
  | None => do_ say (ld_info "No '%s' setting in configuration file.\n" [name]); ret out
  end.

Definition get_config_optional_bool (cfg : gmap string setting) (name : string)
    (out : bool) : M bool :=
  match config_lookup_bool cfg name with
  | Some b => do_ say (ld_info "%s: %s\n\n" [name; bool_text b]); ret b
  | None => do_ say (ld_info "No '%s' setting in configuration file.\n" [name]); ret out
  end.

(** [p ? talloc_strndup(ctx, p, strlen(p)) : talloc_strndup(ctx, "", strlen(""))] *)
Definition strndup_or_empty (ctx : ptr) (p : charp) : M charp :=
  if charp_is_null p
  then do n <- strlen (CLit ""); talloc_strndup ctx (CLit "") n
  else do n <- strlen p; talloc_strndup ctx p n.

(** [p ? talloc_strndup(ctx, p, strlen(p)) : NULL] *)
Definition strndup_or_null (ctx : ptr) (p : charp) : M charp :=
  if charp_is_null p
  then ret CNull
  else do n <- strlen p; talloc_strndup ctx p n.

Section Settings.

(** [config_read_file]: the parsed contents of the named file, or [None]
    when libconfig cannot read it.  Strings looked up in the parsed file
    are libconfig's; the loader copies them before [config_destroy]. *)
Variable config_read_file : string → option (gmap string setting).

Definition ld_load_config (ctx : ptr) (filename : string) : M ptr :=
  do result <- talloc ctx (PConfig ld_config.zero);
  match config_read_file filename with
  | None => do_ say (ld_error "%s:%d - %s\n"); ret None
  | Some cfg =>
      (* get_config_required_string("host", host) *)
      match config_lookup_string cfg "host" with
      | None => do_ say (ld_error "No '%s' setting in configuration file.\n"); ret None
      | Some host_text =>
          do_ say (ld_info "%s: %s\n\n" ["host"; host_text]);
          let host := CLit host_text in
          do port <- get_config_optional_int cfg "port" 0%Z;
          do h <- (if (0 <? port)%Z
                   then talloc_asprintf ctx
                          (do s <- fmt_s host; ret (s +:+ ":" +:+ fmt_d port))
                   else do n <- strlen host; talloc_strndup ctx host n);
          do_ update_config result (ld_config.set_host h);
          do protocol_version <- get_config_optional_int cfg "protocol_version" LDAP_VERSION3;
          do_ update_config result (ld_config.set_protocol_version protocol_version);
          (* get_config_required_string("base_dn", base_dn) *)
          match config_lookup_string cfg "base_dn" with
          | None => do_ say (ld_error "No '%s' setting in configuration file.\n"); ret None
          | Some base_dn_text =>
              do_ say (ld_info "%s: %s\n\n" ["base_dn"; base_dn_text]);
              let base_dn := CLit base_dn_text in
              do username <- get_config_optional_string cfg "username" CNull;
              do password <- get_config_optional_string cfg "password" CNull;
              do b <- strndup_or_empty ctx base_dn;
              do_ update_config result (ld_config.set_base_dn b);
              do u <- strndup_or_null ctx username;
              do_ update_config result (ld_config.set_username u);
              do p <- strndup_or_null ctx password;
              do_ update_config result (ld_config.set_password p);
              do simple_bind <- get_config_optional_bool cfg "simple_bind" false;
              do use_tls <- get_config_optional_bool cfg "use_tls" false;
              do use_sasl <- get_config_optional_bool cfg "use_sasl" false;
              do use_anon <- get_config_optional_bool cfg "use_anon" false;
              do_ update_config result (ld_config.set_flags simple_bind use_tls use_sasl use_anon);
              do timeout <- get_config_optional_int cfg "timeout" 0%Z;
              do_ update_config result (ld_config.set_timeout timeout);
              do cacertfile <- get_config_optional_string cfg "ca_cert_file" CNull;
              do certfile <- get_config_optional_string cfg "cert_file" CNull;
              do keyfile <- get_config_optional_string cfg "key_file" CNull;
              do ca <- strndup_or_empty ctx cacertfile;
              do_ update_config result (ld_config.set_cacertfile ca);
              do ce <- strndup_or_empty ctx certfile;
              do_ update_config result (ld_config.set_certfile ce);
              do ke <- strndup_or_empty ctx keyfile;
              do_ update_config result (ld_config.set_keyfile ke);
              ret (Some result)
          end
      end
  end.

End Settings.

Definition ld_create_config (talloc_ctx : ptr) (host : charp) (port : Z)
    (protocol_version : Z) (base_dn username password : charp)
    (simple_bind use_tls use_sasl use_anon : bool) (timeout : Z)
    (cacertfile certfile keyfile : charp) : M ptr :=
  match talloc_ctx with
  | None => do_ say (ld_error "ld_create_config - Invalid talloc context!\n"); ret None
  | Some _ =>
      do result <- talloc talloc_ctx (PConfig ld_config.zero);
      do h <- (if (0 <? port)%Z
               then talloc_asprintf talloc_ctx
                      (do s <- fmt_s host; ret (s +:+ ":" +:+ fmt_d port))
               else talloc_asprintf talloc_ctx (fmt_s host));
      do_ update_config result (ld_config.set_host h);
      do_ update_config result (ld_config.set_protocol_version protocol_version);
      do n <- strlen base_dn;
      do b <- talloc_strndup talloc_ctx base_dn n;
      do_ update_config result (ld_config.set_base_dn b);
      do u <- strndup_or_null talloc_ctx username;
      do_ update_config result (ld_config.set_username u);
      do p <- strndup_or_null talloc_ctx password;
      do_ update_config result (ld_config.set_password p);
      do_ update_config result (ld_config.set_flags simple_bind use_tls use_sasl use_anon);
      do_ update_config result (ld_config.set_timeout timeout);
      do ca <- strndup_or_empty talloc_ctx cacertfile;
      do_ update_config result (ld_config.set_cacertfile ca);
      do ce <- strndup_or_empty talloc_ctx certfile;
      do_ update_config result (ld_config.set_certfile ce);
      do ke <- strndup_or_empty talloc_ctx keyfile;
      do_ update_config result (ld_config.set_keyfile ke);
      ret (Some result)
  end.

(** ** libverto: timers

    An event is known by its number; numbers are handed out in order and
    never reused.  As in libverto, [verto_add_timeout] answers [NULL] for a
    null context or a null callback, and [verto_set_private] and
    [verto_del] ignore a null event. *)

Definition verto_add_timeout (base : ptr) (flags : Z) (callback : option verto_callback)
    (interval : Z) : M (option N) :=
  match base, callback with
  | Some b, Some cb =>
      λ w, Done (Some (next_ev w))
                (World (mem w) (brk w) (log w) (trace w)
                       (<[next_ev w := VertoEv b flags cb interval None]> (timers w))
                       (next_ev w + 1))
  | _, _ => ret None
  end.

Definition verto_set_private (ev : option N) (priv : ptr) : M unit :=
  match ev with
  | None => ret tt
  | Some e =>
      λ w, match timers w !! e with
           | Some t =>
               Done tt (World (mem w) (brk w) (log w) (trace w)
                              (<[e := VertoEv (ev_base t) (ev_flags t) (ev_callback t)
                                              (ev_interval t) priv]> (timers w))
                              (next_ev w))
           | None => Undef
           end
  end.

Definition verto_get_private (ev : N) : M ptr :=
  λ w, match timers w !! ev with
       | Some t => Done (ev_private t) w
       | None => Undef
       end.

Definition verto_del (ev : N) : M unit :=
  λ w, match timers w !! ev with
       | Some _ =>
           Done tt (World (mem w) (brk w) (log w) (trace w) (delete ev (timers w)) (next_ev w))
       | None => Undef
       end.


(** ** The session: [ld_init] and the handlers *)

(** What [connection_configure] leaves behind. *)
Record configured := Configured {
  cf_rc : OperationReturnCode;
  cf_ldap : ptr;              (* the library handle *)
  cf_base : ptr;              (* the event base *)
  cf_state : option csm_state (* the state of the machine it created, if any *) }.

Section Session.

(** The answer of [connection_configure], which may depend on everything
    that happened before the call. *)
Variable configure : list event → configured.

(** Modelled from the spec: [connection_configure] of [connection.c],
    which "creates the library handle and primes the state machine": it
    fills [ldap], [base] and [state_machine] of the connection context
    it is handed, allocating the machine in the arena of the global
    context, and leaves the rest of the store alone. *)
Definition connection_configure (global connection config : ptr) : M OperationReturnCode :=
  do_ emit (ev_connection_configure global connection config);
  do w <- get_world;
  let r := configure (trace w) in
  do g <- deref global;
  do c <- deref connection;
  do gc <- load_global g;
  do sm <- match cf_state r with
           | Some s =>
               do l <- talloc (global_ctx.talloc_ctx gc)
                              (PStateMachine (state_machine.mk s));
               ret (Some l)
           | None => ret None
           end;
  do_ update_conn c (λ x, connection_ctx.set_state_machine sm
                            (connection_ctx.set_base (cf_base r)
                               (connection_ctx.set_ldap (cf_ldap r) x)));
  ret (cf_rc r).

Definition ldap_set_option (ld : ptr) (option : Z) (value : Z) : M unit :=
  emit (ev_ldap_set_option ld option value).

(** [handle] points to the caller's [LDHandle*] variable, a one-cell
    array of pointers.  Once the new block is stored there, the model
    names it [h] where the source dereferences [handle] again, and
    likewise names the sub-contexts it has just stored into [h]; [config]
    is read through the pointer once, as nothing in [ld_init] writes to
    it.  The block that [malloc] returns is uninitialised in C; the model
    fills it with null pointers, so a field that [ld_init] has not yet
    stored reads as null here where the program would read an
    indeterminate value. *)
Definition ld_init (handle : ptr) (config : ptr) : M unit :=
  do h <- malloc (PHandle ld_handle.zero);
  do out <- deref handle;
  do_ store_ptr_cell out 0 (Some h);
  match config with
  | None => say (ld_error "Config is invalid!")
  | Some config_l =>
      do arena <- talloc_new None;
      do_ update_handle h (ld_handle.set_talloc_ctx (Some arena));
      do config <- load_config config_l;
      do gcfg <- talloc (Some arena) (PConfig config);       (* talloc_memdup *)
      do_ update_handle h (ld_handle.set_global_config (Some gcfg));
      do g <- talloc (Some arena) (PGlobal global_ctx.zero);
      do_ update_handle h (ld_handle.set_global_ctx (Some g));
      do conn <- talloc (Some arena) (PConn connection_ctx.zero);
      do_ update_handle h (ld_handle.set_connection_ctx (Some conn));
      do cc <- talloc (Some arena) (PCfg config_ctx.zero);
      do_ update_handle h (ld_handle.set_config_ctx (Some cc));
      do_ store g (PGlobal (global_ctx.mk (Some arena)));
      do_ update_cfg cc (config_ctx.set_server (ld_config.host config));
      do_ update_cfg cc (config_ctx.set_protocol_verion (ld_config.protocol_version config));
      do_ update_cfg cc (config_ctx.set_use_sasl (ld_config.use_sasl config));
      do_ update_cfg cc (config_ctx.set_use_start_tls (ld_config.use_tls config));
      do_ update_cfg cc (config_ctx.set_chase_referrals false);
      do c0 <- load_conn conn;
      do_ ldap_set_option (connection_ctx.ldap c0) LDAP_OPT_DEBUG_LEVEL (-1)%Z;
      do_ update_cfg cc (config_ctx.set_bind_type
                           (Some (if ld_config.simple_bind config
                                  then BIND_TYPE_SIMPLE else BIND_TYPE_INTERACTIVE)));
      do gctx <- load_global g;
      let tctx := global_ctx.talloc_ctx gctx in
      do_ (if ld_config.use_sasl config
           then
             do so <- talloc tctx (PSaslOptions sasl_options.zero);
             do_ update_cfg cc (config_ctx.set_sasl_options (Some so));
             do_ update_sasl_options so
                   (sasl_options.set_mechanism
                      (if ld_config.simple_bind config then LDAP_SASL_SIMPLE else CLit "GSSAPI"));
             do pw <- talloc_strdup tctx (ld_config.password config);
             do_ update_sasl_options so (sasl_options.set_passwd pw);
             do_ update_sasl_options so (sasl_options.set_sasl_nocanon true);
             do_ update_sasl_options so (sasl_options.set_sasl_secprops (CLit "minssf=56"));
             update_sasl_options so (sasl_options.set_sasl_flags LDAP_SASL_QUIET)
           else ret tt);
      do_ (if ld_config.use_tls config
           then
             do ca <- talloc_strdup tctx (ld_config.cacertfile config);
             do_ update_cfg cc (config_ctx.set_tls_ca_cert_file ca);
             do ce <- talloc_strdup tctx (ld_config.certfile config);
             do_ update_cfg cc (config_ctx.set_tls_cert_file ce);
             do ke <- talloc_strdup tctx (ld_config.keyfile config);
             update_cfg cc (config_ctx.set_tls_key_file ke)
           else ret tt);
      do params <- talloc tctx (PSaslParams sasl_params.zero);
      do_ update_conn conn (connection_ctx.set_ldap_params (Some params));
      do dn <- talloc_asprintf tctx
                 (do u <- fmt_s (ld_config.username config);
                  do b <- fmt_s (ld_config.base_dn config);
                  ret ("cn=" +:+ u +:+ "," +:+ b));
      do_ update_sasl_params params (sasl_params.set_dn dn);
      do bv <- talloc tctx (PBerval berval.zero);
      do_ update_sasl_params params (sasl_params.set_passwd (Some bv));
      do len <- (if charp_is_null (ld_config.password config)
                 then ret 0%Z
                 else do n <- strlen (ld_config.password config); ret (Z.of_nat n));
      do_ update_berval bv (berval.set_bv_len len);
      do val <- (if charp_is_null (ld_config.password config)
                 then ret CNull
                 else talloc_strdup tctx (ld_config.password config));
      do_ update_berval bv (berval.set_bv_val val);
      do_ update_sasl_params params (sasl_params.set_clientctrls None);
      do_ update_sasl_params params (sasl_params.set_serverctrls None);
      do rc <- connection_configure (Some g) (Some conn) (Some cc);
      match rc with
      | RETURN_CODE_SUCCESS => update_conn conn (connection_ctx.set_handle (Some h))
      | RETURN_CODE_FAILURE => say (ld_error "Unable to configure connection")
      end
  end.

End Session.

(** [handle->connection_ctx->base] *)
Definition connection_base (handle : loc) : M ptr :=
  do h <- load_handle handle;
  do c <- deref (ld_handle.connection_ctx h);
  do conn <- load_conn c;
  ret (connection_ctx.base conn).

Definition ld_install_default_handlers (handle : ptr) : M unit :=
  match handle with
  | None => say (ld_error "Invalid handle was provided - ld_install_default_handlers\n")
  | Some hl =>
      do base <- connection_base hl;
      do ev <- verto_add_timeout base VERTO_EV_FLAG_PERSIST (Some cb_connection_update)
                 CONNECTION_UPDATE_INTERVAL;
      do h <- load_handle hl;
      verto_set_private ev (ld_handle.connection_ctx h)
  end.

Definition ld_install_handler (handle : ptr) (callback : option verto_callback)
    (interval : Z) : M unit :=
  match handle with
  | None => say (ld_error "Invalid handle was provided - ld_install_handler\n")
  | Some hl =>
      do base <- connection_base hl;
      do ev <- verto_add_timeout base VERTO_EV_FLAG_PERSIST callback interval;
      do h <- load_handle hl;
      verto_set_private ev (ld_handle.connection_ctx h)
  end.



(** Modelled from the spec: [connection_close] of [connection.c], which
    releases the wire resources of the connection; the call is recorded. *)
Definition connection_close (connection : ptr) : M unit :=
  emit (ev_connection_close connection).

Definition ld_free (handle : ptr) : M unit :=
  match handle with
  | None => say (ld_error "Invalid handle was provided - ld_free")
  | Some hl =>
      do h <- load_handle hl;
      do_ connection_close (ld_handle.connection_ctx h);
      do_ (match ld_handle.talloc_ctx h with
           | Some arena => talloc_free arena
           | None => ret (-1)%Z
           end);
      free hl
  end.

Definition ld_install_error_handler (handle : ptr) (callback : option N) : M unit :=
  match handle with
  | None => say (ld_error "Invalid handle - ld_install_error_handler\n")
  | Some hl =>
      match callback with
      | None => say (ld_error "Invalid callback - ld_install_error_handler\n")
      | Some _ =>
          do h <- load_handle hl;
          do c <- deref (ld_handle.connection_ctx h);
          update_conn c (connection_ctx.set_on_error_operation callback)
      end
  end.

(** ** The default tick *)

Definition is_terminal (s : csm_state) : bool :=
  match s with
  | LDAP_CONNECTION_STATE_RUN | LDAP_CONNECTION_STATE_ERROR => true
  | _ => false
  end.

Section Tick.

(** The transition that [csm_next_state] of
    [connection_state_machine.c] makes; it may depend on everything that
    happened before, this call included. *)
Variable csm_step : list event → csm_state → csm_state.

(** Modelled from the spec: [csm_next_state] of
    [connection_state_machine.c], "advancing at most one transition":
    the call is recorded and the state of the machine becomes what
    [csm_step] gives. *)
Definition csm_next_state (machine : ptr) : M unit :=
  do_ emit (ev_csm_next_state machine);
  do w <- get_world;
  do l <- deref machine;
  do s <- load_state_machine l;
  store l (PStateMachine (state_machine.mk (csm_step (trace w) (state_machine.state s)))).

Definition connection_update (ctx : ptr) (ev : N) : M unit :=
  do priv <- verto_get_private ev;
  do cl <- deref priv;
  do connection <- load_conn cl;
  do_ csm_next_state (connection_ctx.state_machine connection);
  do connection <- load_conn cl;
  do ml <- deref (connection_ctx.state_machine connection);
  do machine <- load_state_machine ml;
  if is_terminal (state_machine.state machine)
  then verto_del ev
  else ret tt.

(** One firing of a registered default tick by the event loop: libverto
    calls the callback of a registered event with the event's context.
    Callbacks of the application are outside the model. *)
Inductive fires (ev : N) : world → world → Prop :=
| fires_tick w t w' :
    timers w !! ev = Some t →
    ev_callback t = cb_connection_update →
    connection_update (Some (ev_base t)) ev w = Done tt w' →
    fires ev w w'.

(** A run of the loop: the events fired, in order. *)
Inductive loop_run : world → list N → world → Prop :=
| loop_stop w : loop_run w [] w
| loop_fire w ev w1 evs w2 :
    fires ev w w1 → loop_run w1 evs w2 → loop_run w (ev :: evs) w2.

End Tick.

(** ** Entry operations *)

(** What the protocol layer can read through a [char*]. *)
Definition str_at (m : gmap loc chunk) (p : charp) : option string :=
  match p with
  | CNull => None
  | CLit s => Some s
  | CAt l => match m !! l with Some (Chunk _ (PStr s)) => Some s | _ => None end
  end.

(** The strings of a [NULL]-terminated [char*] array: [None] when there is
    no terminator or a string cannot be read. *)
Fixpoint strs_until_null (m : gmap loc chunk) (cells : list charp) : option (list string) :=
  match cells with
  | [] => None
  | CNull :: _ => Some []
  | p :: rest =>
      match str_at m p, strs_until_null m rest with
      | Some s, Some l => Some (s :: l)
      | _, _ => None
      end
  end.

Definition strs_at (m : gmap loc chunk) (p : ptr) : option (list string) :=
  match p with
  | None => None
  | Some l => match m !! l with
              | Some (Chunk _ (PStrs cells)) => strs_until_null m cells
              | _ => None
              end
  end.

Definition mod_at (m : gmap loc chunk) (l : loc) : option mod_view :=
  match m !! l with
  | Some (Chunk _ (PMod x)) =>
      match strs_at m (ldap_mod.mod_values x) with
      | Some vs => Some (ModView (ldap_mod.mod_op x) (str_at m (ldap_mod.mod_type x)) vs)
      | None => None
      end
  | _ => None
  end.

Fixpoint mods_until_null (m : gmap loc chunk) (cells : list ptr) : option (list mod_view) :=
  match cells with
  | [] => None
  | None :: _ => Some []
  | Some l :: rest =>
      match mod_at m l, mods_until_null m rest with
      | Some v, Some vs => Some (v :: vs)
      | _, _ => None
      end
  end.

Definition mods_at (m : gmap loc chunk) (p : ptr) : option (list mod_view) :=
  match p with
  | None => None
  | Some l => match m !! l with
              | Some (Chunk _ (PPtrs cells)) => mods_until_null m cells
              | _ => None
              end
  end.

(** The inner copy loop of [fill_attributes], over the cells of the
    caller's [values] array from [val_index] on. *)
Fixpoint copy_values (cells : list charp) (mod_values : loc) (talloc_ctx : ptr)
    (val_index : nat) : M unit :=
  match cells with
  | [] => undef
  | CNull :: _ => ret tt
  | p :: rest =>
      do s <- talloc_strdup talloc_ctx p;
      do_ store_str_cell mod_values val_index s;
      copy_values rest mod_values talloc_ctx (S val_index)
  end.

(** The outer loop of [fill_attributes], over the cells of the caller's
    array from [attr_index] on. *)
Fixpoint fill_loop (cells : list ptr) (attrs : loc) (talloc_ctx : ptr) (mod_op : Z)
    (attr_index : nat) : M unit :=
  match cells with
  | [] => undef
  | None :: _ => ret tt
  | Some a :: rest =>
      do m <- talloc talloc_ctx (PMod ldap_mod.zero);
      do_ store_ptr_cell attrs attr_index (Some m);
      do_ update_mod m (ldap_mod.set_mod_op mod_op);
      do attr <- load_attr a;
      do ty <- talloc_strdup talloc_ctx (ldap_attribute.name attr);
      do_ update_mod m (ldap_mod.set_mod_type ty);
      do vl <- deref (ldap_attribute.values attr);
      do vals <- load_strs vl;
      do val_count <- count_to_null charp_is_null vals;
      do mv <- talloc talloc_ctx (PStrs (replicate (val_count + 1) CNull));
      do_ update_mod m (ldap_mod.set_mod_values (Some mv));
      do_ copy_values vals mv talloc_ctx 0;
      do_ store_str_cell mv val_count CNull;
      fill_loop rest attrs talloc_ctx mod_op (S attr_index)
  end.

(** The two walks over [entry_attrs] read the caller's array, which
    [fill_attributes] never writes: the model loads its cells once. *)
Definition fill_attributes (entry_attrs : ptr) (talloc_ctx : ptr) (mod_op : Z) : M ptr :=
  do el <- deref entry_attrs;
  do cells <- load_ptrs el;
  do attr_count <- count_to_null ptr_is_null cells;
  do attrs <- talloc talloc_ctx (PPtrs (replicate (attr_count + 1) None));
  do_ fill_loop cells attrs talloc_ctx mod_op 0;
  do_ store_ptr_cell attrs attr_count None;
  ret (Some attrs).

Section Entry.

(** [check_string] of [common.h] rejects a null string; [string_ok]
    stands for whatever else the macro asks of a non-null one, and the
    checked string is the input itself. *)
Variable string_ok : string → bool.

(** The result of a protocol operation of [entry.c], which may depend
    on everything that happened before, this call included. *)
Variable op_result : list event → OperationReturnCode.

(** Modelled from the spec: [check_handle] of [common.h].  "All public
    functions accept null session and fail with a logged diagnostic":
    a null handle logs and answers [FAILURE]. *)
Definition check_handle (handle : ptr) (function_name : string)
    (k : loc → M OperationReturnCode) : M OperationReturnCode :=
  match handle with
  | None => do_ say (check_handle_diag function_name); ret RETURN_CODE_FAILURE
  | Some h => k h
  end.

(** Modelled from the spec: [check_string] of [common.h], the check of
    a required string argument: a null string, or one that [string_ok]
    turns down, logs and answers [FAILURE]. *)
Definition check_string (input : charp) (function_name : string)
    (k : charp → M OperationReturnCode) : M OperationReturnCode :=
  match input with
  | CNull => do_ say (check_string_diag function_name); ret RETURN_CODE_FAILURE
  | _ =>
      do s <- load_str input;
      if string_ok s then k input
      else do_ say (check_string_diag function_name); ret RETURN_CODE_FAILURE
  end.

(** Modelled from the spec: the protocol operations [add], [ld_delete],
    [modify] and [ld_rename] of [entry.c], invoked "with the composed DN
    and attribute list".  Each is recorded in the trace with what it can
    read through its arguments when it is called, and answers what the
    protocol layer answers. *)
Definition answer : M OperationReturnCode :=
  do w <- get_world; ret (op_result (trace w)).

Definition add (connection : ptr) (dn : charp) (attrs : ptr) : M OperationReturnCode :=
  do w <- get_world;
  do_ emit (ev_add connection (str_at (mem w) dn) (mods_at (mem w) attrs));
  answer.

Definition ld_delete (connection : ptr) (dn : charp) : M OperationReturnCode :=
  do w <- get_world;
  do_ emit (ev_delete connection (str_at (mem w) dn));
  answer.

Definition modify (connection : ptr) (dn : charp) (attrs : ptr) : M OperationReturnCode :=
  do w <- get_world;
  do_ emit (ev_modify connection (str_at (mem w) dn) (mods_at (mem w) attrs));
  answer.

Definition ld_rename (connection : ptr) (olddn newdn new_parent : charp)
    (delete_original : bool) : M OperationReturnCode :=
  do w <- get_world;
  do_ emit (ev_rename connection (str_at (mem w) olddn) (str_at (mem w) newdn)
              (str_at (mem w) new_parent) delete_original);
  answer.

(** [talloc_asprintf(ctx, "%s=%s,%s", a, b, c)] *)
Definition fmt_dn (a b c : charp) : M string :=
  do x <- fmt_s a; do y <- fmt_s b; do z <- fmt_s c;
  ret (x +:+ "=" +:+ y +:+ "," +:+ z).

Definition handle_connection (h : loc) : M ptr :=
  do hd <- load_handle h; ret (ld_handle.connection_ctx hd).

Definition ld_add_entry (handle : ptr) (name parent prefix : charp)
    (entry_attrs : ptr) : M OperationReturnCode :=
  check_handle handle "ld_add_entry" (λ h,
  check_string name "ld_add_entry" (λ entry_name,
  check_string parent "ld_add_entry" (λ entry_parent,
    do talloc_ctx <- talloc_new None;
    do dn <- talloc_asprintf (Some talloc_ctx) (fmt_dn prefix entry_name entry_parent);
    do attrs <- fill_attributes entry_attrs (Some talloc_ctx) LDAP_MOD_ADD;
    do conn <- handle_connection h;
    do rc <- add conn dn attrs;
    do_ talloc_free talloc_ctx;
    ret rc))).

Definition ld_del_entry (handle : ptr) (name parent prefix : charp)
    : M OperationReturnCode :=
  check_handle handle "ld_del_entry" (λ h,
  check_string name "ld_del_entry" (λ entry_name,
  check_string parent "ld_del_entry" (λ entry_parent,
    do talloc_ctx <- talloc_new None;
    do dn <- talloc_asprintf (Some talloc_ctx) (fmt_dn prefix entry_name entry_parent);
    do conn <- handle_connection h;
    do rc <- ld_delete conn dn;
    do_ talloc_free talloc_ctx;
    ret rc))).

Definition ld_mod_entry (handle : ptr) (name parent prefix : charp)
    (entry_attrs : ptr) : M OperationReturnCode :=
  check_handle handle "ld_mod_entry" (λ h,
  check_string name "ld_mod_entry" (λ entry_name,
  check_string parent "ld_mod_entry" (λ entry_parent,
    do talloc_ctx <- talloc_new None;
    do attrs <- fill_attributes entry_attrs (Some talloc_ctx) LDAP_MOD_REPLACE;
    do dn <- talloc_asprintf (Some talloc_ctx) (fmt_dn prefix entry_name entry_parent);
    do conn <- handle_connection h;
    do rc <- modify conn dn attrs;
    do_ talloc_free talloc_ctx;
    ret rc))).

Definition ld_rename_entry (handle : ptr) (old_name new_name parent prefix : charp)
    : M OperationReturnCode :=
  check_handle handle "ld_rename_entry" (λ h,
  check_string old_name "ld_rename_entry" (λ entry_old_name,
  check_string new_name "ld_rename_entry" (λ entry_new_name,
  check_string parent "ld_rename_entry" (λ entry_parent,
    do talloc_ctx <- talloc_new None;
    do old_dn <- talloc_asprintf (Some talloc_ctx)
                   (fmt_dn prefix entry_old_name entry_parent);
    do new_dn <- talloc_asprintf (Some talloc_ctx)
                   (do x <- fmt_s prefix; do y <- fmt_s entry_new_name;
                    ret (x +:+ "=" +:+ y));
    do conn <- handle_connection h;
    do rc <- ld_rename conn old_dn new_dn entry_parent true;
    do_ talloc_free talloc_ctx;
    ret rc)))).

Definition ld_mod_entry_attrs (handle : ptr) (name parent prefix : charp)
    (entry_attrs : ptr) (opcode : Z) : M OperationReturnCode :=
  check_handle handle "ld_mod_entry_attrs" (λ h,
  check_string name "ld_mod_entry_attrs" (λ entry_name,
  check_string parent "ld_mod_entry_attrs" (λ entry_parent,
    do talloc_ctx <- talloc_new None;
    do attrs <- fill_attributes entry_attrs (Some talloc_ctx) opcode;
    do n <- strlen prefix;
    do dn <- (if decide (0 < n)%nat
              then talloc_asprintf (Some talloc_ctx)
                     (fmt_dn prefix entry_name entry_parent)
              else talloc_asprintf (Some talloc_ctx)
                     (do y <- fmt_s entry_name; do z <- fmt_s entry_parent;
                      ret (y +:+ "," +:+ z)));
    do conn <- handle_connection h;
    do rc <- modify conn dn attrs;
    do_ talloc_free talloc_ctx;
    ret rc))).

End Entry.

(** * Specification vocabulary *)

(** ** Total correctness

    [wp m Q w]: run from [w], [m] is defined and its result and final
    world satisfy [Q]. *)
Definition wp {A} (m : M A) (Q : A → world → Prop) (w : world) : Prop :=
  match m w with
  | Done a w' => Q a w'
  | Undef => False
  end.

(** ** Well-formed stores

    Every live chunk, and every talloc parent a live chunk names, lies
    below [brk]. *)
Definition keys_ok (m : gmap loc chunk) (b : loc) : Prop :=
  ∀ l c, m !! l = Some c → l < b.

Definition parents_ok (m : gmap loc chunk) (b : loc) : Prop :=
  ∀ l c r, m !! l = Some c → parent c = Some r → r < b.

Definition chunk_okb (b : loc) (kv : loc * chunk) : bool :=
  (kv.1 <? b) && match parent kv.2 with Some r => r <? b | None => true end.

Definition heap_okb (w : world) : bool :=
  forallb (chunk_okb (brk w)) (map_to_list (mem w)).

(** The same for the timers of libverto. *)
Definition timers_okb (w : world) : bool :=
  forallb (λ kv : N * verto_ev, kv.1 <? next_ev w) (map_to_list (timers w)).

(** ** Strings *)

Definition is_str (c : option chunk) : Prop :=
  match c with Some (Chunk _ (PStr _)) => True | _ => False end.

(** What [%s] prints for a pointer. *)
Definition render (m : gmap loc chunk) (p : charp) : option string :=
  match p with
  | CNull => Some "(null)"%string
  | _ => str_at m p
  end.

(** An optional string argument: [NULL], or a pointer to a string. *)
Definition null_or_readable (m : gmap loc chunk) (p : charp) : Prop :=
  match p with
  | CNull => True
  | _ => is_Some (str_at m p)
  end.

(** [p] is a copy of the text [o] made inside the arena [a]: [NULL] for no
    text, else a string chunk of its own that was allocated after [a] and
    hangs under it. *)
Definition str_copy (m : gmap loc chunk) (a : loc) (p : charp) (o : option string) : Prop :=
  match o with
  | None => p = CNull
  | Some s => ∃ l, p = CAt l ∧ a < l ∧ m !! l = Some (Chunk (Some a) (PStr s))
  end.

(** ** Attribute lists *)

(** What the caller's [LDAPAttribute_t] holds: the name, which may be
    [NULL], and the values up to the terminating [NULL]. *)
Record attr_view := AttrView {
  attr_name : option string;
  attr_values : list string }.

Definition attr_at (m : gmap loc chunk) (l : loc) : option attr_view :=
  match m !! l with
  | Some (Chunk _ (PAttr x)) =>
      match strs_at m (ldap_attribute.values x) with
      | Some vs =>
          match ldap_attribute.name x with
          | CNull => Some (AttrView None vs)
          | p => match str_at m p with
                 | Some s => Some (AttrView (Some s) vs)
                 | None => None
                 end
          end
      | None => None
      end
  | _ => None
  end.

Fixpoint attrs_until_null (m : gmap loc chunk) (cells : list ptr) : option (list attr_view) :=
  match cells with
  | [] => None
  | None :: _ => Some []
  | Some l :: rest =>
      match attr_at m l, attrs_until_null m rest with
      | Some v, Some vs => Some (v :: vs)
      | _, _ => None
      end
  end.

(** A non-null, [NULL]-terminated attribute list whose names and values
    can all be read. *)
Definition attrs_at (m : gmap loc chunk) (p : ptr) : option (list attr_view) :=
  match p with
  | None => None
  | Some l => match m !! l with
              | Some (Chunk _ (PPtrs cells)) => attrs_until_null m cells
              | _ => None
              end
  end.

Definition to_mod (mod_op : Z) (a : attr_view) : mod_view :=
  ModView mod_op (attr_name a) (attr_values a).

(** The chunk at [l] is an [LDAPMod] of the arena [a] that carries [v] in
    chunks of the arena: the type and every value are copies, and the
    value array ends with [NULL]. *)
Definition mod_repr (m : gmap loc chunk) (a : loc) (l : loc) (v : mod_view) : Prop :=
  ∃ x vl ps,
    a < l ∧ m !! l = Some (Chunk (Some a) (PMod x)) ∧
    ldap_mod.mod_op x = view_op v ∧
    str_copy m a (ldap_mod.mod_type x) (view_type v) ∧
    ldap_mod.mod_values x = Some vl ∧ a < vl ∧
    m !! vl = Some (Chunk (Some a) (PStrs (ps ++ [CNull]))) ∧
    Forall2 (λ p s, str_copy m a p (Some s)) ps (view_values v).

(** ** Frames *)

(** Every chunk of [m] other than [x] is still there in [m']. *)
Definition pres_except (x : loc) (m m' : gmap loc chunk) : Prop :=
  ∀ l c, l ≠ x → m !! l = Some c → m' !! l = Some c.

(** The store [m] with bound [b], while a per-call arena at [a] is live:
    below [a] it is the store [m0] from before the arena was made, and
    every chunk above [a] hangs directly under [a]. *)
Definition arena_ok (m0 : gmap loc chunk) (a : loc) (m : gmap loc chunk) (b : loc) : Prop :=
  (∀ l, l < a → m !! l = m0 !! l) ∧
  (∀ l, a ≤ l → m0 !! l = None) ∧
  m !! a = Some (Chunk None PCtx) ∧
  (∀ l c, a < l → m !! l = Some c → parent c = Some a) ∧
  keys_ok m b ∧ a < b.

(** Log, timers and trace of two worlds agree. *)
Definition same_io (w w' : world) : Prop :=
  log w' = log w ∧ trace w' = trace w ∧ timers w' = timers w ∧ next_ev w' = next_ev w.

(** ** Outcomes of the public functions *)

(** [w] with one more diagnostic and nothing else changed. *)
Definition logged (d : diag) (w : world) : world :=
  World (mem w) (brk w) (d :: log w) (trace w) (timers w) (next_ev w).

(** A void function returned after logging one diagnostic. *)
Definition only_logs (o : outcome unit) (w : world) : Prop :=
  ∃ d, o = Done tt (logged d w).


(** [w] after a protocol call [e] inside a per-call arena: the store is
    back to what it was, the trace has the one call more. *)
Definition after_call (e : event) (b : loc) (w : world) : world :=
  World (mem w) b (log w) (e :: trace w) (timers w) (next_ev w).

(** An operation that went through: it answers what the protocol layer
    answered to the call [e], and leaves the world as it was but for the
    call in the trace and the locations used up. *)
Definition went_through (op_result : list event → OperationReturnCode) (e : event)
    (w : world) (rc : OperationReturnCode) (w' : world) : Prop :=
  ∃ b, brk w < b ∧ rc = op_result (e :: trace w) ∧ w' = after_call e b w.

(** ** Ticks *)

(** The call that a tick of the event [e] makes from the world [w]:
    [csm_next_state] on the state machine of the connection that the
    private pointer of the registered default tick [e] leads to. *)
Definition tick_call (w : world) (e : N) (call : event) : Prop :=
  ∃ t c pc cd,
    timers w !! e = Some t ∧ ev_callback t = cb_connection_update ∧
    ev_private t = Some c ∧ mem w !! c = Some (Chunk pc (PConn cd)) ∧
    call = ev_csm_next_state (connection_ctx.state_machine cd).

(** ** Settings records *)

(** The [host] text that a hostname and a port make. *)
Definition host_text (hostname : string) (port : Z) : string :=
  if (0 <? port)%Z then hostname +:+ ":" +:+ fmt_d port else hostname.

(** The text of the [host] field of the settings record at [r]. *)
Definition settings_host (w : world) (r : ptr) : option string :=
  match r with
  | Some l =>
      match mem w !! l with
      | Some (Chunk _ (PConfig c)) => str_at (mem w) (ld_config.host c)
      | _ => None
      end
  | None => None
  end.

(** A talloc context argument: [NULL], or a live chunk. *)
Definition ctx_ok (m : gmap loc chunk) (ctx : ptr) : Prop :=
  match ctx with
  | None => True
  | Some p => is_Some (m !! p)
  end.

(** ** A session at rest, for the examples

    A handle at 1 whose connection context is at 3, and a caller's
    attribute list at 8: [objectClass: person] and [sn: One, Two]. *)
Definition example_handle : LDHandle :=
  ld_handle.mk (Some 2) None None (Some 3) None.

Definition example_world : world :=
  World (list_to_map
           [ (1, Chunk None (PHandle example_handle));
             (2, Chunk None PCtx);
             (3, Chunk (Some 2) (PConn connection_ctx.zero));
             (4, Chunk None (PStrs [CLit "person"; CNull]));
             (5, Chunk None (PAttr (ldap_attribute.mk (CLit "objectClass") (Some 4))));
             (6, Chunk None (PStrs [CLit "One"; CLit "Two"; CNull]));
             (7, Chunk None (PAttr (ldap_attribute.mk (CLit "sn") (Some 6))));
             (8, Chunk None (PPtrs [Some 5; Some 7; None])) ])
        9 [] [] ∅ 1.

Definition example_attrs : list attr_view :=
  [ AttrView (Some "objectClass"%string) ["person"%string];
    AttrView (Some "sn"%string) ["One"%string; "Two"%string] ].

(** Protocol operations that always succeed, and a [check_string] that
    asks nothing more of a string than to be there. *)
Definition always_ok : list event → OperationReturnCode := λ _, RETURN_CODE_SUCCESS.
Definition any_string : string → bool := λ _, true.

(** ** Sessions *)

(** The strings of [m0] read the same in [m]. *)
Definition str_pres (m0 m : gmap loc chunk) : Prop :=
  ∀ p s, str_at m0 p = Some s → str_at m p = Some s.

(** The text behind an optional string: none for [NULL]. *)
Definition text (m : gmap loc chunk) (p : charp) : option string :=
  match p with
  | CNull => None
  | _ => str_at m p
  end.

(** The chunk that [p] points to, when it hangs under the arena [a]. *)
Definition owned (m : gmap loc chunk) (a : loc) (p : ptr) : option payload :=
  match p with
  | Some l =>
      match m !! l with
      | Some (Chunk (Some a') v) => if a' =? a then Some v else None
      | _ => None
      end
  | None => None
  end.

(** What can be reached from a session handle: the handle and its arena,
    the copy of the settings record, the configuration context with its
    SASL options if it has any, the connection context, and the bind
    parameters with their password. *)
Record session_view := SessionView {
  sv_handle : loc;
  sv_arena : loc;
  sv_global_config : ld_config_t;
  sv_config : ldap_connection_config_t;
  sv_sasl : option ldap_sasl_options_t;
  sv_conn : ldap_connection_ctx_t;
  sv_params : ldap_sasl_params_t;
  sv_passwd : berval.berval }.

Definition read_sasl (m : gmap loc chunk) (a : loc) (p : ptr)
    : option (option ldap_sasl_options_t) :=
  match p with
  | None => Some None
  | Some _ =>
      match owned m a p with
      | Some (PSaslOptions o) => Some (Some o)
      | _ => None
      end
  end.

Definition read_params (m : gmap loc chunk) (a : loc) (p : ptr)
    : option (ldap_sasl_params_t * berval.berval) :=
  match owned m a p with
  | Some (PSaslParams pd) =>
      match owned m a (sasl_params.passwd pd) with
      | Some (PBerval bv) => Some (pd, bv)
      | _ => None
      end
  | _ => None
  end.

(** The session behind the caller's [LDHandle*] variable at [out], every
    part of it a chunk of the session's arena. *)
Definition read_session (m : gmap loc chunk) (out : loc) : option session_view :=
  match m !! out with
  | Some (Chunk _ (PPtrs (Some h :: _))) =>
      match m !! h with
      | Some (Chunk _ (PHandle hd)) =>
          match ld_handle.talloc_ctx hd with
          | Some a =>
              match owned m a (ld_handle.global_config hd) with
              | Some (PConfig gc) =>
                  match owned m a (ld_handle.config_ctx hd) with
                  | Some (PCfg cc) =>
                      match owned m a (ld_handle.connection_ctx hd) with
                      | Some (PConn conn) =>
                          match read_sasl m a (config_ctx.sasl_options cc),
                                read_params m a (connection_ctx.ldap_params conn) with
                          | Some so, Some (pd, bv) =>
                              Some (SessionView h a gc cc so conn pd bv)
                          | _, _ => None
                          end
                      | _ => None
                      end
                  | _ => None
                  end
              | _ => None
              end
          | None => None
          end
      | _ => None
      end
  | _ => None
  end.

(** The server name that the session reads through its configuration
    context. *)
Definition session_server (m : gmap loc chunk) (out : loc) : option string :=
  match read_session m out with
  | Some v => str_at m (config_ctx.server (sv_config v))
  | None => None
  end.

(** A caller about to open a session: its [LDHandle*] variable at 1, its
    settings record at 2, and the host string of the record at 3. *)
Definition example_settings : ld_config_t :=
  ld_config.mk (CAt 3) 3 (CLit "dc=example,dc=com") (CLit "admin") (CLit "s3cret")
               false true true false 0 (CLit "ca.pem") (CLit "cert.pem") (CLit "key.pem").

Definition example_caller : world :=
  World (list_to_map
           [ (1, Chunk None (PPtrs [None]));
             (2, Chunk None (PConfig example_settings));
             (3, Chunk None (PStr "dc1.example:636")) ])
        4 [] [] ∅ 1.

(** A protocol layer that configures every connection, with its library
    handle at 100, its event base at 101 and the state machine at [INIT]. *)
Definition configure_ok : list event → configured :=
  λ _, Configured RETURN_CODE_SUCCESS (Some 100) (Some 101) (Some LDAP_CONNECTION_STATE_INIT).

(** The parts of the settings [cfg] that the session holds as they are:
    the copy of the record, and the server name, the protocol version and
    the kind of bind in the configuration context. *)
Definition settings_kept (cfg : ld_config_t) (v : session_view) : Prop :=
  sv_global_config v = cfg ∧
  config_ctx.server (sv_config v) = ld_config.host cfg ∧
  config_ctx.protocol_verion (sv_config v) = ld_config.protocol_version cfg ∧
  config_ctx.bind_type (sv_config v)
  = Some (if ld_config.simple_bind cfg then BIND_TYPE_SIMPLE else BIND_TYPE_INTERACTIVE).

(** The SASL options of the session, for settings read in [m0]. *)
Definition sasl_built (m0 m : gmap loc chunk) (cfg : ld_config_t) (v : session_view) : Prop :=
  config_ctx.use_sasl (sv_config v) = ld_config.use_sasl cfg ∧
  match sv_sasl v with
  | Some o =>
      ld_config.use_sasl cfg = true ∧
      sasl_options.mechanism o
      = (if ld_config.simple_bind cfg then LDAP_SASL_SIMPLE else CLit "GSSAPI") ∧
      str_copy m (sv_arena v) (sasl_options.passwd o) (text m0 (ld_config.password cfg)) ∧
      sasl_options.sasl_nocanon o = true ∧
      sasl_options.sasl_secprops o = CLit "minssf=56" ∧
      sasl_options.sasl_flags o = LDAP_SASL_QUIET
  | None => ld_config.use_sasl cfg = false
  end.

(** The TLS paths of the session, and its [chase_referrals]. *)
Definition tls_built (m0 m : gmap loc chunk) (cfg : ld_config_t) (v : session_view) : Prop :=
  config_ctx.use_start_tls (sv_config v) = ld_config.use_tls cfg ∧
  config_ctx.chase_referrals (sv_config v) = false ∧
  if ld_config.use_tls cfg
  then
    str_copy m (sv_arena v) (config_ctx.tls_ca_cert_file (sv_config v))
             (text m0 (ld_config.cacertfile cfg)) ∧
    str_copy m (sv_arena v) (config_ctx.tls_cert_file (sv_config v))
             (text m0 (ld_config.certfile cfg)) ∧
    str_copy m (sv_arena v) (config_ctx.tls_key_file (sv_config v))
             (text m0 (ld_config.keyfile cfg))
  else
    config_ctx.tls_ca_cert_file (sv_config v) = CNull ∧
    config_ctx.tls_cert_file (sv_config v) = CNull ∧
    config_ctx.tls_key_file (sv_config v) = CNull.

(** The bind parameters of the session. *)
Definition bind_built (m0 m : gmap loc chunk) (cfg : ld_config_t) (v : session_view) : Prop :=
  (∃ u b,
     render m0 (ld_config.username cfg) = Some u ∧
     render m0 (ld_config.base_dn cfg) = Some b ∧
     str_copy m (sv_arena v) (sasl_params.dn (sv_params v))
              (Some ("cn=" +:+ u +:+ "," +:+ b))) ∧
  sasl_params.clientctrls (sv_params v) = None ∧
  sasl_params.serverctrls (sv_params v) = None ∧
  match text m0 (ld_config.password cfg) with
  | None => sv_passwd v = berval.mk 0 CNull
  | Some pw =>
      berval.bv_len (sv_passwd v) = Z.of_nat (String.length pw) ∧
      str_copy m (sv_arena v) (berval.bv_val (sv_passwd v)) (Some pw)
  end.

(** A configuration file with the two required settings and no port. *)
Definition example_file : gmap string setting :=
  list_to_map [ ("host"%string, SettingString "dc2.example");
                ("base_dn"%string, SettingString "dc=example,dc=com") ].

(** The session that [ld_init] opens for the example caller, and the same
    session once its default tick is installed. *)
Definition example_session : world :=
  match ld_init configure_ok (Some 1) (Some 2) example_caller with
  | Done _ w => w
  | Undef => example_caller
  end.

Definition example_ticking : world :=
  match ld_install_default_handlers (Some 4) example_session with
  | Done _ w => w
  | Undef => example_session
  end.

(** A state machine that goes from [INIT] to [BIND] and from anywhere else
    to [RUN]. *)
Definition example_step : list event → csm_state → csm_state :=
  λ _ s, match s with
         | LDAP_CONNECTION_STATE_INIT => LDAP_CONNECTION_STATE_BIND
         | _ => LDAP_CONNECTION_STATE_RUN
         end.

(** The ticking session after its first tick under [example_step]: the
    state machine has left [INIT] and reached [BIND]. *)
Definition example_bound : world :=
  match connection_update example_step None 1 example_ticking with
  | Done _ w => w
  | Undef => example_ticking
  end.

(** ** Settings records, read back *)

(** A settings record as its reader sees it: the texts behind its string
    fields, none for a null or dangling one, and its numbers and flags. *)
Record settings_view := SettingsView {
  st_host : option string;
  st_protocol_version : Z;
  st_base_dn : option string;
  st_username : option string;
  st_password : option string;
  st_simple_bind : bool;
  st_use_tls : bool;
  st_use_sasl : bool;
  st_use_anon : bool;
  st_timeout : Z;
  st_cacertfile : option string;
  st_certfile : option string;
  st_keyfile : option string }.

Definition read_settings (m : gmap loc chunk) (r : ptr) : option settings_view :=
  match r with
  | Some l =>
      match m !! l with
      | Some (Chunk _ (PConfig c)) =>
          Some (SettingsView
                  (str_at m (ld_config.host c)) (ld_config.protocol_version c)
                  (str_at m (ld_config.base_dn c)) (str_at m (ld_config.username c))
                  (str_at m (ld_config.password c)) (ld_config.simple_bind c)
                  (ld_config.use_tls c) (ld_config.use_sasl c) (ld_config.use_anon c)
                  (ld_config.timeout c) (str_at m (ld_config.cacertfile c))
                  (str_at m (ld_config.certfile c)) (str_at m (ld_config.keyfile c)))
      | _ => None
      end
  | None => None
  end.

(** The store [m] is [m0] and, besides, chunks that hang under [ctx]. *)
Definition grown_under (ctx : ptr) (m0 m : gmap loc chunk) : Prop :=
  m0 ⊆ m ∧ ∀ l c, m !! l = Some c → m0 !! l = None → parent c = ctx.

(** * Proofs *)

(** ** Rules of [wp] *)

Lemma wp_done {A} (m : M A) Q w :
  wp m Q w ↔ ∃ a w', m w = Done a w' ∧ Q a w'.
Proof.
  unfold wp. destruct (m w) as [|a w']; split.
  - done.
  - by intros (? & ? & ? & ?).
  - eauto.
  - by intros (? & ? & [= -> ->] & ?).
Qed.

Lemma wp_bind {A B} (m : M A) (k : A → M B) Q w :
  wp m (λ a w', wp (k a) Q w') w → wp (bind m k) Q w.
Proof. unfold wp, bind. by destruct (m w). Qed.

(** Undefined behaviour after a defined start. *)
Lemma undef_after {A B} (m : M A) (k : A → M B) w :
  wp m (λ a w', k a w' = Undef) w → bind m k w = Undef.
Proof. unfold wp, bind. by destruct (m w). Qed.

Lemma wp_ret {A} (a : A) (Q : A → world → Prop) w : Q a w → wp (ret a) Q w.
Proof. done. Qed.

Lemma wp_mono {A} (m : M A) (Q Q' : A → world → Prop) w :
  wp m Q w → (∀ a w', Q a w' → Q' a w') → wp m Q' w.
Proof. unfold wp. destruct (m w); [done | eauto]. Qed.

Lemma wp_get_world (Q : world → world → Prop) w : Q w w → wp get_world Q w.
Proof. done. Qed.

Lemma wp_emit e (Q : unit → world → Prop) w :
  Q tt (World (mem w) (brk w) (log w) (e :: trace w) (timers w) (next_ev w)) →
  wp (emit e) Q w.
Proof. done. Qed.

Lemma wp_say d (Q : unit → world → Prop) w :
  Q tt (World (mem w) (brk w) (d :: log w) (trace w) (timers w) (next_ev w)) →
  wp (say d) Q w.
Proof. done. Qed.

Lemma wp_fresh_chunk par v (Q : loc → world → Prop) w :
  Q (brk w) (World (<[brk w := Chunk par v]> (mem w)) (brk w + 1)
                   (log w) (trace w) (timers w) (next_ev w)) →
  wp (fresh_chunk par v) Q w.
Proof. done. Qed.

Lemma wp_talloc ctx v (Q : loc → world → Prop) w :
  ctx_ok (mem w) ctx →
  Q (brk w) (World (<[brk w := Chunk ctx v]> (mem w)) (brk w + 1)
                   (log w) (trace w) (timers w) (next_ev w)) →
  wp (talloc ctx v) Q w.
Proof. destruct ctx as [p|]; [|done]. unfold wp, talloc. by intros [c ->]. Qed.

Lemma ctx_ok_weaken m0 m ctx : ctx_ok m0 ctx → m0 ⊆ m → ctx_ok m ctx.
Proof. destruct ctx; [apply lookup_weaken_is_Some | done]. Qed.

Lemma wp_load l (Q : payload → world → Prop) w c :
  mem w !! l = Some c → Q (content c) w → wp (load l) Q w.
Proof. unfold wp, load. by intros ->. Qed.

Lemma wp_store l v (Q : unit → world → Prop) w c :
  mem w !! l = Some c →
  Q tt (World (<[l := Chunk (parent c) v]> (mem w)) (brk w)
              (log w) (trace w) (timers w) (next_ev w)) →
  wp (store l v) Q w.
Proof. unfold wp, store. by intros ->. Qed.

Lemma wp_talloc_free p (Q : Z → world → Prop) w c :
  mem w !! p = Some c →
  Q 0%Z (World (filter (λ kv, under (mem w) p (size (mem w)) kv.1 = false) (mem w))
               (brk w) (log w) (trace w) (timers w) (next_ev w)) →
  wp (talloc_free p) Q w.
Proof. unfold wp, talloc_free. by intros ->. Qed.

(** ** Well-formed stores *)

Lemma heap_okb_keys w : heap_okb w = true → keys_ok (mem w) (brk w).
Proof.
  unfold heap_okb. rewrite forallb_forall. intros H l c Hl.
  apply elem_of_map_to_list, list_elem_of_In, H in Hl.
  unfold chunk_okb in Hl. simpl in Hl. apply andb_prop in Hl as [Hl _].
  by apply N.ltb_lt.
Qed.

Lemma heap_okb_parents w : heap_okb w = true → parents_ok (mem w) (brk w).
Proof.
  unfold heap_okb. rewrite forallb_forall. intros H l c r Hl Hr.
  apply elem_of_map_to_list, list_elem_of_In, H in Hl.
  unfold chunk_okb in Hl. simpl in Hl. apply andb_prop in Hl as [_ Hl].
  rewrite Hr in Hl. by apply N.ltb_lt.
Qed.

Lemma fresh_none m b l : keys_ok m b → b ≤ l → m !! l = None.
Proof.
  intros Hok Hl. destruct (m !! l) eqn:E; [|done].
  apply Hok in E. lia.
Qed.

Lemma keys_ok_insert m b l c b' :
  keys_ok m b → l < b' → b ≤ b' → keys_ok (<[l := c]> m) b'.
Proof.
  intros Hok Hl Hb k d. rewrite lookup_insert. case_decide.
  - intros _. lia.
  - intros Hk. apply Hok in Hk. lia.
Qed.

(** ** Reading strings *)

Lemma str_at_insert m l c p s :
  str_at m p = Some s → ¬ is_str (m !! l) → str_at (<[l := c]> m) p = Some s.
Proof.
  destruct p as [|t|l']; simpl; try done.
  intros H Hl. destruct (decide (l = l')) as [->|Hne].
  - destruct (m !! l') as [[par []]|]; simpl in *; done.
  - by rewrite lookup_insert_ne.
Qed.

Lemma render_insert m l c p s :
  render m p = Some s → ¬ is_str (m !! l) → render (<[l := c]> m) p = Some s.
Proof.
  destruct p as [|t|l'];
    [done | apply (str_at_insert m l c (CLit t)) | apply (str_at_insert m l c (CAt l'))].
Qed.

Lemma str_at_weaken m m' p s : str_at m p = Some s → m ⊆ m' → str_at m' p = Some s.
Proof.
  destruct p as [|t|l]; simpl; try done.
  intros H Hsub. destruct (m !! l) as [[par []]|] eqn:E; try done.
  by rewrite (lookup_weaken _ _ _ _ E Hsub).
Qed.

Lemma str_at_not_null m p s : str_at m p = Some s → charp_is_null p = false.
Proof. by destruct p. Qed.

Lemma wp_load_str p (Q : string → world → Prop) w s :
  str_at (mem w) p = Some s → Q s w → wp (load_str p) Q w.
Proof.
  unfold wp. destruct p as [|t|l]; simpl; try done.
  - by intros [= ->].
  - unfold bind, load. destruct (mem w !! l) as [[par []]|]; try done. by intros [= ->].
Qed.

Lemma wp_strlen p (Q : nat → world → Prop) w s :
  str_at (mem w) p = Some s → Q (String.length s) w → wp (strlen p) Q w.
Proof. intros H HQ. apply wp_bind. by eapply wp_load_str. Qed.

Lemma wp_fmt_s p (Q : string → world → Prop) w s :
  render (mem w) p = Some s → Q s w → wp (fmt_s p) Q w.
Proof.
  destruct p as [|t|l]; simpl.
  - by intros [= ->].
  - apply (wp_load_str (CLit t)).
  - apply (wp_load_str (CAt l)).
Qed.

Lemma wp_talloc_strdup ctx p (Q : charp → world → Prop) w s :
  str_at (mem w) p = Some s →
  ctx_ok (mem w) ctx →
  Q (CAt (brk w)) (World (<[brk w := Chunk ctx (PStr s)]> (mem w)) (brk w + 1)
                         (log w) (trace w) (timers w) (next_ev w)) →
  wp (talloc_strdup ctx p) Q w.
Proof.
  intros Hs Hc HQ.
  assert (wp (do s <- load_str p; do l <- talloc ctx (PStr s); ret (CAt l)) Q w).
  { apply wp_bind. eapply wp_load_str; [done|]. apply wp_bind. by eapply wp_talloc. }
  by destruct p.
Qed.

Lemma substring_all s : String.substring 0 (String.length s) s = s.
Proof. induction s as [|a s IH]; simpl; [done | by rewrite IH]. Qed.

Lemma wp_talloc_strndup ctx p n (Q : charp → world → Prop) w s :
  str_at (mem w) p = Some s →
  ctx_ok (mem w) ctx →
  Q (CAt (brk w)) (World (<[brk w := Chunk ctx (PStr (String.substring 0 n s))]> (mem w))
                         (brk w + 1) (log w) (trace w) (timers w) (next_ev w)) →
  wp (talloc_strndup ctx p n) Q w.
Proof.
  intros Hs Hc HQ.
  assert (wp (do s <- load_str p;
              do l <- talloc ctx (PStr (String.substring 0 n s)); ret (CAt l)) Q w).
  { apply wp_bind. eapply wp_load_str; [done|]. apply wp_bind. by eapply wp_talloc. }
  by destruct p.
Qed.

Lemma render_of_str m p s : str_at m p = Some s → render m p = Some s.
Proof. by destruct p. Qed.

Lemma render_weaken m m' p s : render m p = Some s → m ⊆ m' → render m' p = Some s.
Proof. destruct p; [done | apply str_at_weaken..]. Qed.

Lemma wp_strndup_or_null ctx p (Q : charp → world → Prop) w s :
  str_at (mem w) p = Some s →
  ctx_ok (mem w) ctx →
  Q (CAt (brk w)) (World (<[brk w := Chunk ctx (PStr s)]> (mem w)) (brk w + 1)
                         (log w) (trace w) (timers w) (next_ev w)) →
  wp (strndup_or_null ctx p) Q w.
Proof.
  intros Hs Hc HQ. unfold strndup_or_null. rewrite (str_at_not_null _ _ _ Hs).
  apply wp_bind. eapply wp_strlen; [done|].
  eapply wp_talloc_strndup; [done..|]. by rewrite substring_all.
Qed.

(** [strndup_or_empty] always makes a chunk: a copy of the string, or the
    empty string for [NULL]. *)
Lemma wp_strndup_or_empty ctx p m0 (Q : charp → world → Prop) w :
  null_or_readable m0 p →
  m0 ⊆ mem w →
  ctx_ok (mem w) ctx →
  Q (CAt (brk w))
    (World (<[brk w := Chunk ctx (PStr (default ""%string (str_at m0 p)))]> (mem w))
           (brk w + 1) (log w) (trace w) (timers w) (next_ev w)) →
  wp (strndup_or_empty ctx p) Q w.
Proof.
  intros Hp Hsub Hc HQ. unfold strndup_or_empty.
  destruct (charp_is_null p) eqn:Hn.
  - destruct p; try done. simpl in HQ.
    apply wp_bind. eapply (wp_strlen (CLit "")); [done|].
    by eapply (wp_talloc_strndup ctx (CLit "")).
  - assert (∃ s, str_at m0 p = Some s) as [s Hs] by (destruct p; done).
    rewrite Hs in HQ. simpl in HQ.
    pose proof (str_at_weaken _ _ _ _ Hs Hsub) as Hs'.
    apply wp_bind. eapply wp_strlen; [done|].
    eapply wp_talloc_strndup; [done..|]. by rewrite substring_all.
Qed.

Lemma wp_strndup_or_empty_lit ctx s (Q : charp → world → Prop) w :
  ctx_ok (mem w) ctx →
  Q (CAt (brk w)) (World (<[brk w := Chunk ctx (PStr s)]> (mem w)) (brk w + 1)
                         (log w) (trace w) (timers w) (next_ev w)) →
  wp (strndup_or_empty ctx (CLit s)) Q w.
Proof. intros Hc HQ. apply (wp_strndup_or_empty ctx (CLit s) (mem w)); by try eexists. Qed.

Lemma null_or_readable_cases m p :
  null_or_readable m p → p = CNull ∨ ∃ s, str_at m p = Some s.
Proof. destruct p; simpl; [by left | intros [s Hs]; right; eauto..]. Qed.

(** The three macros on an optional key: one more line in the log, and the
    looked-up value or the initial one. *)
Lemma wp_get_config_optional_string cfg name out (Q : charp → world → Prop) w :
  (∀ d, Q (from_option CLit out (config_lookup_string cfg name)) (logged d w)) →
  wp (get_config_optional_string cfg name out) Q w.
Proof.
  intros HQ. unfold get_config_optional_string.
  destruct (config_lookup_string cfg name); apply wp_bind, wp_say, wp_ret, HQ.
Qed.

Lemma wp_get_config_optional_int cfg name out (Q : Z → world → Prop) w :
  (∀ d, Q (default out (config_lookup_int cfg name)) (logged d w)) →
  wp (get_config_optional_int cfg name out) Q w.
Proof.
  intros HQ. unfold get_config_optional_int.
  destruct (config_lookup_int cfg name); apply wp_bind, wp_say, wp_ret, HQ.
Qed.

Lemma wp_get_config_optional_bool cfg name out (Q : bool → world → Prop) w :
  (∀ d, Q (default out (config_lookup_bool cfg name)) (logged d w)) →
  wp (get_config_optional_bool cfg name out) Q w.
Proof.
  intros HQ. unfold get_config_optional_bool.
  destruct (config_lookup_bool cfg name); apply wp_bind, wp_say, wp_ret, HQ.
Qed.

(** [check_string] lets a readable string through when [string_ok]
    accepts it. *)
Lemma wp_check_string string_ok p fn k (Q : OperationReturnCode → world → Prop) w s :
  str_at (mem w) p = Some s →
  string_ok s = true →
  wp (k p) Q w →
  wp (check_string string_ok p fn k) Q w.
Proof.
  intros Hs Hok Hk.
  assert (wp (do s <- load_str p;
              if string_ok s then k p
              else do_ say (check_string_diag fn); ret RETURN_CODE_FAILURE) Q w).
  { apply wp_bind. eapply wp_load_str; [done|]. by rewrite Hok. }
  by destruct p.
Qed.

(** ** Symbolic execution *)

Lemma sub_insert_fresh (m0 m : gmap loc chunk) b l c :
  m0 ⊆ m → keys_ok m0 b → b ≤ l → m0 ⊆ <[l := c]> m.
Proof.
  intros Hsub Hok Hl. apply insert_subseteq_r; [|done].
  by apply (fresh_none m0 b).
Qed.

Ltac heap_lookup :=
  repeat first
    [ rewrite lookup_insert_eq
    | rewrite lookup_insert_ne by lia
    | match goal with
      | Hk : keys_ok ?m ?b |- context [?m !! ?l] => rewrite (fresh_none m b l Hk) by lia
      end
    | match goal with H : ?m !! ?p = _ |- context [?m !! ?p] => rewrite H end ].

(** Projections of worlds and chunks, fields and setters of the structs. *)
Ltac world_simpl :=
  cbn [mem brk log trace timers next_ev content parent charp_is_null ptr_is_null logged
       ld_config.host ld_config.protocol_version ld_config.base_dn ld_config.username
       ld_config.password ld_config.simple_bind ld_config.use_tls ld_config.use_sasl
       ld_config.use_anon ld_config.timeout ld_config.cacertfile ld_config.certfile
       ld_config.keyfile ld_config.zero ld_config.set_host
       ld_config.set_protocol_version ld_config.set_base_dn ld_config.set_username
       ld_config.set_password ld_config.set_flags ld_config.set_timeout
       ld_config.set_cacertfile ld_config.set_certfile ld_config.set_keyfile
       ld_handle.talloc_ctx ld_handle.global_config ld_handle.global_ctx
       ld_handle.connection_ctx ld_handle.config_ctx ld_handle.zero
       ld_handle.set_talloc_ctx ld_handle.set_global_config ld_handle.set_global_ctx
       ld_handle.set_connection_ctx ld_handle.set_config_ctx global_ctx.talloc_ctx
       global_ctx.zero state_machine.state connection_ctx.ldap connection_ctx.base
       connection_ctx.state_machine connection_ctx.ldap_params
       connection_ctx.on_error_operation connection_ctx.handle connection_ctx.zero
       connection_ctx.set_ldap connection_ctx.set_base connection_ctx.set_state_machine
       connection_ctx.set_ldap_params connection_ctx.set_on_error_operation
       connection_ctx.set_handle config_ctx.server config_ctx.protocol_verion
       config_ctx.use_sasl config_ctx.use_start_tls config_ctx.chase_referrals
       config_ctx.bind_type config_ctx.sasl_options config_ctx.tls_ca_cert_file
       config_ctx.tls_cert_file config_ctx.tls_key_file config_ctx.zero
       config_ctx.set_server config_ctx.set_protocol_verion config_ctx.set_use_sasl
       config_ctx.set_use_start_tls config_ctx.set_chase_referrals
       config_ctx.set_bind_type config_ctx.set_sasl_options
       config_ctx.set_tls_ca_cert_file config_ctx.set_tls_cert_file
       config_ctx.set_tls_key_file sasl_options.mechanism sasl_options.passwd
       sasl_options.sasl_nocanon sasl_options.sasl_secprops sasl_options.sasl_flags
       sasl_options.zero sasl_options.set_mechanism sasl_options.set_passwd
       sasl_options.set_sasl_nocanon sasl_options.set_sasl_secprops
       sasl_options.set_sasl_flags sasl_params.dn sasl_params.passwd
       sasl_params.clientctrls sasl_params.serverctrls sasl_params.zero
       sasl_params.set_dn sasl_params.set_passwd sasl_params.set_clientctrls
       sasl_params.set_serverctrls berval.bv_len berval.bv_val berval.zero
       berval.set_bv_len berval.set_bv_val ldap_mod.mod_op ldap_mod.mod_type
       ldap_mod.mod_values ldap_mod.zero ldap_mod.set_mod_op ldap_mod.set_mod_type
       ldap_mod.set_mod_values ldap_attribute.name ldap_attribute.values].

Tactic Notation "world_simpl" "in" hyp_list(Hs) :=
  cbn [mem brk log trace timers next_ev content parent charp_is_null ptr_is_null logged
       ld_config.host ld_config.protocol_version ld_config.base_dn ld_config.username
       ld_config.password ld_config.simple_bind ld_config.use_tls ld_config.use_sasl
       ld_config.use_anon ld_config.timeout ld_config.cacertfile ld_config.certfile
       ld_config.keyfile ld_config.zero ld_config.set_host
       ld_config.set_protocol_version ld_config.set_base_dn ld_config.set_username
       ld_config.set_password ld_config.set_flags ld_config.set_timeout
       ld_config.set_cacertfile ld_config.set_certfile ld_config.set_keyfile
       ld_handle.talloc_ctx ld_handle.global_config ld_handle.global_ctx
       ld_handle.connection_ctx ld_handle.config_ctx ld_handle.zero
       ld_handle.set_talloc_ctx ld_handle.set_global_config ld_handle.set_global_ctx
       ld_handle.set_connection_ctx ld_handle.set_config_ctx global_ctx.talloc_ctx
       global_ctx.zero state_machine.state connection_ctx.ldap connection_ctx.base
       connection_ctx.state_machine connection_ctx.ldap_params
       connection_ctx.on_error_operation connection_ctx.handle connection_ctx.zero
       connection_ctx.set_ldap connection_ctx.set_base connection_ctx.set_state_machine
       connection_ctx.set_ldap_params connection_ctx.set_on_error_operation
       connection_ctx.set_handle config_ctx.server config_ctx.protocol_verion
       config_ctx.use_sasl config_ctx.use_start_tls config_ctx.chase_referrals
       config_ctx.bind_type config_ctx.sasl_options config_ctx.tls_ca_cert_file
       config_ctx.tls_cert_file config_ctx.tls_key_file config_ctx.zero
       config_ctx.set_server config_ctx.set_protocol_verion config_ctx.set_use_sasl
       config_ctx.set_use_start_tls config_ctx.set_chase_referrals
       config_ctx.set_bind_type config_ctx.set_sasl_options
       config_ctx.set_tls_ca_cert_file config_ctx.set_tls_cert_file
       config_ctx.set_tls_key_file sasl_options.mechanism sasl_options.passwd
       sasl_options.sasl_nocanon sasl_options.sasl_secprops sasl_options.sasl_flags
       sasl_options.zero sasl_options.set_mechanism sasl_options.set_passwd
       sasl_options.set_sasl_nocanon sasl_options.set_sasl_secprops
       sasl_options.set_sasl_flags sasl_params.dn sasl_params.passwd
       sasl_params.clientctrls sasl_params.serverctrls sasl_params.zero
       sasl_params.set_dn sasl_params.set_passwd sasl_params.set_clientctrls
       sasl_params.set_serverctrls berval.bv_len berval.bv_val berval.zero
       berval.set_bv_len berval.set_bv_val ldap_mod.mod_op ldap_mod.mod_type
       ldap_mod.mod_values ldap_mod.zero ldap_mod.set_mod_op ldap_mod.set_mod_type
       ldap_mod.set_mod_values ldap_attribute.name ldap_attribute.values] in Hs.

(** A chunk of the base store is found through the inclusion that
    [track_sub] maintains; a chunk made since, by walking the updates. *)
Ltac solve_lookup :=
  world_simpl;
  first [ eapply lookup_weaken; [eassumption | eassumption]
        | heap_lookup; reflexivity ].

Ltac solve_ctx :=
  world_simpl;
  lazymatch goal with
  | |- ctx_ok _ None => exact I
  | |- _ =>
      first [ eapply ctx_ok_weaken; [eassumption | eassumption]
            | unfold ctx_ok; heap_lookup; eauto ]
  end.

Ltac solve_not_str := world_simpl; heap_lookup; simpl; tauto.

Ltac solve_str :=
  world_simpl;
  first
    [ eapply str_at_weaken; [eassumption | eassumption]
    | eapply render_weaken; [eassumption | eassumption]
    | apply render_of_str; eapply str_at_weaken; [eassumption | eassumption]
    | reflexivity
    | repeat first [ apply str_at_insert; [| solve_not_str]
                   | apply render_insert; [| solve_not_str] ];
      first [ eassumption | apply render_of_str; eassumption | reflexivity ] ].

(** After an update at a location the base store does not reach, the base
    store is still included. *)
Ltac track_sub :=
  world_simpl;
  try match goal with
      | Hsub : ?m0 ⊆ ?cur, Hok : keys_ok ?m0 ?b
        |- wp _ _ (World (<[?l := ?c]> ?cur) _ _ _ _ _) =>
          let H := fresh "Hsub" in
          assert (H : m0 ⊆ <[l := c]> cur)
            by (apply (sub_insert_fresh m0 cur b l c Hsub Hok); lia);
          clear Hsub
      end.

Ltac wp_head m :=
  lazymatch m with
  | ?f _ _ _ _ _ _ => f
  | ?f _ _ _ _ _ => f
  | ?f _ _ _ _ => f
  | ?f _ _ _ => f
  | ?f _ _ => f
  | ?f _ => f
  | ?f => f
  end.

Ltac wp_step :=
  world_simpl;
  lazymatch goal with
  | |- wp (bind _ _) _ _ => apply wp_bind
  | |- wp (ret _) _ _ => apply wp_ret
  | |- wp get_world _ _ => apply wp_get_world
  | |- wp (emit _) _ _ => apply wp_emit
  | |- wp (say _) _ _ => apply wp_say
  | |- wp (fresh_chunk _ _) _ _ => apply wp_fresh_chunk; track_sub
  | |- wp (talloc _ _) _ _ => eapply wp_talloc; [solve_ctx | track_sub]
  | |- wp (malloc _) _ _ => apply wp_fresh_chunk; track_sub
  | |- wp (load _) _ _ => eapply wp_load; [solve_lookup |]
  | |- wp (store _ _) _ _ => eapply wp_store; [solve_lookup | track_sub]
  | |- wp (talloc_free _) _ _ => eapply wp_talloc_free; [solve_lookup |]
  | |- wp (load_str (CLit _)) _ _ => eapply wp_load_str; [reflexivity |]
  | |- wp (load_str _) _ _ => eapply wp_load_str; [solve_str |]
  | |- wp (strlen _) _ _ => eapply wp_strlen; [solve_str |]
  | |- wp (fmt_s _) _ _ => eapply wp_fmt_s; [solve_str |]
  | |- wp (talloc_strdup _ CNull) _ _ => apply wp_ret
  | |- wp (talloc_strdup _ _) _ _ =>
      eapply wp_talloc_strdup; [solve_str | solve_ctx | track_sub]
  | |- wp (talloc_strndup _ CNull _) _ _ => apply wp_ret
  | |- wp (talloc_strndup _ _ _) _ _ =>
      eapply wp_talloc_strndup; [solve_str | solve_ctx | track_sub]
  | |- wp (get_config_optional_string _ _ _) _ _ =>
      apply wp_get_config_optional_string; intros ?
  | |- wp (get_config_optional_int _ _ _) _ _ =>
      apply wp_get_config_optional_int; intros ?
  | |- wp (get_config_optional_bool _ _ _) _ _ =>
      apply wp_get_config_optional_bool; intros ?
  | |- wp (strndup_or_null _ CNull) _ _ => apply wp_ret
  | |- wp (strndup_or_null _ _) _ _ =>
      eapply wp_strndup_or_null; [solve_str | solve_ctx | track_sub]
  | |- wp (strndup_or_empty _ (CLit _)) _ _ =>
      eapply wp_strndup_or_empty_lit; [solve_ctx | track_sub]
  | |- wp (strndup_or_empty _ _) _ _ =>
      eapply wp_strndup_or_empty; [eassumption | eassumption | solve_ctx | track_sub]
  | |- wp (check_string _ _ _ _) _ _ =>
      eapply wp_check_string; [solve_str | eassumption |]
  | |- wp (copy_values _ _ _ _) _ _ => fail "a loop"
  | |- wp (fill_loop _ _ _ _ _) _ _ => fail "a loop"
  | |- wp (fill_attributes _ _ _) _ _ => fail "a loop"
  | |- wp (match ?x with _ => _ end) _ _ => fail "stuck on a match"
  | |- wp undef _ _ => fail "undefined behaviour"
  | |- wp ?m _ _ => let f := wp_head m in unfold f; cbn beta iota
  end.

Ltac wp_run := repeat wp_step.

(** ** Long straight-line code

    For a function that updates the same few chunks many times, the store
    is kept with one update for each location, locations made since the
    start are written [b + k] with a literal [k], and the strings of the
    store at the start are followed through [str_pres]. *)

Lemma str_pres_refl m : str_pres m m.
Proof. by intros p s. Qed.

Lemma str_pres_fresh m0 m b l c :
  str_pres m0 m → keys_ok m0 b → b ≤ l → str_pres m0 (<[l := c]> m).
Proof.
  intros Hp Hk Hl p s Hs. pose proof (Hp _ _ Hs) as Hm.
  destruct p as [|t|l']; [done | done |]. simpl in *.
  destruct (m0 !! l') as [[par []]|] eqn:E; try done.
  apply Hk in E. rewrite lookup_insert_ne by lia. done.
Qed.

Lemma str_pres_nonstr m0 m l c :
  str_pres m0 m → ¬ is_str (m0 !! l) → str_pres m0 (<[l := c]> m).
Proof.
  intros Hp Hl p s Hs. pose proof (Hp _ _ Hs) as Hm.
  destruct p as [|t|l']; [done | done |]. simpl in *.
  destruct (decide (l = l')) as [->|Hne]; [|by rewrite lookup_insert_ne].
  destruct (m0 !! l') as [[par []]|]; simpl in *; done.
Qed.

Lemma render_pres m0 m p s : str_pres m0 m → render m0 p = Some s → render m p = Some s.
Proof. intros Hp. destruct p; [done | apply Hp..]. Qed.

Lemma wp_fresh_tracked m0 b par v (Q : loc → world → Prop) w b' :
  str_pres m0 (mem w) → keys_ok m0 b → b ≤ brk w → brk w + 1 = b' →
  (str_pres m0 (<[brk w := Chunk par v]> (mem w)) →
   Q (brk w) (World (<[brk w := Chunk par v]> (mem w)) b'
                    (log w) (trace w) (timers w) (next_ev w))) →
  wp (fresh_chunk par v) Q w.
Proof.
  intros Hp Hk Hb <- HQ. apply wp_fresh_chunk, HQ. by apply (str_pres_fresh _ _ b).
Qed.

Lemma wp_talloc_fresh ctx v (Q : loc → world → Prop) w :
  ctx_ok (mem w) ctx → wp (fresh_chunk ctx v) Q w → wp (talloc ctx v) Q w.
Proof. intros Hc HQ. by apply wp_talloc. Qed.

Lemma wp_talloc_strdup_fresh ctx p (Q : charp → world → Prop) w s :
  str_at (mem w) p = Some s → ctx_ok (mem w) ctx →
  wp (fresh_chunk ctx (PStr s)) (λ l, Q (CAt l)) w →
  wp (talloc_strdup ctx p) Q w.
Proof. intros Hs Hc HQ. by eapply wp_talloc_strdup. Qed.

Lemma wp_store_tracked m0 b l v (Q : unit → world → Prop) w c m' :
  str_pres m0 (mem w) → keys_ok m0 b →
  mem w !! l = Some c →
  b ≤ l ∨ ¬ is_str (m0 !! l) →
  <[l := Chunk (parent c) v]> (mem w) = m' →
  (str_pres m0 m' → Q tt (World m' (brk w) (log w) (trace w) (timers w) (next_ev w))) →
  wp (store l v) Q w.
Proof.
  intros Hp Hk Hl Hside <- HQ. eapply wp_store; [exact Hl|]. apply HQ.
  destruct Hside; [by apply (str_pres_fresh _ _ b) | by apply str_pres_nonstr].
Qed.

(** Locations apart. *)
Lemma ne_add_add (b j k : N) : j ≠ k → b + j ≠ b + k.
Proof. lia. Qed.
Lemma ne_base_add (b k : N) : k ≠ 0 → b ≠ b + k.
Proof. lia. Qed.
Lemma ne_add_base (b k : N) : k ≠ 0 → b + k ≠ b.
Proof. lia. Qed.
Lemma ne_below_add (l b k : N) : l < b → l ≠ b + k.
Proof. lia. Qed.
Lemma ne_add_below (l b k : N) : l < b → b + k ≠ l.
Proof. lia. Qed.
Lemma ne_below_base (l b : N) : l < b → l ≠ b.
Proof. lia. Qed.
Lemma ne_base_below (l b : N) : l < b → b ≠ l.
Proof. lia. Qed.
Lemma next_lit (b k k' : N) : k + 1 = k' → b + k + 1 = b + k'.
Proof. lia. Qed.

Ltac loc_ne :=
  first [ assumption
        | apply ne_add_add; discriminate
        | apply ne_base_add; discriminate
        | apply ne_add_base; discriminate
        | apply ne_below_add; assumption
        | apply ne_add_below; assumption
        | apply ne_below_base; assumption
        | apply ne_base_below; assumption
        | apply not_eq_sym; assumption
        | lia ].

Ltac loc_le :=
  first [ apply N.le_add_r | apply N.le_refl | lia ].

Ltac next_brk :=
  world_simpl;
  lazymatch goal with
  | |- ?b + ?k + 1 = _ =>
      let k' := eval vm_compute in (k + 1) in exact (next_lit b k k' eq_refl)
  | |- _ => reflexivity
  end.

(** Moving an update down to the one it replaces. *)
Lemma absorb_step (m m' : gmap loc chunk) l k c d :
  k ≠ l → <[l := c]> m = m' → <[l := c]> (<[k := d]> m) = <[k := d]> m'.
Proof. intros Hne <-. by apply insert_insert_ne. Qed.

Ltac absorb_eq :=
  lazymatch goal with
  | |- <[?l := _]> (<[?l := _]> _) = _ => apply insert_insert_eq
  | |- <[_ := _]> (<[_ := _]> _) = _ => apply absorb_step; [loc_ne | absorb_eq]
  | |- _ => reflexivity
  end.

Ltac heap_find :=
  world_simpl;
  repeat first [ rewrite lookup_insert_eq | rewrite lookup_insert_ne by loc_ne ];
  try match goal with H : ?m !! ?p = _ |- context [?m !! ?p] => rewrite H end.

Ltac find_lookup := heap_find; reflexivity.

Ltac find_ctx :=
  world_simpl;
  lazymatch goal with
  | |- ctx_ok _ None => exact I
  | |- _ => unfold ctx_ok; heap_find; eauto
  end.

Ltac find_str :=
  world_simpl;
  first
    [ reflexivity
    | match goal with Hp : str_pres _ _ |- str_at _ _ = _ => apply Hp; eassumption end
    | match goal with Hp : str_pres _ _ |- render _ _ = _ =>
        eapply render_pres; [exact Hp | first [eassumption | apply render_of_str; eassumption]]
      end ].

Ltac find_side :=
  world_simpl;
  first [ left; loc_le
        | right; match goal with H : ?m !! ?p = _ |- context [?m !! ?p] => rewrite H end;
          simpl; tauto ].

Ltac go_step :=
  world_simpl;
  lazymatch goal with
  | |- wp (bind _ _) _ _ => apply wp_bind
  | |- wp (ret _) _ _ => apply wp_ret
  | |- wp get_world _ _ => apply wp_get_world
  | |- wp (emit _) _ _ => apply wp_emit
  | |- wp (say _) _ _ => apply wp_say
  | |- wp (fresh_chunk _ _) _ _ =>
      match goal with
      | Hp : str_pres ?m0 _, Hk : keys_ok ?m0 ?b |- _ =>
          eapply (wp_fresh_tracked m0 b); [exact Hp | exact Hk | world_simpl; loc_le | next_brk |];
          clear Hp; intros Hp
      end
  | |- wp (talloc _ _) _ _ => eapply wp_talloc_fresh; [find_ctx |]
  | |- wp (load _) _ _ => eapply wp_load; [find_lookup |]
  | |- wp (store _ _) _ _ =>
      match goal with
      | Hp : str_pres ?m0 _, Hk : keys_ok ?m0 ?b |- _ =>
          eapply (wp_store_tracked m0 b);
            [exact Hp | exact Hk | find_lookup | find_side | world_simpl; absorb_eq |];
          clear Hp; intros Hp
      end
  | |- wp (load_str _) _ _ => eapply wp_load_str; [find_str |]
  | |- wp (strlen _) _ _ => eapply wp_strlen; [find_str |]
  | |- wp (fmt_s _) _ _ => eapply wp_fmt_s; [find_str |]
  | |- wp (talloc_strdup _ CNull) _ _ => apply wp_ret
  | |- wp (talloc_strdup _ _) _ _ => eapply wp_talloc_strdup_fresh; [find_str | find_ctx |]
  | |- wp (connection_configure _ _ _ _) _ _ => fail "the protocol layer"
  | |- wp (match ?x with _ => _ end) _ _ => fail "stuck on a match"
  | |- wp undef _ _ => fail "undefined behaviour"
  | |- wp ?m _ _ => let f := wp_head m in unfold f; cbn beta iota
  end.

Ltac go := repeat go_step.

(** ** Settings records *)

Lemma fmt_d_decimal z :
  ∃ d, NilZero.int_of_string (fmt_d z) = Some d ∧ Decimal.norm d = d ∧ Z.of_int d = z.
Proof.
  exists (Z.to_int z). split; [|split].
  - unfold fmt_d. apply NilZero.isi.
    + destruct z; simpl; try discriminate.
      intros H. injection H as H. exact (DecimalPos.Unsigned.to_uint_nonnil _ H).
    + destruct z; simpl; try discriminate.
      intros H. injection H as H. exact (DecimalPos.Unsigned.to_uint_nonnil _ H).
  - rewrite <- DecimalZ.to_of. by rewrite DecimalZ.of_to.
  - apply DecimalZ.of_to.
Qed.

Ltac split_optional H :=
  apply null_or_readable_cases in H as [-> | [? H]].

Lemma null_or_readable_lit o : ∀ m, null_or_readable m (from_option CLit CNull o).
Proof. intros m. destruct o; simpl; eauto. Qed.

Lemma ld_create_config_host w ctx host hostname port protocol_version
    base_dn username password simple_bind use_tls use_sasl use_anon timeout
    cacertfile certfile keyfile :
  heap_okb w = true →
  is_Some (mem w !! ctx) →
  str_at (mem w) host = Some hostname →
  is_Some (str_at (mem w) base_dn) →
  null_or_readable (mem w) username →
  null_or_readable (mem w) password →
  null_or_readable (mem w) cacertfile →
  null_or_readable (mem w) certfile →
  null_or_readable (mem w) keyfile →
  wp (ld_create_config (Some ctx) host port protocol_version base_dn username password
        simple_bind use_tls use_sasl use_anon timeout cacertfile certfile keyfile)
     (λ r w', is_Some r ∧ settings_host w' r = Some (host_text hostname port)) w.
Proof.
  intros Hok Hc Hh [bd Hbd] Hu Hp Hca Hce Hke.
  apply heap_okb_keys in Hok.
  assert (Hctx : ctx_ok (mem w) (Some ctx)) by done.
  assert (Hsub : mem w ⊆ mem w) by done.
  split_optional Hu; split_optional Hp;
    unfold ld_create_config, host_text; destruct (0 <? port)%Z.
  all: wp_run.
  all: (split; [done|]); unfold settings_host, str_at; world_simpl; heap_lookup;
    world_simpl; heap_lookup; done.
Qed.

Lemma ld_load_config_host config_read_file w ctx filename cfg hostname :
  heap_okb w = true →
  ctx_ok (mem w) ctx →
  config_read_file filename = Some cfg →
  config_lookup_string cfg "host" = Some hostname →
  is_Some (config_lookup_string cfg "base_dn") →
  wp (ld_load_config config_read_file ctx filename)
     (λ r w', is_Some r ∧
        settings_host w' r
        = Some (host_text hostname (default 0%Z (config_lookup_int cfg "port")))) w.
Proof.
  intros Hok Hctx Hfile Hhost [bd Hbd].
  apply heap_okb_keys in Hok.
  assert (Hsub : mem w ⊆ mem w) by done.
  pose proof (null_or_readable_lit (config_lookup_string cfg "ca_cert_file") (mem w)).
  pose proof (null_or_readable_lit (config_lookup_string cfg "cert_file") (mem w)).
  pose proof (null_or_readable_lit (config_lookup_string cfg "key_file") (mem w)).
  unfold ld_load_config, host_text. rewrite Hfile, Hhost, Hbd.
  wp_run. destruct (0 <? default 0 (config_lookup_int cfg "port"))%Z; wp_run.
  all: destruct (config_lookup_string cfg "username"); simpl from_option; wp_run.
  all: destruct (config_lookup_string cfg "password"); simpl from_option; wp_run.
  all: (split; [done|]); unfold settings_host, str_at; world_simpl; heap_lookup;
    world_simpl; heap_lookup; by rewrite ?substring_all.
Qed.

(** ** Views are stable under growth of the store *)

Lemma strs_until_null_weaken m m' cells strs :
  strs_until_null m cells = Some strs → m ⊆ m' → strs_until_null m' cells = Some strs.
Proof.
  intros H Hsub. revert strs H.
  induction cells as [|p rest IH]; intros strs H; [done|].
  destruct p as [|t|l]; [done|..]; simpl in H |- *.
  - destruct (strs_until_null m rest) as [r|]; [|done].
    by rewrite (IH r eq_refl).
  - destruct (m !! l) as [[par []]|] eqn:Hl; try done.
    destruct (strs_until_null m rest) as [r|]; [|done].
    by rewrite (lookup_weaken _ _ _ _ Hl Hsub), (IH r eq_refl).
Qed.

Lemma strs_at_weaken m m' p strs :
  strs_at m p = Some strs → m ⊆ m' → strs_at m' p = Some strs.
Proof.
  destruct p as [l|]; [|done]. simpl. intros H Hsub.
  destruct (m !! l) as [[par []]|] eqn:Hl; try done.
  rewrite (lookup_weaken _ _ _ _ Hl Hsub). by eapply strs_until_null_weaken.
Qed.

Lemma attr_at_weaken m m' l v : attr_at m l = Some v → m ⊆ m' → attr_at m' l = Some v.
Proof.
  unfold attr_at. intros H Hsub.
  destruct (m !! l) as [[par []]|] eqn:Hl; try done.
  rewrite (lookup_weaken _ _ _ _ Hl Hsub).
  destruct (strs_at m (ldap_attribute.values a)) as [vs|] eqn:Hv; [|done].
  rewrite (strs_at_weaken _ _ _ _ Hv Hsub).
  destruct (ldap_attribute.name a) as [|t|k] eqn:Hn; [done|done|].
  destruct (str_at m (CAt k)) as [s|] eqn:Hs; [|done].
  by rewrite (str_at_weaken _ _ _ _ Hs Hsub).
Qed.

Lemma attrs_until_null_weaken m m' cells L :
  attrs_until_null m cells = Some L → m ⊆ m' → attrs_until_null m' cells = Some L.
Proof.
  intros H Hsub. revert L H.
  induction cells as [|[l|] rest IH]; intros L H; [done| |done]; simpl in H |- *.
  destruct (attr_at m l) as [v|] eqn:Hv; [|done].
  destruct (attrs_until_null m rest) as [r|]; [|done].
  by rewrite (attr_at_weaken _ _ _ _ Hv Hsub), (IH r eq_refl).
Qed.

(** ** The per-call arena *)

Lemma arena_ok_sub m0 a m b : arena_ok m0 a m b → m0 ⊆ m.
Proof.
  intros (Hlow & Hhigh & _). apply map_subseteq_spec. intros i x Hi.
  destruct (decide (i < a)) as [Hlt|Hge].
  - by rewrite Hlow.
  - rewrite Hhigh in Hi; [done | lia].
Qed.

Lemma arena_ok_keys m0 a m b : arena_ok m0 a m b → keys_ok m b.
Proof. by intros (_ & _ & _ & _ & Hk & _). Qed.

Lemma arena_ok_live m0 a m b : arena_ok m0 a m b → ctx_ok m (Some a).
Proof. intros (_ & _ & Ha & _). simpl. by rewrite Ha. Qed.

Lemma arena_ok_lt m0 a m b : arena_ok m0 a m b → a < b.
Proof. by intros (_ & _ & _ & _ & _ & H). Qed.

Lemma arena_ok_new (m0 : gmap loc chunk) a :
  keys_ok m0 a → arena_ok m0 a (<[a := Chunk None PCtx]> m0) (a + 1).
Proof.
  intros Hk. repeat split.
  - intros l Hl. rewrite lookup_insert_ne; [done | lia].
  - intros l Hl. by apply (fresh_none m0 a).
  - by rewrite lookup_insert_eq.
  - intros l c Hl. rewrite lookup_insert_ne by lia. intros H. apply Hk in H. lia.
  - apply (keys_ok_insert m0 a); [done | lia..].
  - lia.
Qed.

Lemma arena_ok_insert m0 a m b l c b' :
  arena_ok m0 a m b → a < l → l < b' → b ≤ b' → parent c = Some a →
  arena_ok m0 a (<[l := c]> m) b'.
Proof.
  intros (Hlow & Hhigh & Ha & Hown & Hk & Hab) Hal Hlb Hbb Hc. repeat split.
  - intros k Hka. rewrite lookup_insert_ne by lia. by apply Hlow.
  - done.
  - by rewrite lookup_insert_ne by lia.
  - intros k d Hk'. rewrite lookup_insert. case_decide as E.
    + by intros [= <-].
    + by apply Hown.
  - by apply (keys_ok_insert m b).
  - lia.
Qed.

Lemma arena_ok_owned m0 a m b l c :
  arena_ok m0 a m b → a < l → m !! l = Some c → parent c = Some a.
Proof. intros (_ & _ & _ & Hown & _). apply Hown. Qed.

Lemma under_below m0 a m b n l :
  arena_ok m0 a m b → parents_ok m0 a → l < a → under m a n l = false.
Proof.
  intros Hok Hp. revert l. induction n as [|n IH]; intros l Hl; simpl.
  - rewrite orb_false_r. apply N.eqb_neq. lia.
  - replace (l =? a) with false by (symmetry; apply N.eqb_neq; lia). simpl.
    destruct Hok as (Hlow & _). rewrite Hlow by done.
    destruct (m0 !! l) as [[[r|] v]|] eqn:E; try done.
    apply IH. by apply (Hp l _ r E).
Qed.

(** Releasing the arena gives back the store from before it was made. *)
Lemma talloc_free_arena m0 a m b :
  arena_ok m0 a m b → parents_ok m0 a →
  filter (λ kv, under m a (size m) kv.1 = false) m = m0.
Proof.
  intros Hok Hp. apply map_eq. intros l.
  rewrite map_lookup_filter.
  destruct (decide (l < a)) as [Hlt|Hge].
  - pose proof Hok as (Hlow & _). rewrite Hlow by done.
    destruct (m0 !! l) as [c|]; [|done]. simpl.
    rewrite option_guard_True; [done|]. simpl.
    by apply (under_below m0 a m b).
  - destruct Hok as (Hlow & Hhigh & Ha & Hown & Hk & Hab).
    rewrite (Hhigh l) by lia.
    destruct (m !! l) as [c|] eqn:E; [|done]. simpl.
    rewrite option_guard_False; [done|]. simpl.
    assert (size m ≠ 0)%nat as Hsz.
    { intros Hz. apply map_size_empty_inv in Hz. by rewrite Hz in Ha. }
    destruct (size m) as [|n]; [done|]. simpl.
    destruct (decide (l = a)) as [->|Hne].
    + by rewrite N.eqb_refl.
    + rewrite E. assert (parent c = Some a) as Hpc by (apply (Hown l); [lia|done]).
      destruct c as [par v]. simpl in Hpc. subst par.
      destruct n; simpl; rewrite N.eqb_refl; by rewrite ?orb_true_r.
Qed.

(** ** [fill_attributes] *)

Lemma strs_until_null_cons m p rest strs :
  p ≠ CNull →
  strs_until_null m (p :: rest) = Some strs →
  ∃ s strs', str_at m p = Some s ∧ strs_until_null m rest = Some strs' ∧ strs = s :: strs'.
Proof.
  intros Hp H. destruct p as [|t|l]; [done|..]; simpl in H |- *.
  - destruct (strs_until_null m rest) as [r|]; [|done]. injection H as <-. eauto.
  - destruct (m !! l) as [[par []]|]; try done.
    destruct (strs_until_null m rest) as [r|]; [|done]. injection H as <-. eauto.
Qed.

Lemma cells_step {A} (cs : list A) i x (xs : list A) n :
  (i < length cs)%nat →
  take (S i) (<[i := x]> cs) ++ xs ++ drop (S i + n) (<[i := x]> cs)
  = take i cs ++ (x :: xs) ++ drop (i + S n) cs.
Proof.
  intros Hi.
  rewrite (take_S_r _ _ x) by (by apply list_lookup_insert_eq).
  rewrite take_insert_ge by lia. rewrite drop_insert_lt by lia.
  replace (i + S n)%nat with (S i + n)%nat by lia.
  by rewrite <- app_assoc.
Qed.

Lemma pres_except_refl x m : pres_except x m m.
Proof. by intros l c. Qed.

Lemma pres_except_trans x m1 m2 m3 :
  pres_except x m1 m2 → pres_except x m2 m3 → pres_except x m1 m3.
Proof. intros H1 H2 l c Hl Hc. apply H2; [done|]. by apply H1. Qed.

Lemma pres_except_insert x m m' l c :
  pres_except x m m' → l = x ∨ m !! l = None → pres_except x m (<[l := c]> m').
Proof.
  intros H Hl k d Hk Hd. rewrite lookup_insert_ne; [by apply H|].
  intros ->. destruct Hl as [->|Hn]; [done | congruence].
Qed.

Lemma same_io_refl w : same_io w w.
Proof. done. Qed.

Lemma copy_values_spec m0 a mv cells : ∀ strs i w cs,
  arena_ok m0 a (mem w) (brk w) →
  strs_until_null m0 cells = Some strs →
  a < mv →
  mem w !! mv = Some (Chunk (Some a) (PStrs cs)) →
  (i + length strs ≤ length cs)%nat →
  wp (copy_values cells mv (Some a) i)
     (λ _ w', ∃ ps,
        mem w' !! mv
        = Some (Chunk (Some a) (PStrs (take i cs ++ ps ++ drop (i + length strs) cs))) ∧
        Forall2 (λ p s, str_copy (mem w') a p (Some s)) ps strs ∧
        pres_except mv (mem w) (mem w') ∧
        arena_ok m0 a (mem w') (brk w') ∧
        same_io w w') w.
Proof.
  induction cells as [|p rest IH]; intros strs i w cs Hok Hs Hamv Hmv Hlen; [done|].
  assert (p = CNull ∨ p ≠ CNull) as [->|Hp] by (destruct p; first [by left | by right]).
  - injection Hs as <-. apply wp_ret. exists []. simpl.
    rewrite Nat.add_0_r, take_drop.
    split_and!; [done | constructor | apply pres_except_refl | done | done].
  - destruct (strs_until_null_cons _ _ _ _ Hp Hs) as (s & strs' & Hstr & Hrest & ->).
    simpl in Hlen.
    pose proof (arena_ok_sub _ _ _ _ Hok) as Hsub0.
    pose proof (arena_ok_keys _ _ _ _ Hok) as Hk.
    pose proof (arena_ok_live _ _ _ _ Hok) as Hlive.
    pose proof (arena_ok_lt _ _ _ _ Hok) as Hab.
    pose proof (str_at_weaken _ _ _ _ Hstr Hsub0) as Hstr'.
    assert (mv < brk w) as Hmvb by (by apply (Hk mv _ Hmv)).
    assert (Hsub : mem w ⊆ mem w) by done.
    assert (wp (do s <- talloc_strdup (Some a) p;
                do_ store_str_cell mv i s;
                copy_values rest mv (Some a) (S i))
              (λ _ w', ∃ ps,
                 mem w' !! mv
                 = Some (Chunk (Some a)
                           (PStrs (take i cs ++ ps ++ drop (i + S (length strs')) cs))) ∧
                 Forall2 (λ p s, str_copy (mem w') a p (Some s)) ps (s :: strs') ∧
                 pres_except mv (mem w) (mem w') ∧
                 arena_ok m0 a (mem w') (brk w') ∧
                 same_io w w') w) as Hwp;
      [|destruct p; [done | exact Hwp | exact Hwp]].
    wp_run. rewrite decide_True by lia. wp_run.
    eapply wp_mono.
    { apply (IH strs' (S i) _ (<[i := CAt (brk w)]> cs)); world_simpl.
      - apply arena_ok_insert with (b := brk w + 1); [|lia..|done].
        apply arena_ok_insert with (b := brk w); [done|lia..|done].
      - done.
      - done.
      - heap_lookup. done.
      - rewrite length_insert. lia. }
    intros _ w' (ps & Hmv' & Hps & Hpres & Hok' & Hio). world_simpl.
    exists (CAt (brk w) :: ps). split_and!.
    + by rewrite Hmv', cells_step by lia.
    + constructor; [|done]. exists (brk w). split_and!; [done | lia |].
      apply Hpres; [lia|]. world_simpl. by heap_lookup.
    + eapply pres_except_trans; [|exact Hpres]. world_simpl.
      apply pres_except_insert; [|by left].
      apply pres_except_insert; [apply pres_except_refl|right].
      by apply (fresh_none _ (brk w)).
    + done.
    + done.
Qed.

Lemma strs_until_null_index m cells strs :
  strs_until_null m cells = Some strs →
  null_index charp_is_null cells = Some (length strs).
Proof.
  revert strs. induction cells as [|p rest IH]; intros strs H; [done|].
  assert (p = CNull ∨ p ≠ CNull) as [->|Hp] by (destruct p; first [by left | by right]).
  - by injection H as <-.
  - destruct (strs_until_null_cons _ _ _ _ Hp H) as (s & strs' & _ & Hrest & ->).
    simpl. rewrite (IH _ Hrest). by destruct p.
Qed.

Lemma attrs_until_null_cons m l rest L :
  attrs_until_null m (Some l :: rest) = Some L →
  ∃ v L', attr_at m l = Some v ∧ attrs_until_null m rest = Some L' ∧ L = v :: L'.
Proof.
  simpl. destruct (attr_at m l) as [v|]; [|done].
  destruct (attrs_until_null m rest) as [r|]; [|done].
  intros [= <-]. eauto.
Qed.

Lemma attrs_until_null_index m cells L :
  attrs_until_null m cells = Some L →
  null_index ptr_is_null cells = Some (length L).
Proof.
  revert L. induction cells as [|[l|] rest IH]; intros L H; [done| |by injection H as <-].
  destruct (attrs_until_null_cons _ _ _ _ H) as (v & L' & _ & Hrest & ->).
  simpl. by rewrite (IH _ Hrest).
Qed.

Lemma attr_at_inv m l v :
  attr_at m l = Some v →
  ∃ par x vl pv cells,
    m !! l = Some (Chunk par (PAttr x)) ∧
    ldap_attribute.values x = Some vl ∧
    m !! vl = Some (Chunk pv (PStrs cells)) ∧
    strs_until_null m cells = Some (attr_values v) ∧
    (ldap_attribute.name x = CNull ∧ attr_name v = None
     ∨ ∃ s, str_at m (ldap_attribute.name x) = Some s ∧ attr_name v = Some s).
Proof.
  unfold attr_at. intros H.
  destruct (m !! l) as [[par []]|]; try done.
  destruct (ldap_attribute.values a) as [vl|] eqn:Hvl; [|done]. simpl in H.
  destruct (m !! vl) as [[pv []]|] eqn:Hv; try done.
  destruct (strs_until_null m cells) as [vs|] eqn:Hvs; [|done].
  exists par, a, vl, pv, cells. split_and!; try done.
  - destruct (ldap_attribute.name a) as [|t|k]; simpl in H.
    + by injection H as <-.
    + by injection H as <-.
    + destruct (m !! k) as [[pk []]|]; try done. by injection H as <-.
  - destruct (ldap_attribute.name a) as [|t|k]; simpl in H |- *.
    + left. by injection H as <-.
    + right. injection H as <-. eauto.
    + right. destruct (m !! k) as [[pk []]|]; try done. injection H as <-. eauto.
Qed.

Lemma str_copy_pres m m' a x p o :
  str_copy m a p o → pres_except x m m' → ¬ is_str (m !! x) → str_copy m' a p o.
Proof.
  destruct o as [s|]; [|done]. intros (l & -> & Hl & Hc) Hpres Hx.
  exists l. split_and!; [done..|]. apply Hpres; [|done].
  intros ->. by rewrite Hc in Hx.
Qed.

Lemma mod_repr_pres m m' a x l v cells px :
  mod_repr m a l v → pres_except x m m' →
  m !! x = Some (Chunk px (PPtrs cells)) →
  mod_repr m' a l v.
Proof.
  intros (y & vl & ps & Hal & Hl & Hop & Hty & Hvl & Havl & Hvs & Hps) Hpres Hx.
  assert (¬ is_str (m !! x)) as Hns by (rewrite Hx; by intros []).
  exists y, vl, ps. split_and!; try done.
  - apply Hpres; [|done]. intros ->. by rewrite Hx in Hl.
  - by eapply str_copy_pres.
  - apply Hpres; [|done]. intros ->. by rewrite Hx in Hvs.
  - eapply Forall2_impl; [exact Hps|]. intros p s Hp.
    exact (str_copy_pres _ _ _ _ _ _ Hp Hpres Hns).
Qed.

Lemma arena_ok_mono m0 a m b b' : arena_ok m0 a m b → b ≤ b' → arena_ok m0 a m b'.
Proof.
  intros (Hlow & Hhigh & Ha & Hown & Hk & Hab) Hb. repeat split; try done.
  - intros l c Hl. apply Hk in Hl. lia.
  - lia.
Qed.

Lemma arena_ok_insert_same m0 a m b l c :
  arena_ok m0 a m b → a < l → l < b → parent c = Some a →
  arena_ok m0 a (<[l := c]> m) b.
Proof. intros. by apply arena_ok_insert with (b := b). Qed.

Ltac solve_arena :=
  world_simpl;
  repeat (apply arena_ok_insert_same; [| lia | lia | reflexivity]);
  first [ eassumption | eapply arena_ok_mono; [eassumption | lia] ].

Lemma cells_after_copy {A} (x : A) (ps : list A) n :
  take 0 (replicate (n + 1) x) ++ ps ++ drop (0 + n) (replicate (n + 1) x) = ps ++ [x].
Proof.
  simpl. rewrite drop_replicate.
  by replace (n + 1 - n)%nat with 1%nat by lia.
Qed.

Lemma terminator_again {A} (x : A) (ps : list A) :
  <[length ps := x]> (ps ++ [x]) = ps ++ [x].
Proof.
  rewrite insert_app_r_alt by lia.
  by replace (length ps - length ps)%nat with 0%nat by lia.
Qed.

Lemma fill_loop_spec m0 a attrs op cells : ∀ L i w cs,
  arena_ok m0 a (mem w) (brk w) →
  attrs_until_null m0 cells = Some L →
  a < attrs →
  mem w !! attrs = Some (Chunk (Some a) (PPtrs cs)) →
  (i + length L ≤ length cs)%nat →
  wp (fill_loop cells attrs (Some a) op i)
     (λ _ w', ∃ ms,
        mem w' !! attrs
        = Some (Chunk (Some a)
                  (PPtrs (take i cs ++ (Some <$> ms) ++ drop (i + length L) cs))) ∧
        Forall2 (λ l v, mod_repr (mem w') a l (to_mod op v)) ms L ∧
        pres_except attrs (mem w) (mem w') ∧
        arena_ok m0 a (mem w') (brk w') ∧
        same_io w w') w.
Proof.
  induction cells as [|[al|] rest IH]; intros L i w cs Hok HL Haa Hattrs Hlen; [done|..].
  2:{ injection HL as <-. apply wp_ret. exists []. simpl.
      rewrite Nat.add_0_r, take_drop.
      split_and!; [done | constructor | apply pres_except_refl | done | done]. }
  destruct (attrs_until_null_cons _ _ _ _ HL) as (v & L' & Hv & Hrest & ->).
  destruct (attr_at_inv _ _ _ Hv) as (par & [nm vals] & vl & pv & vcells
                                       & Hal & Hvl & Hvlc & Hvs & Hname).
  simpl in Hvl, Hname, Hlen. subst vals.
  pose proof (arena_ok_sub _ _ _ _ Hok) as Hsub0.
  pose proof (arena_ok_keys _ _ _ _ Hok) as Hk.
  pose proof (arena_ok_live _ _ _ _ Hok) as Hlive.
  pose proof (arena_ok_lt _ _ _ _ Hok) as Hab.
  pose proof (lookup_weaken _ _ _ _ Hal Hsub0) as Hal'.
  pose proof (lookup_weaken _ _ _ _ Hvlc Hsub0) as Hvlc'.
  pose proof (strs_until_null_index _ _ _ Hvs) as Hidx.
  assert (attrs < brk w) as Hattrsb by (by apply (Hk _ _ Hattrs)).
  assert (al < brk w) as Halb by (by apply (Hk _ _ Hal')).
  assert (vl < brk w) as Hvlb by (by apply (Hk _ _ Hvlc')).
  assert (al ≠ attrs) as Hne1 by (intros ->; by rewrite Hattrs in Hal').
  assert (vl ≠ attrs) as Hne2 by (intros ->; by rewrite Hattrs in Hvlc').
  assert (Hsub : mem w ⊆ mem w) by done.
  cbn [fill_loop].
  destruct Hname as [[-> Hvn]|(s & Hs & Hvn)];
    [|pose proof (str_at_weaken _ _ _ _ Hs Hsub0) as Hs'].
  all: wp_run; rewrite decide_True by lia; wp_run.
  all: rewrite Hidx; wp_run.
  all: (eapply wp_mono;
        [ apply (copy_values_spec m0 a _ vcells (attr_values v) 0%nat);
          [ solve_arena | done | lia | solve_lookup | rewrite length_replicate; lia ] |]).
  all: intros _ w2 (ps & Hmv2 & Hps & Hpres2 & Hok2 & Hio2); world_simpl in Hmv2 Hpres2 Hio2.
  all: pose proof (Forall2_length _ _ _ Hps) as Hpsl.
  all: pose proof (arena_ok_keys _ _ _ _ Hok2) as Hk2.
  all: match type of Hmv2 with _ !! ?mv = _ =>
         assert (mem w2 !! attrs
                 = Some (Chunk (Some a) (PPtrs (<[i := Some (brk w)]> cs)))) as Hattrs2
           by (apply Hpres2; [lia | heap_lookup; done]);
         assert (∃ ty, mem w2 !! brk w
                       = Some (Chunk (Some a) (PMod (ldap_mod.mk op ty (Some mv)))) ∧
                       str_copy (mem w2) a ty (attr_name v)) as (ty & Hmod2 & Hty2)
           by (eexists; split;
               [ apply Hpres2; [lia | heap_lookup; reflexivity]
               | rewrite Hvn; first [ reflexivity
                                    | eexists; split_and!; [reflexivity | lia |];
                                      apply Hpres2; [lia | heap_lookup; reflexivity] ] ]);
         assert (mv < brk w2) as Hmvb2 by (by apply (Hk2 _ _ Hmv2));
         assert (brk w < mv) as Hmvlo by lia
       end.
  all: rewrite cells_after_copy in Hmv2.
  all: wp_run; rewrite decide_True by (rewrite length_app; simpl; lia).
  all: wp_run; rewrite <- Hpsl, terminator_again.
  all: (eapply wp_mono;
        [ apply (IH L' (S i) _ (<[i := Some (brk w)]> cs));
          [ solve_arena | done | done | world_simpl; heap_lookup; done
          | rewrite length_insert; lia ] |]).
  all: intros _ w' (ms & Hattrs' & Hms & Hpres' & Hok' & Hio'); world_simpl in Hattrs' Hpres' Hio'.
  all: exists (brk w :: ms); split_and!.
  all: try done.
  all: match type of Hmv2 with _ !! ?mv = _ =>
         assert (pres_except mv (mem w2)
                   (<[mv := Chunk (Some a) (PStrs (ps ++ [CNull]))]> (mem w2))) as Hpres3
           by (apply pres_except_insert; [apply pres_except_refl | by left]);
         assert (¬ is_str (mem w2 !! mv)) as Hnstr by (rewrite Hmv2; by intros [])
       end.
  all: lazymatch goal with
       | |- _ !! _ = _ =>
           rewrite Hattrs', cells_step by lia; reflexivity
       | |- Forall2 _ _ _ =>
           constructor; [|done];
           eapply mod_repr_pres;
             [ | exact Hpres' | rewrite lookup_insert_ne by lia; exact Hattrs2 ];
           eexists (ldap_mod.mk op ty (Some _)), _, ps;
           split_and!;
             [ lia
             | rewrite lookup_insert_ne by lia; exact Hmod2
             | reflexivity
             | exact (str_copy_pres _ _ _ _ _ _ Hty2 Hpres3 Hnstr)
             | reflexivity
             | lia
             | by rewrite lookup_insert_eq
             | eapply Forall2_impl; [exact Hps|];
               intros p s' Hp; exact (str_copy_pres _ _ _ _ _ _ Hp Hpres3 Hnstr) ]
       | |- pres_except _ _ _ =>
           intros l c Hl Hc; pose proof (Hk _ _ Hc);
           apply Hpres'; [exact Hl|]; rewrite lookup_insert_ne by lia;
           apply Hpres2; [lia|]; heap_lookup; done
       | |- same_io _ _ =>
           unfold same_io in *; world_simpl in Hio2 Hio';
           destruct Hio2 as (-> & -> & -> & ->) in Hio'; exact Hio'
       end.
Qed.

Lemma pres_except_fresh x m m' : pres_except x m m' → m !! x = None → m ⊆ m'.
Proof.
  intros H Hx. apply map_subseteq_spec. intros l c Hl. apply H; [|done].
  intros ->. congruence.
Qed.

Lemma fill_attributes_spec m0 a op entry_attrs L w :
  arena_ok m0 a (mem w) (brk w) →
  attrs_at m0 entry_attrs = Some L →
  wp (fill_attributes entry_attrs (Some a) op)
     (λ r w', ∃ attrs ms,
        r = Some attrs ∧ a < attrs ∧
        mem w' !! attrs = Some (Chunk (Some a) (PPtrs ((Some <$> ms) ++ [None]))) ∧
        Forall2 (λ l v, mod_repr (mem w') a l (to_mod op v)) ms L ∧
        mem w ⊆ mem w' ∧
        arena_ok m0 a (mem w') (brk w') ∧
        same_io w w') w.
Proof.
  intros Hok HL.
  destruct entry_attrs as [el|]; [|done]. simpl in HL.
  destruct (m0 !! el) as [[pe []]|] eqn:Hel; try done.
  pose proof (arena_ok_sub _ _ _ _ Hok) as Hsub0.
  pose proof (arena_ok_keys _ _ _ _ Hok) as Hk.
  pose proof (arena_ok_live _ _ _ _ Hok) as Hlive.
  pose proof (arena_ok_lt _ _ _ _ Hok) as Hab.
  pose proof (lookup_weaken _ _ _ _ Hel Hsub0) as Hel'.
  pose proof (attrs_until_null_index _ _ _ HL) as Hidx.
  assert (Hsub : mem w ⊆ mem w) by done.
  unfold fill_attributes. wp_run. rewrite Hidx. wp_run.
  eapply wp_mono.
  { apply (fill_loop_spec m0 a (brk w) op cells L 0%nat);
      [ solve_arena | done | lia | solve_lookup | rewrite length_replicate; lia ]. }
  intros _ w2 (ms & Hattrs2 & Hms & Hpres2 & Hok2 & Hio2).
  world_simpl in Hattrs2 Hpres2 Hio2.
  rewrite cells_after_copy in Hattrs2.
  pose proof (Forall2_length _ _ _ Hms) as Hmsl.
  pose proof (arena_ok_keys _ _ _ _ Hok2) as Hk2.
  assert (brk w < brk w2) as Hb2 by (by apply (Hk2 _ _ Hattrs2)).
  wp_run. rewrite decide_True by (rewrite length_app, length_fmap; simpl; lia).
  wp_run. exists (brk w), ms. world_simpl.
  replace (length L) with (length (Some <$> ms)) by (by rewrite length_fmap).
  rewrite terminator_again.
  assert (pres_except (brk w) (mem w2)
            (<[brk w := Chunk (Some a) (PPtrs ((Some <$> ms) ++ [None]))]> (mem w2)))
    as Hpres3 by (apply pres_except_insert; [apply pres_except_refl | by left]).
  split_and!.
  - done.
  - lia.
  - by rewrite lookup_insert_eq.
  - eapply Forall2_impl; [exact Hms|]. intros l v Hl.
    exact (mod_repr_pres _ _ _ _ _ _ _ _ Hl Hpres3 Hattrs2).
  - apply (pres_except_fresh (brk w)); [|by apply (fresh_none _ (brk w))].
    eapply pres_except_trans; [|exact Hpres3].
    eapply pres_except_trans; [|exact Hpres2].
    apply pres_except_insert; [apply pres_except_refl | by left].
  - solve_arena.
  - unfold same_io in *. world_simpl in Hio2. world_simpl. exact Hio2.
Qed.

(** ** What the protocol layer reads *)

Lemma str_copy_view m a p o : str_copy m a p o → str_at m p = o.
Proof.
  destruct o as [s|]; simpl.
  - intros (l & -> & _ & Hl). simpl. by rewrite Hl.
  - by intros ->.
Qed.

Lemma strs_copy_view m a ps vs :
  Forall2 (λ p s, str_copy m a p (Some s)) ps vs →
  strs_until_null m (ps ++ [CNull]) = Some vs.
Proof.
  induction 1 as [|p s ps vs (l & -> & _ & Hl) _ IH]; [done|].
  simpl. by rewrite Hl, IH.
Qed.

Lemma mod_repr_view m a l v : mod_repr m a l v → mod_at m l = Some v.
Proof.
  intros (x & vl & ps & _ & Hl & Hop & Hty & Hvl & _ & Hvs & Hps).
  unfold mod_at. rewrite Hl, Hvl. simpl. rewrite Hvs.
  rewrite (strs_copy_view _ _ _ _ Hps), (str_copy_view _ _ _ _ Hty), Hop.
  by destruct v.
Qed.

Lemma mods_repr_view m a ms vs :
  Forall2 (mod_repr m a) ms vs →
  mods_until_null m ((Some <$> ms) ++ [None]) = Some vs.
Proof.
  induction 1 as [|l v ms vs Hl _ IH]; [done|].
  rewrite fmap_cons. cbn [app mods_until_null].
  by rewrite (mod_repr_view _ _ _ _ Hl), IH.
Qed.

Lemma mod_repr_weaken m m' a l v : mod_repr m a l v → m ⊆ m' → mod_repr m' a l v.
Proof.
  intros (x & vl & ps & Hal & Hl & Hop & Hty & Hvl & Havl & Hvs & Hps) Hsub.
  assert (∀ p o, str_copy m a p o → str_copy m' a p o) as Hcopy.
  { intros p [s|]; [|done]. intros (k & -> & Hk & Hc).
    exists k. split_and!; [done..|]. by eapply lookup_weaken. }
  exists x, vl, ps. split_and!; try done.
  - by eapply lookup_weaken.
  - by apply Hcopy.
  - by eapply lookup_weaken.
  - eapply Forall2_impl; [exact Hps|]. intros p s. apply Hcopy.
Qed.

(** The list that [fill_attributes] built, as the protocol layer reads it
    in any later store that still holds the arena. *)
Lemma mods_at_built m m' a attrs ms op L :
  m !! attrs = Some (Chunk (Some a) (PPtrs ((Some <$> ms) ++ [None]))) →
  Forall2 (λ l v, mod_repr m a l (to_mod op v)) ms L →
  m ⊆ m' →
  mods_at m' (Some attrs) = Some (to_mod op <$> L).
Proof.
  intros Hattrs Hms Hsub. simpl.
  rewrite (lookup_weaken _ _ _ _ Hattrs Hsub).
  apply (mods_repr_view m' a). apply Forall2_fmap_r.
  eapply Forall2_impl; [exact Hms|]. intros l v Hl.
  exact (mod_repr_weaken _ _ _ _ _ Hl Hsub).
Qed.

(** ** The five entry operations *)

Section EntryRuns.

Variable string_ok : string → bool.
Variable op_result : list event → OperationReturnCode.

Lemma went_through_intro e w rc m b lg tr tm ne :
  brk w < b → rc = op_result (e :: trace w) →
  m = mem w → lg = log w → tr = e :: trace w → tm = timers w → ne = next_ev w →
  went_through op_result e w rc (World m b lg tr tm ne).
Proof. intros ? -> -> -> -> -> ->. by exists b. Qed.

Lemma ld_add_entry_run w h ph hd name parent prefix entry_attrs n p x L :
  heap_okb w = true →
  mem w !! h = Some (Chunk ph (PHandle hd)) →
  str_at (mem w) name = Some n → string_ok n = true →
  str_at (mem w) parent = Some p → string_ok p = true →
  render (mem w) prefix = Some x →
  attrs_at (mem w) entry_attrs = Some L →
  wp (ld_add_entry string_ok op_result (Some h) name parent prefix entry_attrs)
     (went_through op_result
        (ev_add (ld_handle.connection_ctx hd) (Some (x +:+ "=" +:+ n +:+ "," +:+ p))
                (Some (to_mod LDAP_MOD_ADD <$> L))) w) w.
Proof.
  intros Hheap Hh Hn Hnok Hp Hpok Hx HL.
  pose proof (heap_okb_keys _ Hheap) as Hk.
  pose proof (heap_okb_parents _ Hheap) as Hpar.
  pose proof (arena_ok_new _ _ Hk) as Hnew.
  assert (Hsub : mem w ⊆ mem w) by done.
  unfold ld_add_entry. wp_run.
  eapply wp_mono.
  { apply (fill_attributes_spec (mem w) (brk w) LDAP_MOD_ADD entry_attrs L);
      [solve_arena | done]. }
  intros r w3 (attrs & ms & -> & Hattrs & Hattrs3 & Hms & Hsub3 & Hok3 & Hio3).
  world_simpl in Hsub3 Hio3. destruct Hio3 as (Hlog & Htr & Htm & Hne).
  world_simpl in Hlog Htr Htm Hne.
  pose proof (arena_ok_sub _ _ _ _ Hok3) as Hsub03.
  pose proof (lookup_weaken _ _ _ _ Hh Hsub03) as Hh3.
  pose proof Hok3 as (_ & _ & Ha3 & _).
  pose proof (arena_ok_lt _ _ _ _ Hok3) as Hab3.
  assert (str_at (mem w3) (CAt (brk w + 1)) = Some (x +:+ "=" +:+ n +:+ "," +:+ p)) as Hdn.
  { eapply str_at_weaken; [|exact Hsub3]. simpl. by rewrite lookup_insert_eq. }
  pose proof (mods_at_built _ _ _ _ _ _ _ Hattrs3 Hms (reflexivity _)) as Hmods.
  wp_run. rewrite Hdn, Hmods, Htr.
  apply went_through_intro; try done.
  by apply (talloc_free_arena _ (brk w) _ (brk w3)).
Qed.


Lemma ld_del_entry_run w h ph hd name parent prefix n p x :
  heap_okb w = true →
  mem w !! h = Some (Chunk ph (PHandle hd)) →
  str_at (mem w) name = Some n → string_ok n = true →
  str_at (mem w) parent = Some p → string_ok p = true →
  render (mem w) prefix = Some x →
  wp (ld_del_entry string_ok op_result (Some h) name parent prefix)
     (went_through op_result
        (ev_delete (ld_handle.connection_ctx hd) (Some (x +:+ "=" +:+ n +:+ "," +:+ p)))
        w) w.
Proof.
  intros Hheap Hh Hn Hnok Hp Hpok Hx.
  pose proof (heap_okb_keys _ Hheap) as Hk.
  pose proof (heap_okb_parents _ Hheap) as Hpar.
  pose proof (arena_ok_new _ _ Hk) as Hnew.
  assert (Hsub : mem w ⊆ mem w) by done.
  unfold ld_del_entry. wp_run.
  apply went_through_intro; try done.
  - lia.
  - simpl. by heap_lookup.
  - apply (talloc_free_arena _ (brk w) _ (brk w + 1 + 1)); [solve_arena | done].
  - simpl. by heap_lookup.
Qed.

Lemma ld_rename_entry_run w h ph hd old_name new_name parent prefix o n p x :
  heap_okb w = true →
  mem w !! h = Some (Chunk ph (PHandle hd)) →
  str_at (mem w) old_name = Some o → string_ok o = true →
  str_at (mem w) new_name = Some n → string_ok n = true →
  str_at (mem w) parent = Some p → string_ok p = true →
  render (mem w) prefix = Some x →
  wp (ld_rename_entry string_ok op_result (Some h) old_name new_name parent prefix)
     (went_through op_result
        (ev_rename (ld_handle.connection_ctx hd)
                   (Some (x +:+ "=" +:+ o +:+ "," +:+ p))
                   (Some (x +:+ "=" +:+ n)) (Some p) true) w) w.
Proof.
  intros Hheap Hh Ho Hook Hn Hnok Hp Hpok Hx.
  pose proof (heap_okb_keys _ Hheap) as Hk.
  pose proof (heap_okb_parents _ Hheap) as Hpar.
  pose proof (arena_ok_new _ _ Hk) as Hnew.
  assert (Hsub : mem w ⊆ mem w) by done.
  assert (str_at (<[brk w + 1 + 1 := Chunk (Some (brk w)) (PStr (x +:+ "=" +:+ n))]>
                    (<[brk w + 1 := Chunk (Some (brk w))
                                      (PStr (x +:+ "=" +:+ o +:+ "," +:+ p))]>
                       (<[brk w := Chunk None PCtx]> (mem w)))) parent = Some p) as Hp'.
  { eapply str_at_weaken; [exact Hp|].
    repeat (apply insert_subseteq_r; [apply (fresh_none _ (brk w) _ Hk); lia|]). done. }
  unfold ld_rename_entry. wp_run. rewrite Hp'.
  apply went_through_intro; try done.
  - lia.
  - simpl. by heap_lookup.
  - apply (talloc_free_arena _ (brk w) _ (brk w + 1 + 1 + 1)); [solve_arena | done].
  - simpl. by heap_lookup.
Qed.

Lemma ld_mod_entry_run w h ph hd name parent prefix entry_attrs n p x L :
  heap_okb w = true →
  mem w !! h = Some (Chunk ph (PHandle hd)) →
  str_at (mem w) name = Some n → string_ok n = true →
  str_at (mem w) parent = Some p → string_ok p = true →
  render (mem w) prefix = Some x →
  attrs_at (mem w) entry_attrs = Some L →
  wp (ld_mod_entry string_ok op_result (Some h) name parent prefix entry_attrs)
     (went_through op_result
        (ev_modify (ld_handle.connection_ctx hd) (Some (x +:+ "=" +:+ n +:+ "," +:+ p))
                   (Some (to_mod LDAP_MOD_REPLACE <$> L))) w) w.
Proof.
  intros Hheap Hh Hn Hnok Hp Hpok Hx HL.
  pose proof (heap_okb_keys _ Hheap) as Hk.
  pose proof (heap_okb_parents _ Hheap) as Hpar.
  pose proof (arena_ok_new _ _ Hk) as Hnew.
  assert (h < brk w) as Hhb by (by apply (Hk _ _ Hh)).
  assert (Hsub : mem w ⊆ mem w) by done.
  unfold ld_mod_entry. wp_run.
  eapply wp_mono.
  { apply (fill_attributes_spec (mem w) (brk w) LDAP_MOD_REPLACE entry_attrs L);
      [solve_arena | done]. }
  intros r w3 (attrs & ms & -> & Hattrs & Hattrs3 & Hms & Hsub3 & Hok3 & Hio3).
  world_simpl in Hsub3 Hio3. destruct Hio3 as (Hlog & Htr & Htm & Hne).
  world_simpl in Hlog Htr Htm Hne.
  pose proof (arena_ok_sub _ _ _ _ Hok3) as Hsub03.
  pose proof (arena_ok_keys _ _ _ _ Hok3) as Hk3.
  pose proof (lookup_weaken _ _ _ _ Hh Hsub03) as Hh3.
  pose proof Hok3 as (_ & _ & Ha3 & _).
  pose proof (arena_ok_lt _ _ _ _ Hok3) as Hab3.
  pose proof (str_at_weaken _ _ _ _ Hn Hsub03) as Hn3.
  pose proof (str_at_weaken _ _ _ _ Hp Hsub03) as Hp3.
  pose proof (render_weaken _ _ _ _ Hx Hsub03) as Hx3.
  repeat match goal with H : mem w ⊆ _ |- _ => clear H end.
  assert (Hsub : mem w3 ⊆ mem w3) by done.
  wp_run.
  erewrite (mods_at_built (mem w3)); [|exact Hattrs3|exact Hms|eassumption].
  rewrite Htr.
  apply went_through_intro; try done.
  - lia.
  - simpl. by heap_lookup.
  - apply (talloc_free_arena _ (brk w) _ (brk w3 + 1)); [solve_arena | done].
  - simpl. by heap_lookup.
Qed.

Lemma ld_mod_entry_attrs_run w h ph hd name parent prefix entry_attrs opcode n p x L :
  heap_okb w = true →
  mem w !! h = Some (Chunk ph (PHandle hd)) →
  str_at (mem w) name = Some n → string_ok n = true →
  str_at (mem w) parent = Some p → string_ok p = true →
  str_at (mem w) prefix = Some x →
  attrs_at (mem w) entry_attrs = Some L →
  wp (ld_mod_entry_attrs string_ok op_result (Some h) name parent prefix entry_attrs opcode)
     (went_through op_result
        (ev_modify (ld_handle.connection_ctx hd)
                   (Some (if decide (x = ""%string) then n +:+ "," +:+ p
                          else x +:+ "=" +:+ n +:+ "," +:+ p))
                   (Some (to_mod opcode <$> L))) w) w.
Proof.
  intros Hheap Hh Hn Hnok Hp Hpok Hx HL.
  pose proof (heap_okb_keys _ Hheap) as Hk.
  pose proof (heap_okb_parents _ Hheap) as Hpar.
  pose proof (arena_ok_new _ _ Hk) as Hnew.
  assert (h < brk w) as Hhb by (by apply (Hk _ _ Hh)).
  assert (Hsub : mem w ⊆ mem w) by done.
  unfold ld_mod_entry_attrs. wp_run.
  eapply wp_mono.
  { apply (fill_attributes_spec (mem w) (brk w) opcode entry_attrs L);
      [solve_arena | done]. }
  intros r w3 (attrs & ms & -> & Hattrs & Hattrs3 & Hms & Hsub3 & Hok3 & Hio3).
  world_simpl in Hsub3 Hio3. destruct Hio3 as (Hlog & Htr & Htm & Hne).
  world_simpl in Hlog Htr Htm Hne.
  pose proof (arena_ok_sub _ _ _ _ Hok3) as Hsub03.
  pose proof (arena_ok_keys _ _ _ _ Hok3) as Hk3.
  pose proof (lookup_weaken _ _ _ _ Hh Hsub03) as Hh3.
  pose proof Hok3 as (_ & _ & Ha3 & _).
  pose proof (arena_ok_lt _ _ _ _ Hok3) as Hab3.
  pose proof (str_at_weaken _ _ _ _ Hn Hsub03) as Hn3.
  pose proof (str_at_weaken _ _ _ _ Hp Hsub03) as Hp3.
  pose proof (str_at_weaken _ _ _ _ Hx Hsub03) as Hx3.
  repeat match goal with H : mem w ⊆ _ |- _ => clear H end.
  assert (Hsub : mem w3 ⊆ mem w3) by done.
  wp_run.
  destruct x as [|c x']; simpl String.length.
  - rewrite decide_False by lia. rewrite decide_True by done. wp_run.
    erewrite (mods_at_built (mem w3)); [|exact Hattrs3|exact Hms|eassumption].
    rewrite Htr.
    apply went_through_intro; try done.
    + lia.
    + simpl. by heap_lookup.
    + apply (talloc_free_arena _ (brk w) _ (brk w3 + 1)); [solve_arena | done].
    + simpl. by heap_lookup.
  - rewrite decide_True by lia. rewrite decide_False by done. wp_run.
    erewrite (mods_at_built (mem w3)); [|exact Hattrs3|exact Hms|eassumption].
    rewrite Htr.
    apply went_through_intro; try done.
    + lia.
    + simpl. by heap_lookup.
    + apply (talloc_free_arena _ (brk w) _ (brk w3 + 1)); [solve_arena | done].
    + simpl. by heap_lookup.
Qed.

End EntryRuns.

(** ** Claims on the entry operations *)

(** C3: with a handle, a name and a parent that pass the checks and a
    readable prefix [x], [ld_add_entry], [ld_del_entry] and [ld_mod_entry]
    hand the protocol operation the distinguished name [x=name,parent];
    [ld_mod_entry_attrs] hands it the same name when [x] is not empty, and
    [name,parent], with no [=], when [x] is the empty string.  A readable
    attribute list is asked for only where the function takes one:
    [ld_del_entry] takes none. *)
Theorem entry_dn_composed string_ok op_result w h ph hd name parent prefix n p x :
  heap_okb w = true →
  mem w !! h = Some (Chunk ph (PHandle hd)) →
  str_at (mem w) name = Some n → string_ok n = true →
  str_at (mem w) parent = Some p → string_ok p = true →
  str_at (mem w) prefix = Some x →
  let conn := ld_handle.connection_ctx hd in
  let dn := (x +:+ "=" +:+ n +:+ "," +:+ p)%string in
  (∀ entry_attrs L,
     attrs_at (mem w) entry_attrs = Some L →
     wp (ld_add_entry string_ok op_result (Some h) name parent prefix entry_attrs)
        (λ _ w', ∃ mods, trace w' = ev_add conn (Some dn) mods :: trace w) w) ∧
  wp (ld_del_entry string_ok op_result (Some h) name parent prefix)
     (λ _ w', trace w' = ev_delete conn (Some dn) :: trace w) w ∧
  (∀ entry_attrs L,
     attrs_at (mem w) entry_attrs = Some L →
     wp (ld_mod_entry string_ok op_result (Some h) name parent prefix entry_attrs)
        (λ _ w', ∃ mods, trace w' = ev_modify conn (Some dn) mods :: trace w) w) ∧
  (∀ entry_attrs opcode L,
     attrs_at (mem w) entry_attrs = Some L →
     wp (ld_mod_entry_attrs string_ok op_result (Some h) name parent prefix entry_attrs
           opcode)
        (λ _ w', ∃ mods,
           trace w' = ev_modify conn (Some (if decide (x = ""%string)
                                            then (n +:+ "," +:+ p)%string else dn)) mods
                      :: trace w) w).
Proof.
  intros Hheap Hh Hn Hnok Hp Hpok Hx conn dn.
  assert (render (mem w) prefix = Some x) as Hr by (by destruct prefix).
  split; [|split; [|split]].
  - intros entry_attrs L HL.
    eapply wp_mono; [by eapply ld_add_entry_run|].
    intros rc w' (b & _ & _ & ->). by eexists.
  - eapply wp_mono; [by eapply ld_del_entry_run|].
    by intros rc w' (b & _ & _ & ->).
  - intros entry_attrs L HL.
    eapply wp_mono; [by eapply ld_mod_entry_run|].
    intros rc w' (b & _ & _ & ->). by eexists.
  - intros entry_attrs opcode L HL.
    eapply wp_mono; [by eapply ld_mod_entry_attrs_run|].
    intros rc w' (b & _ & _ & ->). by eexists.
Qed.

Lemma entry_dn_composed_witness :
  wp (ld_add_entry any_string always_ok (Some 1) (CLit "u1") (CLit "ou=people")
        (CLit "cn") (Some 8))
     (λ _ w', ∃ mods, trace w' = [ev_add (Some 3) (Some "cn=u1,ou=people"%string) mods])
     example_world ∧
  wp (ld_del_entry any_string always_ok (Some 1) (CLit "u1") (CLit "ou=people")
        (CLit "cn"))
     (λ _ w', trace w' = [ev_delete (Some 3) (Some "cn=u1,ou=people"%string)])
     example_world ∧
  wp (ld_mod_entry_attrs any_string always_ok (Some 1) (CLit "cn=u1") (CLit "ou=people")
        (CLit "") (Some 8) LDAP_MOD_DELETE)
     (λ _ w', ∃ mods, trace w' = [ev_modify (Some 3) (Some "cn=u1,ou=people"%string) mods])
     example_world.
Proof.
  split; [|split].
  - refine (proj1 (entry_dn_composed any_string always_ok example_world 1 None
                     example_handle (CLit "u1") (CLit "ou=people") (CLit "cn")
                     "u1" "ou=people" "cn" _ _ _ _ _ _ _)
              (Some 8) example_attrs _); reflexivity.
  - refine (proj1 (proj2 (entry_dn_composed any_string always_ok example_world 1 None
                     example_handle (CLit "u1") (CLit "ou=people") (CLit "cn")
                     "u1" "ou=people" "cn" _ _ _ _ _ _ _))); reflexivity.
  - refine (proj2 (proj2 (proj2
              (entry_dn_composed any_string always_ok example_world 1 None
                 example_handle (CLit "cn=u1") (CLit "ou=people") (CLit "")
                 "cn=u1" "ou=people" "" _ _ _ _ _ _ _)))
              (Some 8) LDAP_MOD_DELETE example_attrs _); reflexivity.
Defined.

(** C4: in a fresh arena, [fill_attributes] turns a readable,
    [NULL]-terminated attribute list of [L] into a [NULL]-terminated array
    of as many [LDAPMod]s in the same order, each with the given opcode and
    with copies, made in the arena, of the name and of the values up to a
    closing [NULL]; and the list the protocol operation is handed carries
    [LDAP_MOD_ADD] from [ld_add_entry], [LDAP_MOD_REPLACE] from
    [ld_mod_entry] and the caller's opcode from [ld_mod_entry_attrs]. *)
Theorem attributes_translated string_ok op_result w h ph hd name parent prefix
    entry_attrs opcode n p x L :
  heap_okb w = true →
  mem w !! h = Some (Chunk ph (PHandle hd)) →
  str_at (mem w) name = Some n → string_ok n = true →
  str_at (mem w) parent = Some p → string_ok p = true →
  str_at (mem w) prefix = Some x →
  attrs_at (mem w) entry_attrs = Some L →
  wp (do talloc_ctx <- talloc_new None;
      fill_attributes entry_attrs (Some talloc_ctx) opcode)
     (λ r w', ∃ attrs ms,
        r = Some attrs ∧
        mem w' !! attrs = Some (Chunk (Some (brk w)) (PPtrs ((Some <$> ms) ++ [None]))) ∧
        Forall2 (λ l v, mod_repr (mem w') (brk w) l (to_mod opcode v)) ms L ∧
        mem w ⊆ mem w') w ∧
  wp (ld_add_entry string_ok op_result (Some h) name parent prefix entry_attrs)
     (λ _ w', ∃ conn dn,
        trace w' = ev_add conn dn (Some (to_mod LDAP_MOD_ADD <$> L)) :: trace w) w ∧
  wp (ld_mod_entry string_ok op_result (Some h) name parent prefix entry_attrs)
     (λ _ w', ∃ conn dn,
        trace w' = ev_modify conn dn (Some (to_mod LDAP_MOD_REPLACE <$> L)) :: trace w) w ∧
  wp (ld_mod_entry_attrs string_ok op_result (Some h) name parent prefix entry_attrs opcode)
     (λ _ w', ∃ conn dn,
        trace w' = ev_modify conn dn (Some (to_mod opcode <$> L)) :: trace w) w.
Proof.
  intros Hheap Hh Hn Hnok Hp Hpok Hx HL.
  assert (render (mem w) prefix = Some x) as Hr by (by destruct prefix).
  pose proof (heap_okb_keys _ Hheap) as Hk.
  repeat split.
  - assert (Hsub : mem w ⊆ mem w) by done.
    wp_run. eapply wp_mono.
    { apply (fill_attributes_spec (mem w) (brk w) opcode entry_attrs L);
        [by apply arena_ok_new | done]. }
    intros r w' (attrs & ms & -> & _ & Hattrs & Hms & Hsub' & _ & _).
    exists attrs, ms. repeat split; try done.
    etrans; [|exact Hsub']. simpl. apply insert_subseteq. by apply (fresh_none _ (brk w)).
  - eapply wp_mono; [by eapply ld_add_entry_run|].
    intros rc w' (b & _ & _ & ->). by do 2 eexists.
  - eapply wp_mono; [by eapply ld_mod_entry_run|].
    intros rc w' (b & _ & _ & ->). by do 2 eexists.
  - eapply wp_mono; [by eapply ld_mod_entry_attrs_run|].
    intros rc w' (b & _ & _ & ->). by do 2 eexists.
Qed.

Lemma attributes_translated_witness :
  wp (ld_mod_entry_attrs any_string always_ok (Some 1) (CLit "u1") (CLit "ou=people")
        (CLit "cn") (Some 8) LDAP_MOD_DELETE)
     (λ _ w', ∃ conn dn,
        trace w'
        = [ev_modify conn dn
             (Some [ ModView LDAP_MOD_DELETE (Some "objectClass"%string) ["person"%string];
                     ModView LDAP_MOD_DELETE (Some "sn"%string)
                             ["One"%string; "Two"%string] ])])
     example_world.
Proof.
  refine (proj2 (proj2 (proj2
            (attributes_translated any_string always_ok example_world 1 None
               example_handle (CLit "u1") (CLit "ou=people") (CLit "cn") (Some 8)
               LDAP_MOD_DELETE "u1" "ou=people" "cn" example_attrs
               _ _ _ _ _ _ _ _)))); reflexivity.
Defined.

(** C8: with a handle and an old name, a new name and a parent that pass
    the checks, and a readable prefix [x], [ld_rename_entry] calls the
    rename operation with the old name [x=old_name,parent], the new
    relative name [x=new_name], the given parent as the new parent, and
    [true] for deleting the old relative name. *)
Theorem rename_arguments string_ok op_result w h ph hd old_name new_name parent prefix
    o n p x :
  heap_okb w = true →
  mem w !! h = Some (Chunk ph (PHandle hd)) →
  str_at (mem w) old_name = Some o → string_ok o = true →
  str_at (mem w) new_name = Some n → string_ok n = true →
  str_at (mem w) parent = Some p → string_ok p = true →
  str_at (mem w) prefix = Some x →
  wp (ld_rename_entry string_ok op_result (Some h) old_name new_name parent prefix)
     (λ rc w',
        trace w' = ev_rename (ld_handle.connection_ctx hd)
                             (Some (x +:+ "=" +:+ o +:+ "," +:+ p)%string)
                             (Some (x +:+ "=" +:+ n)%string) (Some p) true :: trace w ∧
        rc = op_result (trace w')) w.
Proof.
  intros Hheap Hh Ho Hook Hn Hnok Hp Hpok Hx.
  assert (render (mem w) prefix = Some x) as Hr by (by destruct prefix).
  eapply wp_mono; [by eapply ld_rename_entry_run|].
  by intros rc w' (b & _ & -> & ->).
Qed.

Lemma rename_arguments_witness :
  wp (ld_rename_entry any_string always_ok (Some 1) (CLit "u1") (CLit "u2")
        (CLit "ou=people") (CLit "cn"))
     (λ rc w',
        trace w' = [ev_rename (Some 3) (Some "cn=u1,ou=people"%string)
                      (Some "cn=u2"%string) (Some "ou=people"%string) true] ∧
        rc = always_ok (trace w'))
     example_world.
Proof.
  refine (rename_arguments any_string always_ok example_world 1 None example_handle
            (CLit "u1") (CLit "u2") (CLit "ou=people") (CLit "cn")
            "u1" "u2" "ou=people" "cn" _ _ _ _ _ _ _ _ _); reflexivity.
Defined.

(** C10: each of the five entry operations that gets past its checks and
    makes its per-call arena gives it back before it returns, whatever the
    protocol operation answers: the store is again the one of before the
    call, and in it the location the arena was made at is free.  A
    readable attribute list is asked for only where the function takes
    one, and a new name only of [ld_rename_entry]. *)
Theorem arena_released string_ok op_result w h ph hd name parent prefix n p x :
  heap_okb w = true →
  mem w !! h = Some (Chunk ph (PHandle hd)) →
  str_at (mem w) name = Some n → string_ok n = true →
  str_at (mem w) parent = Some p → string_ok p = true →
  str_at (mem w) prefix = Some x →
  let released (rc : OperationReturnCode) (w' : world) :=
    rc = op_result (trace w') ∧ mem w' = mem w ∧ mem w' !! brk w = None in
  (∀ entry_attrs L,
     attrs_at (mem w) entry_attrs = Some L →
     wp (ld_add_entry string_ok op_result (Some h) name parent prefix entry_attrs)
        released w) ∧
  wp (ld_del_entry string_ok op_result (Some h) name parent prefix) released w ∧
  (∀ entry_attrs L,
     attrs_at (mem w) entry_attrs = Some L →
     wp (ld_mod_entry string_ok op_result (Some h) name parent prefix entry_attrs)
        released w) ∧
  (∀ new_name n',
     str_at (mem w) new_name = Some n' → string_ok n' = true →
     wp (ld_rename_entry string_ok op_result (Some h) name new_name parent prefix)
        released w) ∧
  (∀ entry_attrs opcode L,
     attrs_at (mem w) entry_attrs = Some L →
     wp (ld_mod_entry_attrs string_ok op_result (Some h) name parent prefix entry_attrs
           opcode)
        released w).
Proof.
  intros Hheap Hh Hn Hnok Hp Hpok Hx released.
  assert (render (mem w) prefix = Some x) as Hr by (by destruct prefix).
  pose proof (heap_okb_keys _ Hheap) as Hk.
  assert (∀ e rc w', went_through op_result e w rc w' → released rc w') as Hrel.
  { intros e rc w' (b & _ & -> & ->). repeat split. simpl.
    by apply (fresh_none _ (brk w)). }
  split; [|split; [|split; [|split]]].
  - intros entry_attrs L HL.
    eapply wp_mono; [by eapply ld_add_entry_run | apply Hrel].
  - eapply wp_mono; [by eapply ld_del_entry_run | apply Hrel].
  - intros entry_attrs L HL.
    eapply wp_mono; [by eapply ld_mod_entry_run | apply Hrel].
  - intros new_name n' Hn' Hn'ok.
    eapply wp_mono; [by eapply ld_rename_entry_run | apply Hrel].
  - intros entry_attrs opcode L HL.
    eapply wp_mono; [by eapply ld_mod_entry_attrs_run | apply Hrel].
Qed.

Lemma arena_released_witness :
  wp (ld_add_entry any_string (λ _, RETURN_CODE_FAILURE) (Some 1) (CLit "u1")
        (CLit "ou=people") (CLit "cn") (Some 8))
     (λ rc w', rc = RETURN_CODE_FAILURE ∧ mem w' = mem example_world ∧ mem w' !! 9 = None)
     example_world ∧
  wp (ld_del_entry any_string (λ _, RETURN_CODE_FAILURE) (Some 1) (CLit "u1")
        (CLit "ou=people") (CLit "cn"))
     (λ rc w', rc = RETURN_CODE_FAILURE ∧ mem w' = mem example_world ∧ mem w' !! 9 = None)
     example_world ∧
  wp (ld_rename_entry any_string (λ _, RETURN_CODE_FAILURE) (Some 1) (CLit "u1")
        (CLit "u2") (CLit "ou=people") (CLit "cn"))
     (λ rc w', rc = RETURN_CODE_FAILURE ∧ mem w' = mem example_world ∧ mem w' !! 9 = None)
     example_world.
Proof.
  pose proof (arena_released any_string (λ _, RETURN_CODE_FAILURE) example_world 1 None
                example_handle (CLit "u1") (CLit "ou=people") (CLit "cn")
                "u1" "ou=people" "cn" eq_refl eq_refl eq_refl eq_refl eq_refl eq_refl
                eq_refl) as (Hadd & Hdel & _ & Hren & _).
  split; [|split].
  - exact (Hadd (Some 8) example_attrs eq_refl).
  - exact Hdel.
  - exact (Hren (CLit "u2") "u2"%string eq_refl eq_refl).
Defined.

(** ** Opening a session *)

Lemma pres_except_insert_fresh x m m' b l c :
  pres_except x m m' → keys_ok m b → b ≤ l → pres_except x m (<[l := c]> m').
Proof. intros H Hk Hl. apply pres_except_insert; [done|]. right. by apply (fresh_none m b). Qed.

Lemma pres_except_insert_same x m m' c :
  pres_except x m m' → pres_except x m (<[x := c]> m').
Proof. intros H. apply pres_except_insert; [done | by left]. Qed.

Ltac solve_pres :=
  world_simpl;
  repeat first
    [ apply pres_except_insert_same
    | eapply pres_except_insert_fresh; [| eassumption | loc_le] ];
  apply pres_except_refl.

(** The end of [ld_init]: configuring the connection touches the
    connection context, and nothing else that was there. *)
Lemma configure_tail configure w g conn cc h a cd (Q : unit → world → Prop) :
  keys_ok (mem w) (brk w) →
  mem w !! a = Some (Chunk None PCtx) →
  mem w !! g = Some (Chunk (Some a) (PGlobal (global_ctx.mk (Some a)))) →
  mem w !! conn = Some (Chunk (Some a) (PConn cd)) →
  (∀ w' cd',
     mem w' !! conn = Some (Chunk (Some a) (PConn cd')) →
     connection_ctx.ldap_params cd' = connection_ctx.ldap_params cd →
     pres_except conn (mem w) (mem w') →
     Q tt w') →
  wp (connection_configure configure (Some g) (Some conn) (Some cc))
     (λ rc w',
        wp match rc with
           | RETURN_CODE_SUCCESS => update_conn conn (connection_ctx.set_handle (Some h))
           | RETURN_CODE_FAILURE => say (ld_error "Unable to configure connection")
           end Q w') w.
Proof.
  intros Hk Ha Hg Hc HQ.
  assert (conn < brk w) as Hcb by (by apply (Hk _ _ Hc)).
  assert (g < brk w) as Hgb by (by apply (Hk _ _ Hg)).
  assert (a < brk w) as Hab by (by apply (Hk _ _ Ha)).
  pose proof (str_pres_refl (mem w)) as Hp.
  unfold connection_configure. go.
  destruct (cf_state _) as [s|], (cf_rc _); go.
  all: eapply HQ; [find_lookup | reflexivity | solve_pres].
Qed.

Lemma keys_ok_mono (m : gmap loc chunk) b b' : keys_ok m b → b ≤ b' → keys_ok m b'.
Proof. intros Hk Hb l c Hl. apply Hk in Hl. lia. Qed.

Lemma keys_ok_update (m : gmap loc chunk) b l c :
  keys_ok m b → l < b → keys_ok (<[l := c]> m) b.
Proof. intros Hk Hl. apply (keys_ok_insert m b); [done | done | lia]. Qed.

Lemma lt_add_add (b j k : N) : j < k → b + j < b + k.
Proof. lia. Qed.
Lemma lt_base_add (b k : N) : 0 < k → b < b + k.
Proof. lia. Qed.
Lemma lt_below_add (l b k : N) : l < b → l < b + k.
Proof. lia. Qed.

Ltac loc_lt :=
  first [ assumption
        | apply lt_add_add; reflexivity
        | apply lt_base_add; reflexivity
        | apply lt_below_add; assumption
        | lia ].

Ltac solve_keys :=
  world_simpl;
  repeat (apply keys_ok_update; [| loc_lt]);
  eapply keys_ok_mono; [eassumption | loc_le].

Lemma not_null_of_str m p s : str_at m p = Some s → charp_is_null p = false.
Proof. by destruct p. Qed.

Lemma text_of_str m p s : str_at m p = Some s → text m p = Some s.
Proof. by destruct p. Qed.

Lemma render_of_optional m p : null_or_readable m p → ∃ s, render m p = Some s.
Proof. destruct p; simpl; [by eexists | by intros [s ->]; eexists..]. Qed.

(** Looking up, after the end of [ld_init], what was there before it. *)
Ltac find_after :=
  repeat match goal with
         | H : connection_ctx.ldap_params ?x = _
           |- context [connection_ctx.ldap_params ?x] => rewrite H
         | Hc : ?m' !! ?k = _ |- context [?m' !! ?k] => rewrite Hc
         | Hpres : pres_except ?x ?m ?m' |- context [?m' !! ?k] =>
             erewrite (Hpres k); [| loc_ne | find_lookup]
         end.

Ltac session_simpl :=
  cbv beta iota; world_simpl;
  cbn [sv_handle sv_arena sv_global_config sv_config sv_sasl sv_conn sv_params sv_passwd
       text].

Lemma first_cell {A} (x y : A) (l : list A) : <[0%nat := x]> (y :: l) = x :: l.
Proof. done. Qed.

Ltac read_off :=
  unfold read_session, read_sasl, read_params, owned;
  repeat first [ progress find_after | rewrite N.eqb_refl | rewrite first_cell
               | progress session_simpl ].

Ltac solve_copy :=
  session_simpl;
  lazymatch goal with
  | |- str_copy _ _ _ None => reflexivity
  | |- str_copy _ _ _ (Some _) =>
      eexists; split; [reflexivity | split; [loc_lt | find_after; reflexivity]]
  end.

Lemma pres_except_via x y (m m1 m2 : gmap loc chunk) b :
  pres_except x m m1 → pres_except y m1 m2 → keys_ok m b → b ≤ y → pres_except x m m2.
Proof.
  intros H1 H2 Hk Hy l c Hl Hc. apply H2; [|by apply H1].
  apply Hk in Hc. lia.
Qed.

Ltac split_optional_path p :=
  match goal with
  | H : null_or_readable _ p |- _ =>
      apply null_or_readable_cases in H as [-> | [? H]];
      [| rewrite ?(text_of_str _ _ _ H), ?(not_null_of_str _ _ _ H) ]
  end.

Ltac session_goal :=
  session_simpl;
  lazymatch goal with
  | |- _ = _ => reflexivity
  | |- _ ≤ _ => loc_le
  | |- str_copy _ _ _ _ => solve_copy
  | |- ∃ _, _ => do 2 eexists; split; [eassumption | split; [eassumption | solve_copy]]
  | |- pres_except _ _ _ =>
      match goal with
      | Hpres : pres_except _ _ _, Hk : keys_ok _ _ |- _ =>
          refine (pres_except_via _ _ _ _ _ _ _ Hpres Hk _); [solve_pres | loc_le]
      end
  end.

Ltac finish_init :=
  eapply configure_tail; [solve_keys | | find_lookup | find_lookup |]; [find_lookup |];
  intros w' cd' Hc' Hpar Hpres;
  eexists; split; [read_off; reflexivity |];
  session_simpl;
  repeat match goal with |- _ ∧ _ => split end;
  session_goal.

Lemma ld_init_run configure w out po c0 rest cl pc cfg :
  heap_okb w = true →
  mem w !! out = Some (Chunk po (PPtrs (c0 :: rest))) →
  mem w !! cl = Some (Chunk pc (PConfig cfg)) →
  null_or_readable (mem w) (ld_config.username cfg) →
  null_or_readable (mem w) (ld_config.base_dn cfg) →
  null_or_readable (mem w) (ld_config.password cfg) →
  (ld_config.use_tls cfg = true →
   null_or_readable (mem w) (ld_config.cacertfile cfg) ∧
   null_or_readable (mem w) (ld_config.certfile cfg) ∧
   null_or_readable (mem w) (ld_config.keyfile cfg)) →
  wp (ld_init configure (Some out) (Some cl))
     (λ _ w', ∃ v,
        read_session (mem w') out = Some v ∧
        brk w ≤ sv_arena v ∧
        settings_kept cfg v ∧
        sasl_built (mem w) (mem w') cfg v ∧
        tls_built (mem w) (mem w') cfg v ∧
        bind_built (mem w) (mem w') cfg v ∧
        pres_except out (mem w) (mem w')) w.
Proof.
  intros Hheap Ho Hc Hun Hbd Hpw Htls.
  pose proof (heap_okb_keys _ Hheap) as Hk.
  assert (out < brk w) as Hob by (by apply (Hk _ _ Ho)).
  assert (cl < brk w) as Hcb by (by apply (Hk _ _ Hc)).
  assert (out ≠ cl) as Hne by (by intros ->; rewrite Ho in Hc; destruct cfg).
  destruct cfg as [host pv base_dn username password sb tls sasl anon timeout ca ce ke].
  world_simpl in Hun Hbd Hpw Htls.
  apply render_of_optional in Hun as [u Hu], Hbd as [b Hb].
  pose proof (str_pres_refl (mem w)) as Hp.
  unfold ld_init, settings_kept, sasl_built, tls_built, bind_built.
  go. rewrite decide_True by (simpl; lia). go.
  split_optional_path password; destruct sasl, tls; go.
  all: try (destruct (Htls eq_refl) as (Hca & Hce & Hke); clear Htls;
            split_optional_path ca; go; split_optional_path ce; go;
            split_optional_path ke; go).
  all: finish_init.
Qed.

(** ** Claims on [ld_init] *)

(** C2, as the code has it: [ld_init] copies the settings record itself
    into the arena of the session, field for field, so the copy and the
    server name of the configuration context still point to the caller's
    strings; only the SASL password, the TLS paths, the bind name and the
    bind password are copies of their own in the arena.  Nothing of the
    caller's but the handle variable is written. *)
Theorem settings_copied_shallowly configure w out po c0 rest cl pc cfg :
  heap_okb w = true →
  mem w !! out = Some (Chunk po (PPtrs (c0 :: rest))) →
  mem w !! cl = Some (Chunk pc (PConfig cfg)) →
  null_or_readable (mem w) (ld_config.username cfg) →
  null_or_readable (mem w) (ld_config.base_dn cfg) →
  null_or_readable (mem w) (ld_config.password cfg) →
  (ld_config.use_tls cfg = true →
   null_or_readable (mem w) (ld_config.cacertfile cfg) ∧
   null_or_readable (mem w) (ld_config.certfile cfg) ∧
   null_or_readable (mem w) (ld_config.keyfile cfg)) →
  wp (ld_init configure (Some out) (Some cl))
     (λ _ w', ∃ v,
        read_session (mem w') out = Some v ∧
        brk w ≤ sv_arena v ∧
        sv_global_config v = cfg ∧
        config_ctx.server (sv_config v) = ld_config.host cfg ∧
        (∀ o, sv_sasl v = Some o →
              str_copy (mem w') (sv_arena v) (sasl_options.passwd o)
                       (text (mem w) (ld_config.password cfg))) ∧
        (ld_config.use_tls cfg = true →
         str_copy (mem w') (sv_arena v) (config_ctx.tls_ca_cert_file (sv_config v))
                  (text (mem w) (ld_config.cacertfile cfg)) ∧
         str_copy (mem w') (sv_arena v) (config_ctx.tls_cert_file (sv_config v))
                  (text (mem w) (ld_config.certfile cfg)) ∧
         str_copy (mem w') (sv_arena v) (config_ctx.tls_key_file (sv_config v))
                  (text (mem w) (ld_config.keyfile cfg))) ∧
        (∃ s, str_copy (mem w') (sv_arena v) (sasl_params.dn (sv_params v)) (Some s)) ∧
        str_copy (mem w') (sv_arena v) (berval.bv_val (sv_passwd v))
                 (text (mem w) (ld_config.password cfg)) ∧
        pres_except out (mem w) (mem w')) w.
Proof.
  intros Hheap Ho Hc Hun Hbd Hpw Htls.
  eapply wp_mono; [by eapply ld_init_run|].
  intros _ w' (v & Hv & Ha & (Hg & Hs & _) & (_ & Hsasl) & (_ & _ & Ht) & Hb & Hpres).
  exists v. repeat split; try done.
  - intros o Ho'. rewrite Ho' in Hsasl. by destruct Hsasl as (_ & _ & ? & _).
  - rewrite H in Ht. by destruct Ht.
  - rewrite H in Ht. by destruct Ht as (_ & ? & _).
  - rewrite H in Ht. by destruct Ht as (_ & _ & ?).
  - destruct Hb as ((u & b & _ & _ & Hdn) & _). by eexists.
  - destruct Hb as (_ & _ & _ & Hb).
    destruct (text (mem w) (ld_config.password cfg)); [by destruct Hb | by rewrite Hb].
Qed.

Lemma settings_copied_shallowly_witness :
  wp (ld_init configure_ok (Some 1) (Some 2))
     (λ _ w', ∃ v,
        read_session (mem w') 1 = Some v ∧
        sv_global_config v = example_settings ∧
        config_ctx.server (sv_config v) = CAt 3)
     example_caller.
Proof.
  eapply wp_mono.
  - refine (settings_copied_shallowly configure_ok example_caller 1 None None [] 2 None
              example_settings _ _ _ _ _ _ _); try reflexivity; simpl; eauto.
  - intros _ w' (v & Hv & _ & Hg & Hs & _). by exists v.
Defined.

(** The original C2 fails: the server name of the session is the caller's
    own host string, so when the caller overwrites that string after
    [ld_init] has returned, the session reads the new text. *)
Lemma settings_deep_copy_counterexample :
  wp (ld_init configure_ok (Some 1) (Some 2))
     (λ _ w', session_server (mem w') 1 = Some "dc1.example:636"%string) example_caller ∧
  wp (do_ ld_init configure_ok (Some 1) (Some 2); store 3 (PStr "elsewhere"))
     (λ _ w', session_server (mem w') 1 = Some "elsewhere"%string) example_caller.
Proof. split; vm_compute; reflexivity. Qed.

(** C6: after [ld_init] the configuration context has SASL options exactly
    when the settings ask for SASL; the options then name the SASL-simple
    mechanism if [simple_bind] is set and [GSSAPI] if not, hold a copy of
    the settings' password, [sasl_nocanon] true, the security properties
    [minssf=56] and the flag [LDAP_SASL_QUIET]; the three TLS paths are
    copies of the settings' exactly when the settings ask for TLS, and are
    left null otherwise; [chase_referrals] is false. *)
Theorem sasl_and_tls_options configure w out po c0 rest cl pc cfg :
  heap_okb w = true →
  mem w !! out = Some (Chunk po (PPtrs (c0 :: rest))) →
  mem w !! cl = Some (Chunk pc (PConfig cfg)) →
  null_or_readable (mem w) (ld_config.username cfg) →
  null_or_readable (mem w) (ld_config.base_dn cfg) →
  null_or_readable (mem w) (ld_config.password cfg) →
  (ld_config.use_tls cfg = true →
   null_or_readable (mem w) (ld_config.cacertfile cfg) ∧
   null_or_readable (mem w) (ld_config.certfile cfg) ∧
   null_or_readable (mem w) (ld_config.keyfile cfg)) →
  wp (ld_init configure (Some out) (Some cl))
     (λ _ w', ∃ v,
        read_session (mem w') out = Some v ∧
        (is_Some (sv_sasl v) ↔ ld_config.use_sasl cfg = true) ∧
        sasl_built (mem w) (mem w') cfg v ∧
        tls_built (mem w) (mem w') cfg v) w.
Proof.
  intros Hheap Ho Hc Hun Hbd Hpw Htls.
  eapply wp_mono; [by eapply ld_init_run|].
  intros _ w' (v & Hv & _ & _ & Hsasl & Ht & _).
  exists v. split; [done|]. split; [|done]. split.
  - intros [o Ho']. destruct Hsasl as (_ & Hs). rewrite Ho' in Hs. by destruct Hs.
  - intros Hs. destruct Hsasl as (_ & Hn). destruct (sv_sasl v); [done | congruence].
Qed.

Lemma sasl_and_tls_options_witness :
  wp (ld_init configure_ok (Some 1) (Some 2))
     (λ _ w', ∃ v,
        read_session (mem w') 1 = Some v ∧
        (is_Some (sv_sasl v) ↔ ld_config.use_sasl example_settings = true) ∧
        sasl_built (mem example_caller) (mem w') example_settings v ∧
        tls_built (mem example_caller) (mem w') example_settings v)
     example_caller.
Proof.
  refine (sasl_and_tls_options configure_ok example_caller 1 None None [] 2 None
            example_settings _ _ _ _ _ _ _); try reflexivity; simpl; eauto.
Defined.

(** C7: after [ld_init] the bind parameters name [cn=<username>,<base_dn>],
    a null username or base printed as [%s] prints it, and hold the
    password as a [berval]: length 0 and a null value when the settings
    have no password, and otherwise the length of the password and a copy
    of it. *)
Theorem bind_parameters configure w out po c0 rest cl pc cfg :
  heap_okb w = true →
  mem w !! out = Some (Chunk po (PPtrs (c0 :: rest))) →
  mem w !! cl = Some (Chunk pc (PConfig cfg)) →
  null_or_readable (mem w) (ld_config.username cfg) →
  null_or_readable (mem w) (ld_config.base_dn cfg) →
  null_or_readable (mem w) (ld_config.password cfg) →
  (ld_config.use_tls cfg = true →
   null_or_readable (mem w) (ld_config.cacertfile cfg) ∧
   null_or_readable (mem w) (ld_config.certfile cfg) ∧
   null_or_readable (mem w) (ld_config.keyfile cfg)) →
  wp (ld_init configure (Some out) (Some cl))
     (λ _ w', ∃ v u b,
        read_session (mem w') out = Some v ∧
        render (mem w) (ld_config.username cfg) = Some u ∧
        render (mem w) (ld_config.base_dn cfg) = Some b ∧
        str_at (mem w') (sasl_params.dn (sv_params v)) = Some ("cn=" +:+ u +:+ "," +:+ b) ∧
        match text (mem w) (ld_config.password cfg) with
        | None => sv_passwd v = berval.mk 0 CNull
        | Some pw =>
            berval.bv_len (sv_passwd v) = Z.of_nat (String.length pw) ∧
            str_copy (mem w') (sv_arena v) (berval.bv_val (sv_passwd v)) (Some pw)
        end) w.
Proof.
  intros Hheap Ho Hc Hun Hbd Hpw Htls.
  eapply wp_mono; [by eapply ld_init_run|].
  intros _ w' (v & Hv & _ & _ & _ & _ & ((u & b & Hu & Hb & l & Hdn & _ & Hl) & _ & _ & Hp) & _).
  exists v, u, b. repeat split; try done.
  rewrite Hdn. simpl. by rewrite Hl.
Qed.

Lemma bind_parameters_witness :
  wp (ld_init configure_ok (Some 1) (Some 2))
     (λ _ w', ∃ v u b,
        read_session (mem w') 1 = Some v ∧
        render (mem example_caller) (CLit "admin") = Some u ∧
        render (mem example_caller) (CLit "dc=example,dc=com") = Some b ∧
        str_at (mem w') (sasl_params.dn (sv_params v)) = Some ("cn=" +:+ u +:+ "," +:+ b) ∧
        berval.bv_len (sv_passwd v) = 6%Z ∧
        str_copy (mem w') (sv_arena v) (berval.bv_val (sv_passwd v)) (Some "s3cret"%string))
     example_caller.
Proof.
  refine (bind_parameters configure_ok example_caller 1 None None [] 2 None
            example_settings _ _ _ _ _ _ _); try reflexivity; simpl; eauto.
Defined.

(** ** Null arguments *)


Lemma check_string_pass string_ok p fn k w n :
  str_at (mem w) p = Some n → string_ok n = true →
  check_string string_ok p fn k w = k p w.
Proof.
  intros Hn Hok. destruct p as [|t|l]; simpl in Hn; [done | |].
  - injection Hn as ->. unfold check_string, bind, load_str, ret. by rewrite Hok.
  - destruct (mem w !! l) as [[par []]|] eqn:E; try done. injection Hn as ->.
    unfold check_string, bind, load_str, bind, load. rewrite E. simpl.
    unfold ret. by rewrite Hok.
Qed.






(** ** The host of a settings record *)

(** C5: the record that [ld_create_config] makes in a live context from
    a readable host name and a port, and the one that [ld_load_config]
    makes, in a live context or with none, from a file with a host and a
    base, hold as [host] the text [<hostname>:<port>] when the port is
    above zero, the port printed as the shortest decimal numeral that
    reads back as the port, and the bare host name when the port is zero
    or below. *)
Theorem host_with_port w :
  heap_okb w = true →
  let shown (name : string) (p : Z) : string :=
    if (0 <? p)%Z then name +:+ ":" +:+ fmt_d p else name in
  (∀ ctx host hostname port protocol_version base_dn username password simple_bind
     use_tls use_sasl use_anon timeout cacertfile certfile keyfile,
     is_Some (mem w !! ctx) →
     str_at (mem w) host = Some hostname →
     is_Some (str_at (mem w) base_dn) →
     null_or_readable (mem w) username →
     null_or_readable (mem w) password →
     null_or_readable (mem w) cacertfile →
     null_or_readable (mem w) certfile →
     null_or_readable (mem w) keyfile →
     wp (ld_create_config (Some ctx) host port protocol_version base_dn username
           password simple_bind use_tls use_sasl use_anon timeout cacertfile certfile
           keyfile)
        (λ r w', is_Some r ∧ settings_host w' r = Some (shown hostname port)) w) ∧
  (∀ config_read_file ctx filename cfg file_host,
     ctx_ok (mem w) ctx →
     config_read_file filename = Some cfg →
     config_lookup_string cfg "host" = Some file_host →
     is_Some (config_lookup_string cfg "base_dn") →
     wp (ld_load_config config_read_file ctx filename)
        (λ r w', is_Some r ∧
           settings_host w' r
           = Some (shown file_host (default 0%Z (config_lookup_int cfg "port")))) w) ∧
  (∀ port, ∃ d, NilZero.int_of_string (fmt_d port) = Some d ∧ Decimal.norm d = d ∧
                Z.of_int d = port).
Proof.
  intros Hheap shown.
  split; [|split].
  - intros. by apply ld_create_config_host.
  - intros. by apply ld_load_config_host.
  - intros port. apply fmt_d_decimal.
Qed.

Lemma host_with_port_witness :
  wp (ld_create_config (Some 2) (CLit "dc1.example") 636 3 (CLit "dc=example,dc=com")
        CNull CNull false false false true 0 CNull CNull CNull)
     (λ r w', is_Some r ∧ settings_host w' r = Some "dc1.example:636"%string)
     example_world ∧
  wp (ld_load_config (λ _, Some example_file) (Some 2) "libdomain.conf")
     (λ r w', is_Some r ∧ settings_host w' r = Some "dc2.example"%string)
     example_world ∧
  wp (ld_load_config (λ _, Some example_file) None "libdomain.conf")
     (λ r w', is_Some r ∧ settings_host w' r = Some "dc2.example"%string)
     example_world.
Proof.
  pose proof (host_with_port example_world eq_refl) as (Hcreate & Hload & _).
  split; [|split].
  - apply (Hcreate 2 (CLit "dc1.example") "dc1.example"%string 636%Z 3%Z
             (CLit "dc=example,dc=com") CNull CNull false false false true 0%Z
             CNull CNull CNull);
      [by eexists | reflexivity | by eexists | exact I..].
  - apply (Hload (λ _, Some example_file) (Some 2) "libdomain.conf"%string example_file
             "dc2.example"%string);
      [by eexists | reflexivity | vm_compute; reflexivity | vm_compute; by eexists].
  - apply (Hload (λ _, Some example_file) None "libdomain.conf"%string example_file
             "dc2.example"%string);
      [exact I | reflexivity | vm_compute; reflexivity | vm_compute; by eexists].
Defined.

(** ** The default tick *)

Section Ticks.

Variable csm_step : list event → csm_state → csm_state.

(** A tick never registers an event: it leaves the timers alone or
    removes its own. *)
Lemma tick_timers ctx ev w w' :
  connection_update csm_step ctx ev w = Done tt w' →
  timers w' = timers w ∨ timers w' = delete ev (timers w).
Proof.
  unfold connection_update, verto_get_private, csm_next_state, verto_del, deref,
    load_conn, load_state_machine, bind, load, store, emit, get_world, ret, undef,
    set_mem.
  destruct (timers w !! ev) as [t|] eqn:Et; [|done]. cbv beta iota.
  destruct (ev_private t) as [cl|]; [|done]. cbv beta iota.
  destruct (mem w !! cl) as [[pc []]|] eqn:Ec; try done.
  cbv beta iota. cbn [content mem].
  destruct (connection_ctx.state_machine c) as [sm|] eqn:Esm; [|done].
  cbv beta iota. cbn [content mem].
  destruct (mem w !! sm) as [[ps []]|] eqn:Es; try done.
  cbv beta iota. cbn [content mem parent timers brk log trace next_ev]. rewrite Es.
  cbv beta iota. cbn [content mem parent timers brk log trace next_ev].
  assert (sm ≠ cl) as Hne by (intros ->; rewrite Ec in Es; done).
  rewrite lookup_insert_ne by done. rewrite Ec.
  cbv beta iota. cbn [content mem parent timers brk log trace next_ev].
  rewrite Esm. cbv beta iota. cbn [content mem parent timers brk log trace next_ev].
  rewrite lookup_insert_eq.
  cbv beta iota. cbn [content mem parent timers brk log trace next_ev].
  destruct (is_terminal _).
  - cbn [timers]. rewrite Et. intros [= <-]. by right.
  - intros [= <-]. by left.
Qed.

Lemma fires_timers ev w w' : fires csm_step ev w w' → timers w' ⊆ timers w.
Proof.
  intros [w0 t w1 _ _ H]. apply tick_timers in H as [-> | ->];
    [done | apply delete_subseteq].
Qed.

Lemma loop_run_registered w evs w' :
  loop_run csm_step w evs w' → ∀ e, e ∈ evs → is_Some (timers w !! e).
Proof.
  induction 1 as [w | w ev w1 evs w2 Hf _ IH]; intros e He.
  - by apply elem_of_nil in He.
  - apply elem_of_cons in He as [-> | He].
    + destruct Hf as [w0 t w1' Ht _ _]. by eexists.
    + eapply lookup_weaken_is_Some; [by apply IH | by eapply fires_timers].
Qed.

Lemma install_default_run w h ph hd c pc cd b :
  mem w !! h = Some (Chunk ph (PHandle hd)) →
  ld_handle.connection_ctx hd = Some c →
  mem w !! c = Some (Chunk pc (PConn cd)) →
  connection_ctx.base cd = Some b →
  ld_install_default_handlers (Some h) w
  = Done tt (World (mem w) (brk w) (log w) (trace w)
               (<[next_ev w := VertoEv b VERTO_EV_FLAG_PERSIST cb_connection_update
                                 CONNECTION_UPDATE_INTERVAL (Some c)]> (timers w))
               (next_ev w + 1)).
Proof.
  intros Hh Hc Hcl Hb.
  unfold ld_install_default_handlers, connection_base, verto_add_timeout,
    verto_set_private, load_handle, load_conn, deref, bind, load, ret.
  rewrite Hh. cbv beta iota. cbn [content]. rewrite Hc. cbv beta iota. rewrite Hcl.
  cbv beta iota. cbn [content]. rewrite Hb. cbv beta iota.
  cbn [content mem parent timers brk log trace next_ev]. rewrite Hh.
  cbv beta iota. cbn [content mem parent timers brk log trace next_ev].
  rewrite lookup_insert_eq. cbv beta iota.
  cbn [content mem parent timers brk log trace next_ev ev_base ev_flags ev_callback
       ev_interval].
  by rewrite insert_insert_eq, Hc.
Qed.

Lemma connection_update_run ctx ev w t c pc cd sm ps s :
  timers w !! ev = Some t →
  ev_private t = Some c →
  mem w !! c = Some (Chunk pc (PConn cd)) →
  connection_ctx.state_machine cd = Some sm →
  mem w !! sm = Some (Chunk ps (PStateMachine (state_machine.mk s))) →
  let s' := csm_step (ev_csm_next_state (Some sm) :: trace w) s in
  connection_update csm_step ctx ev w
  = Done tt (World (<[sm := Chunk ps (PStateMachine (state_machine.mk s'))]> (mem w))
               (brk w) (log w) (ev_csm_next_state (Some sm) :: trace w)
               (if is_terminal s' then delete ev (timers w) else timers w)
               (next_ev w)).
Proof.
  intros Ht Hp Hc Hsm Hs s'.
  assert (sm ≠ c) as Hne by (intros ->; rewrite Hc in Hs; done).
  unfold connection_update, verto_get_private, csm_next_state, verto_del, deref,
    load_conn, load_state_machine, bind, load, store, emit, get_world, ret, undef,
    set_mem.
  rewrite Ht. cbv beta iota. rewrite Hp. cbv beta iota. rewrite Hc.
  cbv beta iota. cbn [content mem]. rewrite Hsm.
  cbv beta iota. cbn [content mem parent timers brk log trace next_ev]. rewrite Hs.
  cbv beta iota. cbn [content mem parent timers brk log trace next_ev]. rewrite Hs.
  cbv beta iota. cbn [content mem parent timers brk log trace next_ev state_machine.state].
  rewrite lookup_insert_ne by done. rewrite Hc.
  cbv beta iota. cbn [content mem parent timers brk log trace next_ev]. rewrite Hsm.
  cbv beta iota. cbn [content mem parent timers brk log trace next_ev].
  rewrite lookup_insert_eq.
  cbv beta iota. cbn [content mem parent timers brk log trace next_ev state_machine.state].
  fold s'. destruct (is_terminal s'); [|done].
  cbn [timers]. by rewrite Ht.
Qed.

End Ticks.

(** C9: [ld_install_default_handlers] registers, on the event base of the
    connection, a persistent timer of 1000 milliseconds that calls
    [connection_update] with the connection context; each time the timer
    fires, [connection_update] makes one call of [csm_next_state]; when
    the state after the call is [RUN] or [ERROR] it deletes the timer, and
    from then on no run of the loop fires that timer; in every other
    state it leaves the timers as they are. *)
Theorem default_tick csm_step w h ph hd c pc cd b w1 ctx ev t c1 pc1 cd1 sm ps s :
  mem w !! h = Some (Chunk ph (PHandle hd)) →
  ld_handle.connection_ctx hd = Some c →
  mem w !! c = Some (Chunk pc (PConn cd)) →
  connection_ctx.base cd = Some b →
  timers w1 !! ev = Some t →
  ev_private t = Some c1 →
  mem w1 !! c1 = Some (Chunk pc1 (PConn cd1)) →
  connection_ctx.state_machine cd1 = Some sm →
  mem w1 !! sm = Some (Chunk ps (PStateMachine (state_machine.mk s))) →
  wp (ld_install_default_handlers (Some h))
     (λ _ w',
        timers w' = <[next_ev w := VertoEv b VERTO_EV_FLAG_PERSIST cb_connection_update
                                     1000 (Some c)]> (timers w) ∧
        mem w' = mem w ∧ trace w' = trace w) w ∧
  wp (connection_update csm_step ctx ev)
     (λ _ w2,
        let s' := csm_step (trace w2) s in
        trace w2 = ev_csm_next_state (Some sm) :: trace w1 ∧
        mem w2 !! sm = Some (Chunk ps (PStateMachine (state_machine.mk s'))) ∧
        (s' = LDAP_CONNECTION_STATE_RUN ∨ s' = LDAP_CONNECTION_STATE_ERROR →
         timers w2 = delete ev (timers w1) ∧
         ∀ evs w3, loop_run csm_step w2 evs w3 → ev ∉ evs) ∧
        (s' ≠ LDAP_CONNECTION_STATE_RUN → s' ≠ LDAP_CONNECTION_STATE_ERROR →
         timers w2 = timers w1)) w1.
Proof.
  intros Hh Hc Hcl Hb Ht Hp Hc1 Hsm Hs. split.
  - unfold wp. by rewrite (install_default_run w h ph hd c pc cd b).
  - unfold wp. rewrite (connection_update_run csm_step ctx ev w1 t c1 pc1 cd1 sm ps s)
      by done.
    simpl. generalize (csm_step (ev_csm_next_state (Some sm) :: trace w1) s).
    intros s'. split; [done|]. split; [by rewrite lookup_insert_eq|]. split.
    + intros Hs'.
      assert (is_terminal s' = true) as Hterm by (by destruct Hs' as [-> | ->]).
      rewrite Hterm. split; [done|].
      intros evs w3 Hrun Hin.
      apply (loop_run_registered _ _ _ _ Hrun) in Hin as [x Hx].
      simpl in Hx. by rewrite lookup_delete_eq in Hx.
    + intros Hrun Herr. by destruct s'.
Qed.

Lemma default_tick_witness :
  wp (ld_install_default_handlers (Some 4))
     (λ _ w', timers w' !! 1 = Some (VertoEv 101 VERTO_EV_FLAG_PERSIST cb_connection_update
                                       1000 (Some 8)))
     example_session ∧
  wp (connection_update example_step None 1)
     (λ _ w2, trace w2 = ev_csm_next_state (Some 19) :: trace example_ticking ∧
              mem w2 !! 19 = Some (Chunk (Some 5)
                                     (PStateMachine
                                        (state_machine.mk LDAP_CONNECTION_STATE_BIND))) ∧
              timers w2 = timers example_ticking)
     example_ticking ∧
  wp (connection_update example_step None 1)
     (λ _ w2, mem w2 !! 19 = Some (Chunk (Some 5)
                                     (PStateMachine
                                        (state_machine.mk LDAP_CONNECTION_STATE_RUN))) ∧
              is_Some (timers example_bound !! 1) ∧
              timers w2 !! 1 = None ∧
              ∀ evs w3, loop_run example_step w2 evs w3 → 1 ∉ evs)
     example_bound.
Proof.
  destruct (default_tick example_step example_session 4 None
              (ld_handle.mk (Some 5) (Some 6) (Some 7) (Some 8) (Some 9)) 8 (Some 5)
              (connection_ctx.mk (Some 100) (Some 101) (Some 19) (Some 15) None (Some 4))
              101 example_ticking None 1
              (VertoEv 101 VERTO_EV_FLAG_PERSIST cb_connection_update 1000 (Some 8))
              8 (Some 5)
              (connection_ctx.mk (Some 100) (Some 101) (Some 19) (Some 15) None (Some 4))
              19 (Some 5) LDAP_CONNECTION_STATE_INIT)
    as (H1 & H2).
  1-9: vm_compute; reflexivity.
  destruct (default_tick example_step example_session 4 None
              (ld_handle.mk (Some 5) (Some 6) (Some 7) (Some 8) (Some 9)) 8 (Some 5)
              (connection_ctx.mk (Some 100) (Some 101) (Some 19) (Some 15) None (Some 4))
              101 example_bound None 1
              (VertoEv 101 VERTO_EV_FLAG_PERSIST cb_connection_update 1000 (Some 8))
              8 (Some 5)
              (connection_ctx.mk (Some 100) (Some 101) (Some 19) (Some 15) None (Some 4))
              19 (Some 5) LDAP_CONNECTION_STATE_BIND)
    as (_ & H3).
  1-9: vm_compute; reflexivity.
  split; [|split].
  - eapply wp_mono; [exact H1|]. intros _ w' (-> & _). vm_compute. reflexivity.
  - eapply wp_mono; [exact H2|]. intros _ w2 (Htr & Hst & _ & Hkeep).
    split; [exact Htr|]. split; [exact Hst|]. by apply Hkeep.
  - eapply wp_mono; [exact H3|]. intros _ w2 (_ & Hst & Hstop & _).
    destruct Hstop as (Htm & Hnever); [by left|].
    split; [exact Hst|]. split; [vm_compute; by eexists|].
    split; [|exact Hnever]. rewrite Htm. apply lookup_delete_eq.
Defined.

(** * More on the code *)

(** ** The two constructors of a settings record *)

Lemma grown_under_refl ctx m : grown_under ctx m m.
Proof. split; [done|]. intros l c Hl Hn. congruence. Qed.

Lemma grown_under_insert ctx m0 m l v :
  grown_under ctx m0 m → m0 !! l = None → m !! l = None →
  grown_under ctx m0 (<[l := Chunk ctx v]> m).
Proof.
  intros [Hsub Hg] Hl Hm. split.
  - etrans; [exact Hsub|]. by apply insert_subseteq.
  - intros k c. rewrite lookup_insert. case_decide; [by intros [= <-] | apply Hg].
Qed.

Lemma grown_under_update ctx m0 m l c v :
  grown_under ctx m0 m → m0 !! l = None → m !! l = Some c → parent c = ctx →
  grown_under ctx m0 (<[l := Chunk ctx v]> m).
Proof.
  intros [Hsub Hg] Hl Hm Hc. split.
  - apply map_subseteq_spec. intros k d Hk.
    rewrite lookup_insert_ne by congruence. by apply (lookup_weaken _ _ _ _ Hk Hsub).
  - intros k d. rewrite lookup_insert. case_decide; [by intros [= <-] | apply Hg].
Qed.

(** The last store is a stack of chunks put under [ctx] at locations the
    first store did not reach. *)
Ltac solve_grown :=
  world_simpl;
  lazymatch goal with
  | |- grown_under _ ?m ?m => apply grown_under_refl
  | |- grown_under ?ctx ?m0 (<[?l := Chunk ?ctx ?v]> ?m) =>
      match goal with
      | Hk : keys_ok m0 ?b |- _ =>
          assert (m0 !! l = None) by (apply (fresh_none m0 b l Hk); lia)
      end;
      first [ apply grown_under_insert;
              [solve_grown | assumption | heap_lookup; reflexivity]
            | eapply grown_under_update;
              [solve_grown | assumption | heap_lookup; reflexivity | reflexivity] ]
  end.

Lemma wp_talloc_strndup_fresh ctx p n (Q : charp → world → Prop) w s :
  str_at (mem w) p = Some s → ctx_ok (mem w) ctx →
  wp (fresh_chunk ctx (PStr (String.substring 0 n s))) (λ l, Q (CAt l)) w →
  wp (talloc_strndup ctx p n) Q w.
Proof. intros Hs Hc HQ. by eapply wp_talloc_strndup. Qed.

Lemma wp_strndup_or_null_fresh ctx p (Q : charp → world → Prop) w s :
  str_at (mem w) p = Some s → ctx_ok (mem w) ctx →
  wp (fresh_chunk ctx (PStr s)) (λ l, Q (CAt l)) w →
  wp (strndup_or_null ctx p) Q w.
Proof. intros Hs Hc HQ. by eapply wp_strndup_or_null. Qed.

Lemma wp_strndup_or_empty_fresh ctx p m0 (Q : charp → world → Prop) w :
  null_or_readable m0 p → str_pres m0 (mem w) → ctx_ok (mem w) ctx →
  wp (fresh_chunk ctx (PStr (default ""%string (str_at m0 p)))) (λ l, Q (CAt l)) w →
  wp (strndup_or_empty ctx p) Q w.
Proof.
  intros Hp Hpres Hc HQ. unfold strndup_or_empty.
  destruct (charp_is_null p) eqn:Hn.
  - destruct p; try done.
    apply wp_bind. eapply (wp_strlen (CLit "")); [done|].
    by eapply (wp_talloc_strndup ctx (CLit "")).
  - assert (∃ s, str_at m0 p = Some s) as [s Hs] by (destruct p; done).
    rewrite Hs in HQ. simpl in HQ.
    apply wp_bind. eapply wp_strlen; [by apply Hpres|].
    eapply wp_talloc_strndup; [by apply Hpres | done |]. by rewrite substring_all.
Qed.

Lemma wp_strndup_or_empty_lit_fresh ctx s (Q : charp → world → Prop) w :
  ctx_ok (mem w) ctx →
  wp (fresh_chunk ctx (PStr s)) (λ l, Q (CAt l)) w →
  wp (strndup_or_empty ctx (CLit s)) Q w.
Proof. intros Hc HQ. by apply wp_strndup_or_empty_lit. Qed.

(** Steps of the constructors, on top of the steps of [go]. *)
Ltac settings_step :=
  world_simpl;
  lazymatch goal with
  | |- wp (talloc_strndup _ _ _) _ _ =>
      eapply wp_talloc_strndup_fresh; [find_str | find_ctx |]
  | |- wp (strndup_or_null _ CNull) _ _ => apply wp_ret
  | |- wp (strndup_or_null _ _) _ _ =>
      eapply wp_strndup_or_null_fresh; [find_str | find_ctx |]
  | |- wp (strndup_or_empty _ (CLit _)) _ _ =>
      eapply wp_strndup_or_empty_lit_fresh; [find_ctx |]
  | |- wp (strndup_or_empty _ _) _ _ =>
      match goal with
      | Hp : str_pres ?m0 _ |- _ =>
          eapply (wp_strndup_or_empty_fresh _ _ m0); [eassumption | exact Hp | find_ctx |]
      end
  | |- wp (get_config_optional_string _ _ _) _ _ =>
      apply wp_get_config_optional_string; intros ?
  | |- wp (get_config_optional_int _ _ _) _ _ =>
      apply wp_get_config_optional_int; intros ?
  | |- wp (get_config_optional_bool _ _ _) _ _ =>
      apply wp_get_config_optional_bool; intros ?
  | |- _ => go_step
  end.

Ltac settings_go := repeat settings_step.

Ltac solve_grown_fast :=
  world_simpl;
  repeat first
    [ apply grown_under_refl
    | match goal with
      | Hk : keys_ok ?m0 ?b |- grown_under ?ctx ?m0 (<[?l := Chunk ?ctx ?v]> ?m) =>
          apply grown_under_insert;
            [| apply (fresh_none m0 b l Hk); loc_le
             | heap_find; apply (fresh_none m0 b l Hk); loc_le ]
      end ].


(** X1: the record that [ld_create_config] makes reads back as its
    arguments: the host with the port, the version, the base, the flags
    and the timeout as given, user name and password null when they were
    null, and each certificate path the empty string when it was null;
    the caller's store is kept, every chunk made hangs under the context,
    and nothing is logged. *)
Theorem ld_create_config_fields w ctx host hostname port protocol_version
    base_dn bd username password simple_bind use_tls use_sasl use_anon timeout
    cacertfile certfile keyfile :
  heap_okb w = true →
  is_Some (mem w !! ctx) →
  str_at (mem w) host = Some hostname →
  str_at (mem w) base_dn = Some bd →
  null_or_readable (mem w) username →
  null_or_readable (mem w) password →
  null_or_readable (mem w) cacertfile →
  null_or_readable (mem w) certfile →
  null_or_readable (mem w) keyfile →
  wp (ld_create_config (Some ctx) host port protocol_version base_dn username password
        simple_bind use_tls use_sasl use_anon timeout cacertfile certfile keyfile)
     (λ r w',
        read_settings (mem w') r
        = Some (SettingsView (Some (host_text hostname port)) protocol_version (Some bd)
                  (str_at (mem w) username) (str_at (mem w) password)
                  simple_bind use_tls use_sasl use_anon timeout
                  (Some (default ""%string (str_at (mem w) cacertfile)))
                  (Some (default ""%string (str_at (mem w) certfile)))
                  (Some (default ""%string (str_at (mem w) keyfile)))) ∧
        grown_under (Some ctx) (mem w) (mem w') ∧
        same_io w w') w.
Proof.
  intros Hok [cx Hc] Hh Hbd Hu Hp Hca Hce Hke.
  apply heap_okb_keys in Hok.
  assert (ctx < brk w) as Hcb by (by apply (Hok _ _ Hc)).
  pose proof (str_pres_refl (mem w)) as Hpres.
  split_optional Hu; split_optional Hp;
    unfold ld_create_config, host_text; destruct (0 <? port)%Z.
  all: settings_go.
  all: (split; [|split; [solve_grown_fast | done]]).
  all: unfold read_settings; heap_find; world_simpl; cbn [str_at];
    repeat (heap_find; world_simpl); rewrite ?substring_all, ?Hu, ?Hp.
  all: reflexivity.
Qed.

Lemma ld_create_config_fields_witness :
  wp (ld_create_config (Some 2) (CLit "dc1.example") 636 3 (CLit "dc=example,dc=com")
        (CLit "admin") CNull true false false false 30 CNull (CLit "cert.pem") CNull)
     (λ r w',
        read_settings (mem w') r
        = Some (SettingsView (Some "dc1.example:636"%string) 3
                  (Some "dc=example,dc=com"%string) (Some "admin"%string) None
                  true false false false 30
                  (Some ""%string) (Some "cert.pem"%string) (Some ""%string)) ∧
        grown_under (Some 2) (mem example_world) (mem w') ∧
        same_io example_world w')
     example_world.
Proof.
  refine (ld_create_config_fields example_world 2 (CLit "dc1.example") "dc1.example" 636 3
            (CLit "dc=example,dc=com") "dc=example,dc=com" (CLit "admin") CNull
            true false false false 30 CNull (CLit "cert.pem") CNull
            _ _ _ _ _ _ _ _ _); try reflexivity; simpl; eauto.
Defined.

Lemma str_at_of_lookup m (o : option string) : str_at m (from_option CLit CNull o) = o.
Proof. by destruct o. Qed.

(** X2: the record that [ld_load_config] makes from a file with a host and
    a base reads back as the file: a key that is absent leaves version 3,
    port and timeout 0, the flags false, user name and password null, and
    the certificate paths empty; the caller's store is kept and every
    chunk made hangs under the context. *)
Theorem ld_load_config_fields config_read_file w ctx filename cfg hostname bd :
  heap_okb w = true →
  ctx_ok (mem w) ctx →
  config_read_file filename = Some cfg →
  config_lookup_string cfg "host" = Some hostname →
  config_lookup_string cfg "base_dn" = Some bd →
  wp (ld_load_config config_read_file ctx filename)
     (λ r w',
        read_settings (mem w') r
        = Some (SettingsView
                  (Some (host_text hostname (default 0%Z (config_lookup_int cfg "port"))))
                  (default LDAP_VERSION3 (config_lookup_int cfg "protocol_version"))
                  (Some bd)
                  (config_lookup_string cfg "username")
                  (config_lookup_string cfg "password")
                  (default false (config_lookup_bool cfg "simple_bind"))
                  (default false (config_lookup_bool cfg "use_tls"))
                  (default false (config_lookup_bool cfg "use_sasl"))
                  (default false (config_lookup_bool cfg "use_anon"))
                  (default 0%Z (config_lookup_int cfg "timeout"))
                  (Some (default ""%string (config_lookup_string cfg "ca_cert_file")))
                  (Some (default ""%string (config_lookup_string cfg "cert_file")))
                  (Some (default ""%string (config_lookup_string cfg "key_file")))) ∧
        grown_under ctx (mem w) (mem w') ∧
        trace w' = trace w ∧ timers w' = timers w) w.
Proof.
  intros Hok Hctx Hfile Hhost Hbd.
  apply heap_okb_keys in Hok.
  pose proof (str_pres_refl (mem w)) as Hpres.
  pose proof (null_or_readable_lit (config_lookup_string cfg "ca_cert_file") (mem w)).
  pose proof (null_or_readable_lit (config_lookup_string cfg "cert_file") (mem w)).
  pose proof (null_or_readable_lit (config_lookup_string cfg "key_file") (mem w)).
  destruct ctx as [ctx|];
    [destruct Hctx as [cx Hcx]; assert (ctx < brk w) by (by apply (Hok _ _ Hcx))|].
  all: unfold ld_load_config, host_text; rewrite Hfile, Hhost, Hbd.
  all: settings_go.
  all: destruct (0 <? default 0 (config_lookup_int cfg "port"))%Z; settings_go.
  all: destruct (config_lookup_string cfg "username"); simpl from_option; settings_go.
  all: destruct (config_lookup_string cfg "password"); simpl from_option; settings_go.
  all: (split; [|split; [solve_grown_fast | done]]).
  all: unfold read_settings; heap_find; world_simpl; cbn [str_at];
    repeat (heap_find; world_simpl); rewrite ?substring_all, ?str_at_of_lookup.
  all: reflexivity.
Qed.

Lemma ld_load_config_fields_witness :
  wp (ld_load_config (λ _, Some example_file) None "libdomain.conf")
     (λ r w',
        read_settings (mem w') r
        = Some (SettingsView (Some "dc2.example"%string) 3
                  (Some "dc=example,dc=com"%string) None None
                  false false false false 0
                  (Some ""%string) (Some ""%string) (Some ""%string)) ∧
        grown_under None (mem example_world) (mem w') ∧
        trace w' = trace example_world ∧ timers w' = timers example_world)
     example_world.
Proof.
  refine (ld_load_config_fields (λ _, Some example_file) example_world None
            "libdomain.conf" example_file "dc2.example" "dc=example,dc=com"
            _ _ _ _ _); try reflexivity; vm_compute; reflexivity.
Defined.

(** ** Constructors that give up *)

Ltac run_to_undef :=
  first [ reflexivity | apply undef_after; settings_go; run_to_undef ].

(** X3: [ld_create_config] takes the length of the base without testing
    it: with a live context and a host that can be printed, a null base is
    undefined behaviour, where a null user name, password or certificate
    path is not. *)
Theorem ld_create_config_null_base w ctx host hostname port protocol_version username
    password simple_bind use_tls use_sasl use_anon timeout cacertfile certfile keyfile :
  heap_okb w = true →
  is_Some (mem w !! ctx) →
  render (mem w) host = Some hostname →
  ld_create_config (Some ctx) host port protocol_version CNull username password
    simple_bind use_tls use_sasl use_anon timeout cacertfile certfile keyfile w
  = Undef.
Proof.
  intros Hok [cx Hc] Hh.
  apply heap_okb_keys in Hok.
  assert (ctx < brk w) as Hcb by (by apply (Hok _ _ Hc)).
  pose proof (str_pres_refl (mem w)) as Hpres.
  unfold ld_create_config.
  destruct (0 <? port)%Z; run_to_undef.
Qed.


Lemma ld_create_config_null_base_witness :
  ld_create_config (Some 2) (CLit "dc1.example") 636 3 CNull CNull CNull
    false false false false 0 CNull CNull CNull example_world
  = Undef.
Proof.
  refine (ld_create_config_null_base example_world 2 (CLit "dc1.example") "dc1.example"
            636 3 CNull CNull false false false false 0 CNull CNull CNull _ _ _);
    try reflexivity. by eexists.
Defined.

(** X4: [ld_load_config] answers null, with an error as the last line of
    the log, when the file cannot be read and when the file has no host or
    no base; the record it allocated first stays in the context, and the
    caller's store is kept. *)
Theorem ld_load_config_gives_up config_read_file w ctx filename :
  heap_okb w = true →
  ctx_ok (mem w) ctx →
  (config_read_file filename = None ∨
   ∃ cfg, config_read_file filename = Some cfg ∧
          (config_lookup_string cfg "host" = None ∨
           config_lookup_string cfg "base_dn" = None)) →
  wp (ld_load_config config_read_file ctx filename)
     (λ r w',
        r = None ∧
        (∃ line rest, log w' = ld_error line :: rest) ∧
        mem w ⊆ mem w' ∧
        (∃ c, mem w' !! brk w = Some c ∧ parent c = ctx) ∧
        trace w' = trace w) w.
Proof.
  intros Hok Hctx Hbad.
  apply heap_okb_keys in Hok.
  pose proof (str_pres_refl (mem w)) as Hpres.
  destruct ctx as [ctx|];
    [destruct Hctx as [cx Hcx]; assert (ctx < brk w) by (by apply (Hok _ _ Hcx))|].
  all: unfold ld_load_config.
  all: destruct Hbad as [-> | (cfg & -> & [-> | Hb])].
  all: try (destruct (config_lookup_string cfg "host"); rewrite ?Hb).
  all: settings_go.
  all: try (destruct (0 <? default 0 (config_lookup_int cfg "port"))%Z; settings_go).
  all: world_simpl; (split; [done|]); (split; [by do 2 eexists|]).
  all: (split; [|split; [|done]]).
  all: try (eexists; split; [heap_find; reflexivity | reflexivity]).
  all: try done.
  all: repeat (apply insert_subseteq_r; [apply (fresh_none _ _ _ Hok); loc_le|]); done.
Qed.

Lemma ld_load_config_gives_up_witness :
  wp (ld_load_config (λ _, Some (delete "base_dn"%string example_file)) (Some 2)
        "libdomain.conf")
     (λ r w', r = None ∧ (∃ line rest, log w' = ld_error line :: rest) ∧
              mem example_world ⊆ mem w' ∧
              (∃ c, mem w' !! brk example_world = Some c ∧ parent c = Some 2) ∧
              trace w' = trace example_world)
     example_world.
Proof.
  refine (ld_load_config_gives_up (λ _, Some (delete "base_dn"%string example_file))
            example_world (Some 2) "libdomain.conf" _ _ _);
    [reflexivity | by eexists |].
  right. eexists. split; [reflexivity|]. right. vm_compute. reflexivity.
Defined.

(** ** Closing a session *)



Lemma under_top m a n l c :
  m !! l = Some c → parent c = None → l ≠ a → under m a n l = false.
Proof.
  intros Hl Hc Hne. destruct c as [par v]. simpl in Hc. subst par.
  destruct n; simpl; rewrite ?Hl; rewrite (proj2 (N.eqb_neq l a) Hne); done.
Qed.

(** What [ld_free] leaves of a world whose handle and arena are live. *)
Lemma ld_free_run w h hd a pa :
  mem w !! h = Some (Chunk None (PHandle hd)) →
  ld_handle.talloc_ctx hd = Some a →
  mem w !! a = Some (Chunk pa PCtx) →
  ld_free (Some h) w
  = Done tt
      (World (delete h (filter (λ kv : loc * chunk,
                                  under (mem w) a (size (mem w)) kv.1 = false) (mem w)))
             (brk w) (log w)
             (ev_connection_close (ld_handle.connection_ctx hd) :: trace w)
             (timers w) (next_ev w)).
Proof.
  intros Hh Ha Hal.
  assert (h ≠ a) as Hne by (intros ->; rewrite Hal in Hh; done).
  assert (filter (λ kv : loc * chunk, under (mem w) a (size (mem w)) kv.1 = false) (mem w)
          !! h = Some (Chunk None (PHandle hd))) as Hkept.
  { apply map_lookup_filter_Some. split; [done|]. simpl. by eapply under_top. }
  unfold ld_free, load_handle, connection_close, emit, talloc_free, free, bind,
    load, ret, set_mem.
  rewrite Hh. cbv beta iota. cbn [content mem]. rewrite Ha. cbn [mem].
  rewrite Hal. cbv beta iota. cbn [mem brk log trace timers next_ev].
  rewrite Hkept. done.
Qed.



(** ** Handlers *)

Lemma timers_okb_fresh w : timers_okb w = true → timers w !! next_ev w = None.
Proof.
  unfold timers_okb. rewrite forallb_forall. intros H.
  destruct (timers w !! next_ev w) as [t|] eqn:E; [|done].
  apply elem_of_map_to_list, list_elem_of_In, H in E. simpl in E.
  apply N.ltb_lt in E. lia.
Qed.

Lemma timers_okb_below w e t : timers_okb w = true → timers w !! e = Some t → e < next_ev w.
Proof.
  unfold timers_okb. rewrite forallb_forall. intros H E.
  apply elem_of_map_to_list, list_elem_of_In, H in E. simpl in E. by apply N.ltb_lt in E.
Qed.

(** X6: [ld_install_handler] registers one more persistent timer, on the
    event base of the connection, with the caller's callback and interval
    and the connection context as its private data; the events registered
    before stay as they were, event numbers are not used twice, and the
    store and the trace are not touched. *)
Theorem ld_install_handler_registers w h ph hd c pc cd b callback interval :
  timers_okb w = true →
  mem w !! h = Some (Chunk ph (PHandle hd)) →
  ld_handle.connection_ctx hd = Some c →
  mem w !! c = Some (Chunk pc (PConn cd)) →
  connection_ctx.base cd = Some b →
  wp (ld_install_handler (Some h) (Some callback) interval)
     (λ _ w',
        timers w' !! next_ev w
        = Some (VertoEv b VERTO_EV_FLAG_PERSIST callback interval (Some c)) ∧
        (∀ e, e ≠ next_ev w → timers w' !! e = timers w !! e) ∧
        timers w ⊆ timers w' ∧
        timers_okb w' = true ∧
        mem w' = mem w ∧ trace w' = trace w ∧ log w' = log w) w.
Proof.
  intros Hok Hh Hc Hcl Hb.
  pose proof (timers_okb_fresh _ Hok) as Hfresh.
  unfold wp, ld_install_handler, connection_base, verto_add_timeout,
    verto_set_private, load_handle, load_conn, deref, bind, load, ret.
  rewrite Hh. cbv beta iota. cbn [content]. rewrite Hc. cbv beta iota. rewrite Hcl.
  cbv beta iota. cbn [content]. rewrite Hb. cbv beta iota.
  cbn [content mem parent timers brk log trace next_ev]. rewrite Hh.
  cbv beta iota. cbn [content mem parent timers brk log trace next_ev].
  rewrite lookup_insert_eq. cbv beta iota.
  cbn [content mem parent timers brk log trace next_ev ev_base ev_flags ev_callback
       ev_interval].
  rewrite insert_insert_eq, Hc.
  split; [by rewrite lookup_insert_eq|].
  split; [by intros e He; rewrite lookup_insert_ne|].
  split; [by apply insert_subseteq|].
  split; [|done].
  unfold timers_okb. cbn [timers next_ev]. apply forallb_forall.
  intros [e t] Hin. apply list_elem_of_In, elem_of_map_to_list in Hin. simpl.
  apply N.ltb_lt. apply lookup_insert_Some in Hin as [[<- _] | [_ Hin]]; [lia|].
  pose proof (timers_okb_below _ _ _ Hok Hin). lia.
Qed.

Lemma ld_install_handler_registers_witness :
  wp (ld_install_handler (Some 4) (Some (cb_user 7)) 250)
     (λ _ w',
        timers w' !! 2 = Some (VertoEv 101 VERTO_EV_FLAG_PERSIST (cb_user 7) 250 (Some 8)) ∧
        timers example_ticking ⊆ timers w')
     example_ticking.
Proof.
  eapply wp_mono.
  - refine (ld_install_handler_registers example_ticking 4 None
              (ld_handle.mk (Some 5) (Some 6) (Some 7) (Some 8) (Some 9)) 8 (Some 5)
              (connection_ctx.mk (Some 100) (Some 101) (Some 19) (Some 15) None (Some 4))
              101 (cb_user 7) 250 _ _ _ _ _); vm_compute; reflexivity.
  - intros _ w' (Hnew & _ & Hsub & _). split; [exact Hnew | exact Hsub].
Defined.

(** X7: [ld_install_error_handler] stores the callback in the connection
    context of the handle and touches nothing else; without a callback it
    logs one line and stores nothing. *)
Theorem ld_install_error_handler_stores w h ph hd c pc cd callback :
  mem w !! h = Some (Chunk ph (PHandle hd)) →
  ld_handle.connection_ctx hd = Some c →
  mem w !! c = Some (Chunk pc (PConn cd)) →
  ld_install_error_handler (Some h) (Some callback) w
  = Done tt (set_mem (<[c := Chunk pc (PConn (connection_ctx.set_on_error_operation
                                                (Some callback) cd))]> (mem w)) w) ∧
  only_logs (ld_install_error_handler (Some h) None w) w.
Proof.
  intros Hh Hc Hcl. split; [|by eexists].
  unfold ld_install_error_handler, update_conn, load_handle, load_conn, deref, bind,
    load, store, ret.
  rewrite Hh. cbv beta iota. cbn [content]. rewrite Hc. cbv beta iota. rewrite Hcl.
  cbv beta iota. cbn [content]. by rewrite Hcl.
Qed.

Lemma ld_install_error_handler_stores_witness :
  wp (ld_install_error_handler (Some 4) (Some 77))
     (λ _ w', ∃ cd, mem w' !! 8 = Some (Chunk (Some 5) (PConn cd)) ∧
                    connection_ctx.on_error_operation cd = Some 77)
     example_session.
Proof.
  destruct (ld_install_error_handler_stores example_session 4 None
              (ld_handle.mk (Some 5) (Some 6) (Some 7) (Some 8) (Some 9)) 8 (Some 5)
              (connection_ctx.mk (Some 100) (Some 101) (Some 19) (Some 15) None (Some 4))
              77) as [H _]; [vm_compute; reflexivity..|].
  unfold wp. rewrite H. eexists. split; [apply lookup_insert_eq | reflexivity].
Defined.

(** ** [ld_init] without settings *)

(** X8: given no settings, [ld_init] has already put a new block in the
    caller's handle variable when it logs its error: the variable is not
    null afterwards, no session is behind it, and nothing else of the
    store is touched and no call is made. *)
Theorem ld_init_without_settings configure w out po c0 rest :
  heap_okb w = true →
  mem w !! out = Some (Chunk po (PPtrs (c0 :: rest))) →
  wp (ld_init configure (Some out) None)
     (λ _ w',
        mem w' !! out = Some (Chunk po (PPtrs (Some (brk w) :: rest))) ∧
        (∃ c, mem w' !! brk w = Some c ∧ parent c = None) ∧
        (∀ l, l ≠ out → l ≠ brk w → mem w' !! l = mem w !! l) ∧
        log w' = ld_error "Config is invalid!" :: log w ∧
        trace w' = trace w ∧ timers w' = timers w) w.
Proof.
  intros Hok Ho. apply heap_okb_keys in Hok.
  assert (out < brk w) as Hob by (by apply (Hok _ _ Ho)).
  pose proof (str_pres_refl (mem w)) as Hp.
  unfold ld_init. go. rewrite decide_True by (simpl; lia). go.
  split; [by heap_find|]. split; [eexists; split; [by heap_find | done]|].
  split; [|done]. intros l Hl Hb. world_simpl. by rewrite !lookup_insert_ne by congruence.
Qed.

Lemma ld_init_without_settings_witness :
  wp (ld_init configure_ok (Some 1) None)
     (λ _ w', mem w' !! 1 = Some (Chunk None (PPtrs [Some 4])) ∧
              log w' = [ld_error "Config is invalid!"] ∧ trace w' = [])
     example_caller.
Proof.
  eapply wp_mono.
  - refine (ld_init_without_settings configure_ok example_caller 1 None None [] _ _);
      reflexivity.
  - intros _ w' (Hout & _ & _ & Hlog & Htr & _). done.
Defined.

(** ** Runs of the event loop *)

(** What a tick that returned has read: the timer, the connection behind
    its private pointer, and the state machine of that connection. *)
Lemma tick_reads csm_step ctx ev w w' :
  connection_update csm_step ctx ev w = Done tt w' →
  ∃ t c pc cd sm ps s,
    timers w !! ev = Some t ∧ ev_private t = Some c ∧
    mem w !! c = Some (Chunk pc (PConn cd)) ∧
    connection_ctx.state_machine cd = Some sm ∧
    mem w !! sm = Some (Chunk ps (PStateMachine (state_machine.mk s))).
Proof.
  unfold connection_update, verto_get_private, csm_next_state, verto_del, deref,
    load_conn, load_state_machine, bind, load, store, emit, get_world, ret, undef,
    set_mem.
  destruct (timers w !! ev) as [t|] eqn:Et; [|done]. cbv beta iota.
  destruct (ev_private t) as [cl|] eqn:Ep; [|done]. cbv beta iota.
  destruct (mem w !! cl) as [[pc []]|] eqn:Ec; try done.
  cbv beta iota. cbn [content mem].
  destruct (connection_ctx.state_machine c) as [sm|] eqn:Esm; [|done].
  cbv beta iota. cbn [content mem].
  destruct (mem w !! sm) as [[ps []]|] eqn:Es; try done.
  intros _. destruct s as [s]. by exists t, cl, pc, c, sm, ps, s.
Qed.

(** What one tick does, read off a tick that returned. *)
Lemma tick_effect csm_step ctx ev w w' :
  connection_update csm_step ctx ev w = Done tt w' →
  ∃ sm, trace w' = ev_csm_next_state (Some sm) :: trace w ∧
        is_Some (mem w !! sm) ∧
        (∀ l, l ≠ sm → mem w' !! l = mem w !! l) ∧
        is_Some (mem w' !! sm) ∧
        brk w' = brk w ∧ log w' = log w ∧ next_ev w' = next_ev w.
Proof.
  intros H.
  destruct (tick_reads _ _ _ _ _ H)
    as (t & c & pc & cd & sm & ps & s & Ht & Hp & Hc & Hsm & Hs).
  rewrite (connection_update_run csm_step ctx ev w t c pc cd sm ps s) in H by done.
  injection H as <-. exists sm. cbn [mem brk log trace timers next_ev].
  split; [done|]. split; [by eexists|].
  split; [by intros l Hl; rewrite lookup_insert_ne|].
  split; [by rewrite lookup_insert_eq|]. done.
Qed.

(** X9: a run of the loop that fires default ticks makes exactly one call
    for each tick, in the order of the ticks, and each is the call of
    [csm_next_state] on the state machine of the connection behind the
    event fired, an event that was registered as a default tick before
    the run; the run makes no other call, registers no timer, allocates
    nothing, frees nothing and logs nothing. *)
Theorem loop_run_effect csm_step w evs w' :
  loop_run csm_step w evs w' →
  (∃ calls, trace w' = reverse calls ++ trace w ∧ Forall2 (tick_call w) evs calls) ∧
  timers w' ⊆ timers w ∧
  (∀ l, is_Some (mem w' !! l) ↔ is_Some (mem w !! l)) ∧
  brk w' = brk w ∧ log w' = log w ∧ next_ev w' = next_ev w.
Proof.
  intros Hrun.
  induction Hrun as [w | w ev w1 evs w2 Hf _ IH].
  { split; [|done]. exists []. split; [done | constructor]. }
  destruct IH as ((calls & Htr2 & Hcalls) & Ht & Hmem & Hb & Hl & Hn).
  pose proof (fires_timers _ _ _ _ Hf) as Hsub.
  destruct Hf as [w0 t w1' Ht0 Hcb Hf].
  pose proof (tick_effect _ _ _ _ _ Hf)
    as (sm' & Htr & Hin & Hout & Hin' & Hb1 & Hl1 & Hn1).
  destruct (tick_reads _ _ _ _ _ Hf)
    as (t' & c & pc & cd & sm & ps & s & Ht' & Hp & Hc & Hsm & Hs).
  assert (t' = t) as -> by congruence.
  rewrite (connection_update_run csm_step _ ev w0 t c pc cd sm ps s) in Hf by done.
  injection Hf as <-. cbn [mem brk log trace timers next_ev] in *.
  split; [|split; [by etrans | split; [|split; [|split]]]].
  - exists (ev_csm_next_state (Some sm) :: calls). split.
    + rewrite Htr2, reverse_cons, <- app_assoc. done.
    + constructor.
      * exists t, c, pc, cd. by rewrite Hsm.
      * eapply Forall2_impl; [exact Hcalls|].
        intros e call (t1 & c1 & pc1 & cd1 & Ht1 & Hcb1 & Hp1 & Hc1 & ->).
        cbn [mem timers] in Ht1, Hc1.
        exists t1, c1, pc1, cd1. split; [by eapply lookup_weaken|].
        split; [done|]. split; [done|]. split; [|done].
        destruct (decide (c1 = sm)) as [->|Hne].
        -- by rewrite lookup_insert_eq in Hc1.
        -- by rewrite lookup_insert_ne in Hc1.
  - intros l. rewrite Hmem. destruct (decide (l = sm)) as [->|Hne].
    + rewrite lookup_insert_eq. split; by eexists.
    + by rewrite lookup_insert_ne.
  - congruence.
  - congruence.
  - congruence.
Qed.

Lemma loop_run_effect_witness :
  ∃ w', loop_run example_step example_ticking [1; 1] w' ∧
        timers w' ⊆ timers example_ticking ∧
        trace w' = [ev_csm_next_state (Some 19); ev_csm_next_state (Some 19)]
                   ++ trace example_ticking.
Proof.
  eexists. split.
  - eapply loop_fire.
    { eapply fires_tick; [vm_compute; reflexivity | reflexivity | vm_compute; reflexivity]. }
    eapply loop_fire.
    { eapply fires_tick; [vm_compute; reflexivity | reflexivity | vm_compute; reflexivity]. }
    apply loop_stop.
  - match goal with
    | |- context [trace ?w' = _] =>
        destruct (loop_run_effect example_step example_ticking [1; 1] w')
          as ((calls & Htr & Hcalls) & Hsub & _)
    end.
    + eapply loop_fire.
      { eapply fires_tick;
          [vm_compute; reflexivity | reflexivity | vm_compute; reflexivity]. }
      eapply loop_fire.
      { eapply fires_tick;
          [vm_compute; reflexivity | reflexivity | vm_compute; reflexivity]. }
      apply loop_stop.
    + split; [exact Hsub|]. rewrite Htr.
      apply Forall2_cons_inv_l in Hcalls as (c1 & calls1 & Hc1 & Hcalls & ->).
      apply Forall2_cons_inv_l in Hcalls as (c2 & calls2 & Hc2 & Hcalls & ->).
      apply Forall2_nil_inv_l in Hcalls as ->.
      destruct Hc1 as (t1 & l1 & p1 & d1 & Ht1 & _ & Hp1 & Hl1 & ->).
      destruct Hc2 as (t2 & l2 & p2 & d2 & Ht2 & _ & Hp2 & Hl2 & ->).
      vm_compute in Ht1, Ht2. injection Ht1 as <-. injection Ht2 as <-.
      simpl in Hp1, Hp2. injection Hp1 as <-. injection Hp2 as <-.
      vm_compute in Hl1, Hl2. injection Hl1 as <- <-. injection Hl2 as <- <-.
      reflexivity.
Defined.

(** ** Attribute lists that are not there *)

(** X10: the entry operations that take an attribute list walk it without
    testing it: past the checks of handle, name and parent, a null list is
    undefined behaviour in [ld_add_entry], [ld_mod_entry] and
    [ld_mod_entry_attrs]. *)
Theorem null_attribute_list_undefined string_ok op_result w h name parent prefix opcode
    n p x :
  heap_okb w = true →
  str_at (mem w) name = Some n → string_ok n = true →
  str_at (mem w) parent = Some p → string_ok p = true →
  render (mem w) prefix = Some x →
  ld_add_entry string_ok op_result (Some h) name parent prefix None w = Undef ∧
  ld_mod_entry string_ok op_result (Some h) name parent prefix None w = Undef ∧
  ld_mod_entry_attrs string_ok op_result (Some h) name parent prefix None opcode w = Undef.
Proof.
  intros Hok Hn Hnok Hp Hpok Hx.
  apply heap_okb_keys in Hok.
  pose proof (str_pres_refl (mem w)) as Hpres.
  unfold ld_add_entry, ld_mod_entry, ld_mod_entry_attrs, check_handle.
  rewrite !(check_string_pass _ name _ _ _ _ Hn Hnok).
  rewrite !(check_string_pass _ parent _ _ _ _ Hp Hpok).
  split; [|split]; run_to_undef.
Qed.

Lemma null_attribute_list_undefined_witness :
  ld_add_entry any_string always_ok (Some 1) (CLit "u1") (CLit "ou=people") (CLit "cn")
    None example_world = Undef.
Proof.
  refine (proj1 (null_attribute_list_undefined any_string always_ok example_world 1
                   (CLit "u1") (CLit "ou=people") (CLit "cn") LDAP_MOD_ADD
                   "u1" "ou=people" "cn" _ _ _ _ _ _)); reflexivity.
Defined.

(** ** A session from [ld_init] to [ld_free] *)

Ltac solve_session_arena :=
  world_simpl;
  repeat (apply arena_ok_insert_same; [| loc_lt | loc_lt | reflexivity]);
  eapply arena_ok_mono; [apply arena_ok_new; solve_keys | loc_le].

(** The end of [ld_init] keeps what it allocates inside the arena, makes
    the one call of [connection_configure], and logs its failure. *)
Lemma configure_tail_arena configure w g conn cc h a cd m0 (Q : unit → world → Prop) :
  arena_ok m0 a (mem w) (brk w) →
  mem w !! g = Some (Chunk (Some a) (PGlobal (global_ctx.mk (Some a)))) →
  mem w !! conn = Some (Chunk (Some a) (PConn cd)) →
  a < conn →
  (∀ w',
     arena_ok m0 a (mem w') (brk w') →
     trace w' = ev_connection_configure (Some g) (Some conn) (Some cc) :: trace w →
     log w' = match cf_rc (configure (trace w')) with
              | RETURN_CODE_SUCCESS => log w
              | RETURN_CODE_FAILURE => ld_error "Unable to configure connection" :: log w
              end →
     timers w' = timers w →
     Q tt w') →
  wp (connection_configure configure (Some g) (Some conn) (Some cc))
     (λ rc w',
        wp match rc with
           | RETURN_CODE_SUCCESS => update_conn conn (connection_ctx.set_handle (Some h))
           | RETURN_CODE_FAILURE => say (ld_error "Unable to configure connection")
           end Q w') w.
Proof.
  intros Harena Hg Hc Hac HQ.
  pose proof (arena_ok_keys _ _ _ _ Harena) as Hk.
  pose proof Harena as (_ & _ & Ha & _).
  assert (conn < brk w) as Hcb by (by apply (Hk _ _ Hc)).
  assert (g < brk w) as Hgb by (by apply (Hk _ _ Hg)).
  assert (a < brk w) as Hab by (by apply (Hk _ _ Ha)).
  pose proof (str_pres_refl (mem w)) as Hp.
  unfold connection_configure. go.
  destruct (cf_state _) as [s|], (cf_rc _) eqn:Hrc; go.
  all: apply HQ; world_simpl; rewrite ?Hrc; try done.
  all: repeat first
         [ exact Harena
         | apply arena_ok_insert_same; [| lia | lia | reflexivity]
         | eapply arena_ok_mono; [exact Harena | lia] ].
Qed.

Ltac finish_arena :=
  eapply configure_tail_arena;
    [| | | | intros w' Harena Htr Hlog Htm; rewrite Htr in Hlog;
             split; [exact Harena | split; [exact Htr | split; [exact Hlog | exact Htm]]]];
    [| find_lookup | find_lookup |]; [solve_session_arena | loc_lt].

Lemma ld_init_arena configure w out po c0 rest cl pc cfg :
  heap_okb w = true →
  mem w !! out = Some (Chunk po (PPtrs (c0 :: rest))) →
  mem w !! cl = Some (Chunk pc (PConfig cfg)) →
  null_or_readable (mem w) (ld_config.username cfg) →
  null_or_readable (mem w) (ld_config.base_dn cfg) →
  null_or_readable (mem w) (ld_config.password cfg) →
  (ld_config.use_tls cfg = true →
   null_or_readable (mem w) (ld_config.cacertfile cfg) ∧
   null_or_readable (mem w) (ld_config.certfile cfg) ∧
   null_or_readable (mem w) (ld_config.keyfile cfg)) →
  wp (ld_init configure (Some out) (Some cl))
     (λ _ w',
        arena_ok
          (<[brk w := Chunk None
                        (PHandle (ld_handle.mk (Some (brk w + 1)) (Some (brk w + 2))
                                    (Some (brk w + 3)) (Some (brk w + 4))
                                    (Some (brk w + 5))))]>
             (<[out := Chunk po (PPtrs (Some (brk w) :: rest))]> (mem w)))
          (brk w + 1) (mem w') (brk w') ∧
        trace w' = ev_connection_configure (Some (brk w + 3)) (Some (brk w + 4))
                     (Some (brk w + 5))
                   :: ev_ldap_set_option None LDAP_OPT_DEBUG_LEVEL (-1) :: trace w ∧
        log w' = match cf_rc (configure
                                (ev_connection_configure (Some (brk w + 3))
                                   (Some (brk w + 4)) (Some (brk w + 5))
                                 :: ev_ldap_set_option None LDAP_OPT_DEBUG_LEVEL (-1)
                                 :: trace w)) with
                 | RETURN_CODE_SUCCESS => log w
                 | RETURN_CODE_FAILURE =>
                     ld_error "Unable to configure connection" :: log w
                 end ∧
        timers w' = timers w) w.
Proof.
  intros Hheap Ho Hc Hun Hbd Hpw Htls.
  pose proof (heap_okb_keys _ Hheap) as Hk.
  assert (out < brk w) as Hob by (by apply (Hk _ _ Ho)).
  assert (cl < brk w) as Hcb by (by apply (Hk _ _ Hc)).
  assert (out ≠ cl) as Hne by (by intros ->; rewrite Ho in Hc; destruct cfg).
  destruct cfg as [host pv base_dn username password sb tls sasl anon timeout ca ce ke].
  world_simpl in Hun Hbd Hpw Htls.
  apply render_of_optional in Hun as [u Hu], Hbd as [b Hb].
  pose proof (str_pres_refl (mem w)) as Hp.
  unfold ld_init.
  go. rewrite decide_True by (simpl; lia). go.
  split_optional_path password; destruct sasl, tls; go.
  all: try (destruct (Htls eq_refl) as (Hca & Hce & Hke); clear Htls;
            split_optional_path ca; go; split_optional_path ce; go;
            split_optional_path ke; go).
  all: finish_arena.
Qed.

(** X11: a session that is opened by [ld_init] and then closed by
    [ld_free] on the handle it was given leaves nothing behind: the store
    is the caller's again, but for the handle variable, which still holds
    the address of the released handle; the last call made is the closing
    of the connection. *)
Theorem session_leaves_nothing configure w out po c0 rest cl pc cfg :
  heap_okb w = true →
  mem w !! out = Some (Chunk po (PPtrs (c0 :: rest))) →
  mem w !! cl = Some (Chunk pc (PConfig cfg)) →
  null_or_readable (mem w) (ld_config.username cfg) →
  null_or_readable (mem w) (ld_config.base_dn cfg) →
  null_or_readable (mem w) (ld_config.password cfg) →
  (ld_config.use_tls cfg = true →
   null_or_readable (mem w) (ld_config.cacertfile cfg) ∧
   null_or_readable (mem w) (ld_config.certfile cfg) ∧
   null_or_readable (mem w) (ld_config.keyfile cfg)) →
  wp (do_ ld_init configure (Some out) (Some cl);
      do cells <- load_ptrs out;
      ld_free (default None (cells !! 0%nat)))
     (λ _ w',
        mem w' = <[out := Chunk po (PPtrs (Some (brk w) :: rest))]> (mem w) ∧
        trace w' = ev_connection_close (Some (brk w + 4))
                   :: ev_connection_configure (Some (brk w + 3)) (Some (brk w + 4))
                        (Some (brk w + 5))
                   :: ev_ldap_set_option None LDAP_OPT_DEBUG_LEVEL (-1) :: trace w) w.
Proof.
  intros Hheap Ho Hc Hun Hbd Hpw Htls.
  pose proof (heap_okb_keys _ Hheap) as Hk.
  pose proof (heap_okb_parents _ Hheap) as Hpar.
  assert (out < brk w) as Hob by (by apply (Hk _ _ Ho)).
  apply wp_bind. eapply wp_mono; [by eapply ld_init_arena|].
  intros [] w1 (Harena & Htr & _ & _). cbv beta.
  set (hd := ld_handle.mk (Some (brk w + 1)) (Some (brk w + 2)) (Some (brk w + 3))
               (Some (brk w + 4)) (Some (brk w + 5))) in *.
  set (m0 := <[brk w := Chunk None (PHandle hd)]>
               (<[out := Chunk po (PPtrs (Some (brk w) :: rest))]> (mem w))) in *.
  assert (parents_ok m0 (brk w + 1)) as Hpar0.
  { intros l c r. unfold m0. rewrite !lookup_insert. repeat case_decide.
    - by intros [= <-].
    - intros [= <-]. simpl. intros Hr. pose proof (Hpar _ _ _ Ho Hr). lia.
    - intros Hl Hr. pose proof (Hpar _ _ _ Hl Hr). lia. }
  pose proof Harena as (Hlow & _ & Ha & _).
  assert (mem w1 !! out = Some (Chunk po (PPtrs (Some (brk w) :: rest)))) as Hout.
  { rewrite Hlow by lia. unfold m0.
    rewrite lookup_insert_ne by lia. by rewrite lookup_insert_eq. }
  assert (mem w1 !! brk w = Some (Chunk None (PHandle hd))) as Hh.
  { rewrite Hlow by lia. unfold m0. by rewrite lookup_insert_eq. }
  pose proof (talloc_free_arena _ _ _ _ Harena Hpar0) as Hfree.
  unfold wp, load_ptrs, ld_free, load_handle, connection_close, emit, talloc_free, free,
    bind, load, ret, set_mem.
  rewrite Hout. cbv beta iota. cbn [content].
  change (default None ((Some (brk w) :: rest) !! 0%nat)) with (Some (brk w)).
  cbv beta iota. cbn [mem]. rewrite Hh. cbv beta iota.
  cbn [content mem ld_handle.talloc_ctx ld_handle.connection_ctx hd].
  rewrite Ha. cbv beta iota. cbn [mem brk log trace timers next_ev].
  rewrite Hfree. unfold m0 at 1. rewrite lookup_insert_eq. cbv beta iota.
  cbn [mem brk log trace timers next_ev]. split; [|by rewrite Htr].
  unfold m0. apply delete_insert_id.
  rewrite lookup_insert_ne by lia. apply (fresh_none _ _ _ Hk). lia.
Qed.

Lemma session_leaves_nothing_witness :
  wp (do_ ld_init configure_ok (Some 1) (Some 2);
      do cells <- load_ptrs 1;
      ld_free (default None (cells !! 0%nat)))
     (λ _ w',
        mem w' = <[1 := Chunk None (PPtrs [Some 4])]> (mem example_caller) ∧
        trace w' = [ev_connection_close (Some 8);
                    ev_connection_configure (Some 7) (Some 8) (Some 9);
                    ev_ldap_set_option None LDAP_OPT_DEBUG_LEVEL (-1)])
     example_caller.
Proof.
  refine (session_leaves_nothing configure_ok example_caller 1 None None [] 2 None
            example_settings _ _ _ _ _ _ _); try reflexivity; simpl; eauto.
Defined.

(** X12: whatever the settings, [ld_init] sets the debug level of the
    protocol library through a null library handle and then makes one call
    of [connection_configure]; it reports a connection that could not be
    configured in the log only: the session stays allocated behind the
    handle variable, and the log stays as it was when the configuration
    succeeds. *)
Theorem ld_init_calls configure w out po c0 rest cl pc cfg :
  heap_okb w = true →
  mem w !! out = Some (Chunk po (PPtrs (c0 :: rest))) →
  mem w !! cl = Some (Chunk pc (PConfig cfg)) →
  null_or_readable (mem w) (ld_config.username cfg) →
  null_or_readable (mem w) (ld_config.base_dn cfg) →
  null_or_readable (mem w) (ld_config.password cfg) →
  (ld_config.use_tls cfg = true →
   null_or_readable (mem w) (ld_config.cacertfile cfg) ∧
   null_or_readable (mem w) (ld_config.certfile cfg) ∧
   null_or_readable (mem w) (ld_config.keyfile cfg)) →
  wp (ld_init configure (Some out) (Some cl))
     (λ _ w',
        let calls := ev_connection_configure (Some (brk w + 3)) (Some (brk w + 4))
                       (Some (brk w + 5))
                     :: ev_ldap_set_option None LDAP_OPT_DEBUG_LEVEL (-1) :: trace w in
        trace w' = calls ∧
        log w' = match cf_rc (configure calls) with
                 | RETURN_CODE_SUCCESS => log w
                 | RETURN_CODE_FAILURE =>
                     ld_error "Unable to configure connection" :: log w
                 end ∧
        timers w' = timers w ∧
        mem w' !! out = Some (Chunk po (PPtrs (Some (brk w) :: rest))) ∧
        mem w' !! brk w
        = Some (Chunk None
                  (PHandle (ld_handle.mk (Some (brk w + 1)) (Some (brk w + 2))
                              (Some (brk w + 3)) (Some (brk w + 4)) (Some (brk w + 5))))) ∧
        mem w' !! (brk w + 1) = Some (Chunk None PCtx)) w.
Proof.
  intros Hheap Ho Hc Hun Hbd Hpw Htls.
  pose proof (heap_okb_keys _ Hheap) as Hk.
  assert (out < brk w) as Hob by (by apply (Hk _ _ Ho)).
  eapply wp_mono; [by eapply ld_init_arena|].
  intros [] w1 ((Hlow & _ & Ha & _) & Htr & Hlog & Htm). cbv zeta.
  split; [done|]. split; [done|]. split; [done|]. split; [|split; [|done]].
  - rewrite Hlow by lia. rewrite lookup_insert_ne by lia. by rewrite lookup_insert_eq.
  - rewrite Hlow by lia. by rewrite lookup_insert_eq.
Qed.

Lemma ld_init_calls_witness :
  wp (ld_init (λ _, Configured RETURN_CODE_FAILURE None None None) (Some 1) (Some 2))
     (λ _ w',
        trace w' = [ev_connection_configure (Some 7) (Some 8) (Some 9);
                    ev_ldap_set_option None LDAP_OPT_DEBUG_LEVEL (-1)] ∧
        log w' = [ld_error "Unable to configure connection"] ∧
        mem w' !! 1 = Some (Chunk None (PPtrs [Some 4])))
     example_caller.
Proof.
  eapply wp_mono.
  - refine (ld_init_calls (λ _, Configured RETURN_CODE_FAILURE None None None)
              example_caller 1 None None [] 2 None example_settings _ _ _ _ _ _ _);
      try reflexivity; simpl; eauto.
  - intros _ w' (Htr & Hlog & _ & Hout & _). done.
Defined.

(** X13: a handle is freed once: a second [ld_free] of the same handle
    reads the released block, which is undefined behaviour. *)
Theorem ld_free_twice_undefined w h hd a pa :
  mem w !! h = Some (Chunk None (PHandle hd)) →
  ld_handle.talloc_ctx hd = Some a →
  mem w !! a = Some (Chunk pa PCtx) →
  (do_ ld_free (Some h); ld_free (Some h)) w = Undef.
Proof.
  intros Hh Ha Hal. unfold bind at 1.
  rewrite (ld_free_run w h hd a pa Hh Ha Hal).
  unfold ld_free, load_handle, bind, load. cbn [mem]. by rewrite lookup_delete_eq.
Qed.

Lemma ld_free_twice_undefined_witness :
  (do_ ld_free (Some 4); ld_free (Some 4)) example_session = Undef.
Proof.
  refine (ld_free_twice_undefined example_session 4
            (ld_handle.mk (Some 5) (Some 6) (Some 7) (Some 8) (Some 9)) 5 None _ _ _);
    vm_compute; reflexivity.
Defined.
